(** * REVOXSMOKIE: order lifecycle, placement, tracking and security helpers

    A shallow embedding of the TypeScript sources

      - [src/lib/security.ts]              (SecurityManager)
      - [src/lib/trackingSystem.ts]        (TrackingSystem)
      - [src/app/api/orders/route.ts]      (POST /api/orders)
      - [src/app/api/order-tracking/route.ts] (GET and PUT /api/order-tracking)
      - the staff dashboard component OrdersManagement (loadOrders,
        updateOrderStatus)

    JavaScript strings are sequences of UTF-16 code units and are modelled as
    [list Z]; JavaScript numbers are modelled as exact rationals extended with
    NaN and the two infinities (rounding of IEEE doubles is not modelled);
    [Map] objects are modelled as stdpp's [gmap]. *)

From Stdlib Require Import ZArith QArith Qabs Qround Lia Lqa String Ascii List Bool Sorted.
From stdpp Require Import base option list gmap.

Local Open Scope Z_scope.

(** ** JavaScript strings *)

Module JsString.

(** A string is the list of its UTF-16 code units. *)
Definition jsstring := list Z.

Definition code (c : ascii) : Z := Z.of_N (N_of_ascii c).

(** [lit "abc"] is the JavaScript literal ['abc']. *)
Definition lit (s : string) : jsstring := map code (list_ascii_of_string s).

Fixpoint eqb (s t : jsstring) : bool :=
  match s, t with
  | [], [] => true
  | c :: s', d :: t' => (c =? d) && eqb s' t'
  | _, _ => false
  end.

(** [starts_with p s]: [p] is a prefix of [s]. *)
Fixpoint starts_with (p s : jsstring) : bool :=
  match p, s with
  | [], _ => true
  | c :: p', d :: s' => (c =? d) && starts_with p' s'
  | _ :: _, [] => false
  end.

(** [String.prototype.includes]: does [p] occur somewhere in [s]? *)
Fixpoint includes (s p : jsstring) : bool :=
  starts_with p s ||
  match s with
  | [] => false
  | _ :: s' => includes s' p
  end.

(** [String.prototype.replace] with a string pattern: only the first
    occurrence of [p] is replaced by [r]; a string without occurrence is
    returned unchanged. *)
Fixpoint replace (s p r : jsstring) : jsstring :=
  if starts_with p s then r ++ drop (length p) s
  else match s with
       | [] => []
       | c :: s' => c :: replace s' p r
       end.

(** [String.prototype.replace] with a global single-character pattern
    (the regular expressions [/&/g], [/</g], ... of sanitizeText). *)
Definition replace_all_char (c : Z) (r : jsstring) (s : jsstring) : jsstring :=
  flat_map (fun d => if d =? c then r else [d]) s.

End JsString.

Export JsString.

(** ** JavaScript numbers *)

Module JsNumber.

(** A number is NaN, an infinity ([Inf true] is [-Infinity]) or a finite
    value.  Finite values are exact rationals kept in lowest terms, so that
    equal numbers are equal terms.  The arithmetic below is exact: it gives
    the result of the code's double arithmetic wherever that rounds nothing,
    in particular on whole numbers below 2^53 in absolute value; the
    properties that rest on sums and products are stated for such values. *)
Inductive num : Type :=
| NaN
| Inf (neg : bool)
| Fin (q : Q).

Definition of_Z (z : Z) : num := Fin (inject_Z z).

Definition q_sgn (q : Q) : Z := Z.sgn (Qnum q).

Definition neg (a : num) : num :=
  match a with
  | NaN => NaN
  | Inf s => Inf (negb s)
  | Fin q => Fin (Qred (- q))
  end.

Definition add (a b : num) : num :=
  match a, b with
  | NaN, _ | _, NaN => NaN
  | Inf s, Inf t => if Bool.eqb s t then Inf s else NaN
  | Inf s, Fin _ | Fin _, Inf s => Inf s
  | Fin p, Fin q => Fin (Qred (p + q))
  end.

Definition sub (a b : num) : num := add a (neg b).

Definition mul (a b : num) : num :=
  match a, b with
  | NaN, _ | _, NaN => NaN
  | Inf s, Inf t => Inf (xorb s t)
  | Inf s, Fin q | Fin q, Inf s =>
      match q_sgn q with
      | 0 => NaN
      | Zpos _ => Inf s
      | Zneg _ => Inf (negb s)
      end
  | Fin p, Fin q => Fin (Qred (p * q))
  end.

(** [Math.abs] *)
Definition abs (a : num) : num :=
  match a with
  | NaN => NaN
  | Inf _ => Inf false
  | Fin q => Fin (Qred (Qabs q))
  end.

(** [Math.floor] *)
Definition floor (a : num) : num :=
  match a with
  | Fin q => of_Z (Qfloor q)
  | _ => a
  end.

(** [a < b]; every comparison with NaN is false. *)
Definition lt (a b : num) : bool :=
  match a, b with
  | NaN, _ | _, NaN => false
  | Inf true, Inf true => false
  | Inf true, _ => true
  | _, Inf true => false
  | Inf false, _ => false
  | Fin _, Inf false => true
  | Fin p, Fin q => negb (Qle_bool q p)
  end.

Definition gt (a b : num) : bool := lt b a.

(** [a <= b] *)
Definition le (a b : num) : bool :=
  match a, b with
  | NaN, _ | _, NaN => false
  | Inf true, _ => true
  | _, Inf false => true
  | Inf false, _ => false
  | Fin _, Inf true => false
  | Fin p, Fin q => Qle_bool p q
  end.

Definition ge (a b : num) : bool := le b a.

(** Strict equality [===] on numbers (NaN differs from itself). *)
Definition eqb (a b : num) : bool :=
  match a, b with
  | Inf s, Inf t => Bool.eqb s t
  | Fin p, Fin q => Qeq_bool p q
  | _, _ => false
  end.

(** ToBoolean on numbers: zero and NaN are falsy. *)
Definition truthy (a : num) : bool :=
  match a with
  | NaN => false
  | Inf _ => true
  | Fin q => negb (Qeq_bool q 0)
  end.

End JsNumber.

(** ** Numeric literals in strings: parseInt, parseFloat, ToNumber, toString *)

Module JsParse.

Import JsNumber.

(** WhiteSpace and LineTerminator code units, as stripped by parseInt,
    parseFloat and ToNumber. *)
Definition is_space (c : Z) : bool :=
  (c =? 9) || (c =? 10) || (c =? 11) || (c =? 12) || (c =? 13) || (c =? 32)
  || (c =? 160) || (c =? 5760) || ((8192 <=? c) && (c <=? 8202))
  || (c =? 8232) || (c =? 8233) || (c =? 8239) || (c =? 8287)
  || (c =? 12288) || (c =? 65279).

Fixpoint trim_start (s : jsstring) : jsstring :=
  match s with
  | c :: s' => if is_space c then trim_start s' else s
  | [] => []
  end.

Definition trim_end (s : jsstring) : jsstring := rev (trim_start (rev s)).

(** Value of a code unit read as a digit: ['0'..'9'], ['a'..'z'],
    ['A'..'Z']; [None] for any other code unit. *)
Definition digit_val (c : Z) : option Z :=
  if (48 <=? c) && (c <=? 57) then Some (c - 48)
  else if (97 <=? c) && (c <=? 122) then Some (c - 87)
  else if (65 <=? c) && (c <=? 90) then Some (c - 55)
  else None.

Definition is_digit (radix : Z) (c : Z) : bool :=
  match digit_val c with
  | Some d => d <? radix
  | None => false
  end.

(** Longest prefix of [s] made of digits of the radix, and what follows. *)
Fixpoint span_digits (radix : Z) (s : jsstring) : jsstring * jsstring :=
  match s with
  | c :: s' =>
      if is_digit radix c
      then let '(ds, rest) := span_digits radix s' in (c :: ds, rest)
      else ([], s)
  | [] => ([], [])
  end.

(** Value of a digit string, most significant digit first. *)
Definition digits_value (radix : Z) (ds : jsstring) : Z :=
  fold_left (fun v c => v * radix + default 0 (digit_val c)) ds 0.

(** An optional sign; returns whether it is negative and the rest. *)
Definition read_sign (s : jsstring) : bool * jsstring :=
  match s with
  | c :: s' =>
      if c =? 43 then (false, s')
      else if c =? 45 then (true, s')
      else (false, s)
  | [] => (false, s)
  end.

(** What follows a ["0x"] or ["0X"] prefix, if there is one. *)
Definition hex_prefix (s : jsstring) : option jsstring :=
  match s with
  | c :: d :: s' =>
      if (c =? 48) && ((d =? 120) || (d =? 88)) then Some s' else None
  | _ => None
  end.

(** [parseInt(s)] without radix argument, as an integer; [None] is NaN.
    A ["0x"] or ["0X"] prefix selects radix 16, any other string is read in
    radix 10. *)
Definition parseInt_Z (s : jsstring) : option Z :=
  let '(negative, s1) := read_sign (trim_start s) in
  let '(radix, s2) :=
    match hex_prefix s1 with
    | Some s' => (16, s')
    | None => (10, s1)
    end in
  let '(ds, _) := span_digits radix s2 in
  match ds with
  | [] => None
  | _ => Some (if negative then - digits_value radix ds else digits_value radix ds)
  end.

Definition parseInt_string (s : jsstring) : num :=
  match parseInt_Z s with
  | Some z => of_Z z
  | None => NaN
  end.

(** The optional exponent part of a decimal literal: [e] or [E], an optional
    sign and at least one digit.  Returns the exponent and the rest; a
    malformed exponent is not consumed. *)
Definition read_exponent (s : jsstring) : Z * jsstring :=
  match s with
  | c :: s' =>
      if (c =? 101) || (c =? 69) then
        let '(negative, s1) := read_sign s' in
        let '(ds, rest) := span_digits 10 s1 in
        match ds with
        | [] => (0, s)
        | _ => (if negative then - digits_value 10 ds else digits_value 10 ds, rest)
        end
      else (0, s)
  | [] => (0, s)
  end.

Definition pow10 (e : Z) : Q :=
  match e with
  | Zneg p => 1 # (10 ^ p)%positive
  | _ => inject_Z (10 ^ e)
  end.

(** The longest prefix of [s] that is a StrDecimalLiteral, as a number, and
    the rest of the string; [None] when no prefix is one. *)
Definition read_decimal (s : jsstring) : option (num * jsstring) :=
  let '(negative, s1) := read_sign s in
  let signed (a : num) := if negative then neg a else a in
  if starts_with (lit "Infinity") s1
  then Some (signed (Inf false), drop 8 s1)
  else
    let '(ip, s2) := span_digits 10 s1 in
    let '(fp, s3) :=
      match s2 with
      | c :: s' =>
          if c =? 46 then
            let '(fp, s3) := span_digits 10 s' in
            match ip, fp with
            | [], [] => ([], s2)
            | _, _ => (fp, s3)
            end
          else ([], s2)
      | [] => ([], s2)
      end in
    match ip ++ fp with
    | [] => None
    | ds =>
        let '(e, rest) := read_exponent s3 in
        let q := Qmult (inject_Z (digits_value 10 ds)) (pow10 (e - Z.of_nat (length fp))) in
        Some (signed (Fin (Qred q)), rest)
    end.

(** [parseFloat(s)] on a string. *)
Definition parseFloat_string (s : jsstring) : num :=
  match read_decimal (trim_start s) with
  | Some (a, _) => a
  | None => NaN
  end.

(** ToNumber on a string (StringToNumber): the whole trimmed string has to
    be a numeric literal; the empty string is 0. *)
Definition string_to_number (s : jsstring) : num :=
  let t := trim_end (trim_start s) in
  let radix :=
    match t with
    | z :: c :: s' =>
        if negb (z =? 48) then None
        else if (c =? 120) || (c =? 88) then Some (16, s')
        else if (c =? 111) || (c =? 79) then Some (8, s')
        else if (c =? 98) || (c =? 66) then Some (2, s')
        else None
    | _ => None
    end in
  match t, radix with
  | [], _ => of_Z 0
  | _, Some (r, s') =>
      match span_digits r s' with
      | ((_ :: _) as ds, []) => of_Z (digits_value r ds)
      | _ => NaN
      end
  | _, None =>
      match read_decimal t with
      | Some (a, []) => a
      | _ => NaN
      end
  end.

(** The code units ['0'..'9']. *)
Definition dec_digit (c : Z) : Prop := 48 <= c <= 57.

(** Code unit of a digit value below 36: ['0'..'9'] then ['a'..'z']. *)
Definition digit_char (d : Z) : Z := if d <? 10 then 48 + d else 87 + d.

(** Digits of a non-negative integer, most significant first. *)
Fixpoint to_digits (fuel : nat) (radix n : Z) (acc : jsstring) : jsstring :=
  match fuel with
  | O => acc
  | S fuel' =>
      let acc' := digit_char (n mod radix) :: acc in
      if n / radix =? 0 then acc' else to_digits fuel' radix (n / radix) acc'
  end.

(** [n.toString(radix)] for an integer [n]. *)
Definition toString_radix (radix n : Z) : jsstring :=
  let ds := to_digits (S (Z.to_nat (Z.log2 (Z.abs n)))) radix (Z.abs n) [] in
  if n <? 0 then 45 :: ds else ds.

(** [parseInt(s, 10)] as an integer; [None] is NaN.  With the radix given,
    a ["0x"] prefix is not special. *)
Definition parseInt10_Z (s : jsstring) : option Z :=
  let '(negative, s1) := read_sign (trim_start s) in
  let '(ds, _) := span_digits 10 s1 in
  match ds with
  | [] => None
  | _ => Some (if negative then - digits_value 10 ds else digits_value 10 ds)
  end.

(** [s.padStart(n, c)] with a one-character filler. *)
Definition padStart (n : nat) (c : Z) (s : jsstring) : jsstring :=
  replicate (n - length s) c ++ s.

End JsParse.

(** ** JavaScript values, as decoded from JSON request bodies *)

Module JsValue.

Import JsNumber JsParse.

#[local] Unset Elimination Schemes.
Inductive jsval : Type :=
| JUndefined
| JNull
| JBool (b : bool)
| JNum (n : num)
| JStr (s : jsstring)
| JArr (elems : list jsval)
| JObj (props : list (jsstring * jsval)).
#[local] Set Elimination Schemes.

(** Result of evaluating an expression or a statement list that may throw. *)
Inductive completion (A : Type) : Type :=
| Normal (a : A)
| Throws.
Arguments Normal {A} a.
Arguments Throws {A}.

Definition bind {A B} (c : completion A) (k : A -> completion B) : completion B :=
  match c with
  | Normal a => k a
  | Throws => Throws
  end.

Inductive jstype : Type :=
| TUndefined | TObject | TBoolean | TNumber | TString.

(** The [typeof] operator. *)
Definition typeof (v : jsval) : jstype :=
  match v with
  | JUndefined => TUndefined
  | JNull | JArr _ | JObj _ => TObject
  | JBool _ => TBoolean
  | JNum _ => TNumber
  | JStr _ => TString
  end.

(** ToBoolean: [undefined], [null], [false], [0], [NaN] and [''] are falsy. *)
Definition truthy (v : jsval) : bool :=
  match v with
  | JUndefined | JNull => false
  | JBool b => b
  | JNum n => JsNumber.truthy n
  | JStr s => match s with [] => false | _ => true end
  | JArr _ | JObj _ => true
  end.

(** [a || b] *)
Definition or_else (a b : jsval) : jsval := if truthy a then a else b.

Fixpoint lookup_prop (k : jsstring) (props : list (jsstring * jsval)) : jsval :=
  match props with
  | [] => JUndefined
  | (k', v) :: props' => if JsString.eqb k k' then v else lookup_prop k props'
  end.

(** Property read [v.k] for the data property names used by the handlers;
    reading a property of [null] or [undefined] throws a TypeError. *)
Definition get (v : jsval) (k : string) : completion jsval :=
  match v with
  | JUndefined | JNull => Throws
  | JObj props => Normal (lookup_prop (lit k) props)
  | _ => Normal JUndefined
  end.

Fixpoint assign_prop (k : jsstring) (x : jsval) (props : list (jsstring * jsval))
  : list (jsstring * jsval) :=
  match props with
  | [] => [(k, x)]
  | (k', v) :: props' =>
      if JsString.eqb k k' then (k', x) :: props'
      else (k', v) :: assign_prop k x props'
  end.

(** Property write [v.k = x] on an object. *)
Definition set (v : jsval) (k : string) (x : jsval) : jsval :=
  match v with
  | JObj props => JObj (assign_prop (lit k) x props)
  | _ => v
  end.

(** First significant decimal digit of a positive rational below 1. *)
Fixpoint leading_digit_small (fuel : nat) (q : Q) : Z :=
  match fuel with
  | O => 0
  | S fuel' =>
      let q10 := Qmult q (inject_Z 10) in
      if Qle_bool 1 q10 then Qfloor q10 else leading_digit_small fuel' q10
  end.

(** [parseInt] of a finite number goes through its decimal rendering:
    plain notation between 1e-6 and 1e21 (the integer part is read), and
    exponent notation outside (only the leading digit is read). *)
Definition parseInt_finite (q : Q) : Z :=
  let a := Qabs q in
  let d :=
    if Qeq_bool a 0 then 0
    else if Qle_bool (inject_Z (10 ^ 21)) a
    then default 0 (head (to_digits (S (Z.to_nat (Z.log2 (Qfloor a)))) 10 (Qfloor a) [])) - 48
    else if Qle_bool (1 # 1000000) a then Qfloor a
    else leading_digit_small (S (Pos.size_nat (Qden a))) a in
  if Qle_bool 0 q then d else - d.

(** [parseInt(v)]: the argument is converted to a string first; an array
    renders as its elements joined by commas, so only its first element can
    contribute digits. *)
Fixpoint parseInt (v : jsval) : num :=
  match v with
  | JStr s => parseInt_string s
  | JNum (Fin q) => of_Z (parseInt_finite q)
  | JArr (x :: _) => parseInt x
  | _ => NaN
  end.

(** [parseFloat(v)] *)
Fixpoint parseFloat (v : jsval) : num :=
  match v with
  | JStr s => parseFloat_string s
  | JNum n => n
  | JArr (x :: _) => parseFloat x
  | _ => NaN
  end.

(** ToNumber, as applied by the arithmetic operators. *)
Fixpoint to_number (v : jsval) : num :=
  match v with
  | JUndefined => NaN
  | JNull => of_Z 0
  | JBool b => of_Z (if b then 1 else 0)
  | JNum n => n
  | JStr s => string_to_number s
  | JArr [] => of_Z 0
  | JArr [x] =>
      match x with
      | JUndefined | JNull => of_Z 0
      | JBool _ => NaN
      | _ => to_number x
      end
  | JArr _ => NaN
  | JObj _ => NaN
  end.

(** [a * b] *)
Definition js_mul (a b : jsval) : num := mul (to_number a) (to_number b).

(** SameValueZero, restricted to primitives (objects compare by identity,
    which a decoded JSON value never shares with a literal). *)
Definition same_value_zero (a b : jsval) : bool :=
  match a, b with
  | JUndefined, JUndefined | JNull, JNull => true
  | JBool x, JBool y => Bool.eqb x y
  | JNum NaN, JNum NaN => true
  | JNum x, JNum y => JsNumber.eqb x y
  | JStr s, JStr t => JsString.eqb s t
  | _, _ => false
  end.

End JsValue.

(** ** The browser's btoa and atob *)

Module Base64.

Import JsValue.

Definition is_byte (c : Z) : Prop := 0 <= c < 256.
Definition is_sextet (v : Z) : Prop := 0 <= v < 64.

(** Character of a 6-bit value in the base64 alphabet. *)
Definition b64_char (v : Z) : Z :=
  if v <? 26 then 65 + v
  else if v <? 52 then 71 + v
  else if v <? 62 then v - 4
  else if v =? 62 then 43
  else 47.

(** Value of a base64 alphabet character. *)
Definition b64_val (c : Z) : option Z :=
  if (65 <=? c) && (c <=? 90) then Some (c - 65)
  else if (97 <=? c) && (c <=? 122) then Some (c - 71)
  else if (48 <=? c) && (c <=? 57) then Some (c + 4)
  else if c =? 43 then Some 62
  else if c =? 47 then Some 63
  else None.

(** The 6-bit groups of a byte string; a final group of one or two bytes
    is completed with zero bits. *)
Fixpoint sextets (s : list Z) : list Z :=
  match s with
  | a :: b :: c :: rest =>
      Z.shiftr a 2
      :: Z.lor (Z.shiftl (Z.land a 3) 4) (Z.shiftr b 4)
      :: Z.lor (Z.shiftl (Z.land b 15) 2) (Z.shiftr c 6)
      :: Z.land c 63
      :: sextets rest
  | [a; b] =>
      [Z.shiftr a 2;
       Z.lor (Z.shiftl (Z.land a 3) 4) (Z.shiftr b 4);
       Z.shiftl (Z.land b 15) 2]
  | [a] => [Z.shiftr a 2; Z.shiftl (Z.land a 3) 4]
  | [] => []
  end.

(** [btoa(s)]: throws when a code unit is above 255; the output is padded
    with ['='] to a multiple of four characters. *)
Definition btoa (s : jsstring) : completion jsstring :=
  if forallb (fun c => c <=? 255) s then
    let v := sextets s in
    Normal (map b64_char v ++ replicate ((4 - length v mod 4) mod 4)%nat 61)
  else Throws.

(** The bytes of a list of 6-bit groups; the bits left over by an
    incomplete final group are discarded. *)
Fixpoint bytes_of_sextets (v : list Z) : list Z :=
  match v with
  | p :: q :: r :: t :: rest =>
      Z.lor (Z.shiftl p 2) (Z.shiftr q 4)
      :: Z.lor (Z.shiftl (Z.land q 15) 4) (Z.shiftr r 2)
      :: Z.lor (Z.shiftl (Z.land r 3) 6) t
      :: bytes_of_sextets rest
  | [p; q; r] =>
      [Z.lor (Z.shiftl p 2) (Z.shiftr q 4);
       Z.lor (Z.shiftl (Z.land q 15) 4) (Z.shiftr r 2)]
  | [p; q] => [Z.lor (Z.shiftl p 2) (Z.shiftr q 4)]
  | _ => []
  end.

Definition is_ascii_whitespace (c : Z) : bool :=
  (c =? 9) || (c =? 10) || (c =? 12) || (c =? 13) || (c =? 32).

(** One or two trailing ['='] are dropped from a string whose length is a
    multiple of four. *)
Definition strip_padding (s : jsstring) : jsstring :=
  if (length s mod 4 =? 0)%nat then
    match rev s with
    | c :: r =>
        if c =? 61 then
          match r with
          | d :: r' => if d =? 61 then rev r' else rev r
          | [] => rev r
          end
        else s
    | [] => s
    end
  else s.

(** [atob(s)], the forgiving base64 decoder: ASCII whitespace is ignored,
    padding is optional, and the call throws on a character outside the
    alphabet or on a length of 1 modulo 4. *)
Definition atob (s : jsstring) : completion jsstring :=
  let s1 := List.filter (fun c => negb (is_ascii_whitespace c)) s in
  let s2 := strip_padding s1 in
  if (length s2 mod 4 =? 1)%nat then Throws
  else
    match mapM b64_val s2 with
    | Some v => Normal (bytes_of_sextets v)
    | None => Throws
    end.

End Base64.

(** ** src/lib/security.ts: SecurityManager *)

Module SecurityManager.

Import JsNumber JsParse JsValue Base64.

(** *** sanitizeText *)

Definition sanitizeText (input : jsval) : jsstring :=
  match input with
  | JStr s =>
      replace_all_char 47 (lit "&#x2F;")
        (replace_all_char 39 (lit "&#x27;")
           (replace_all_char 34 (lit "&quot;")
              (replace_all_char 62 (lit "&gt;")
                 (replace_all_char 60 (lit "&lt;")
                    (replace_all_char 38 (lit "&amp;") s)))))
  | _ => []
  end.

(** *** checkOrderCreationRateLimit *)

Definition windowMs : Z := 60000.
Definition maxAttempts : nat := 5.

(** The static map [orderCreationAttempts]: for each client token, the
    times (milliseconds) of its recorded attempts. *)
Abbreviation attempts_map := (gmap jsstring (list Z)).

(** [now] is the value of [Date.now()] at the call; an omitted [clientId]
    defaults to ['anonymous'].  Returns the answer and the updated map. *)
Definition checkOrderCreationRateLimit
    (now : Z) (clientId : option jsstring) (orderCreationAttempts : attempts_map)
  : bool * attempts_map :=
  let clientId := default (lit "anonymous") clientId in
  let attempts := default [] (orderCreationAttempts !! clientId) in
  let recentAttempts := List.filter (fun time => now - time <? windowMs) attempts in
  if (maxAttempts <=? length recentAttempts)%nat then
    (false, orderCreationAttempts)
  else
    (true, <[clientId := recentAttempts ++ [now]]> orderCreationAttempts).

(** *** simpleHash, encryptData, decryptData *)

(** ToInt32: the value modulo 2^32, in [-2^31, 2^31). *)
Definition to_int32 (z : Z) : Z := (z + 2 ^ 31) mod 2 ^ 32 - 2 ^ 31.

Definition simpleHash_step (hash char : Z) : Z :=
  let hash := (to_int32 (Z.shiftl hash 5) - hash) + char in
  to_int32 (Z.land hash hash).

Definition simpleHash (str : jsstring) : jsstring :=
  let hash := fold_left simpleHash_step str 0 in
  toString_radix 36 (Z.abs hash) ++ toString_radix 36 (Z.of_nat (length str)).

(** [roundKey.charCodeAt(i % roundKey.length)]; [None] stands for NaN,
    which an empty key would give. *)
Definition key_char (roundKey : jsstring) (i : nat) : option Z :=
  roundKey !! (i mod length roundKey)%nat.

Definition encrypt_round (roundKey encrypted : jsstring) : jsstring :=
  imap (fun i dataChar =>
          match key_char roundKey i with
          | Some keyChar => (dataChar + keyChar) mod 256
          | None => 0
          end) encrypted.

Definition decrypt_round (roundKey decrypted : jsstring) : jsstring :=
  imap (fun i dataChar =>
          match key_char roundKey i with
          | Some keyChar =>
              let originalChar := Z.rem (dataChar - keyChar) 256 in
              if originalChar <? 0 then originalChar + 256 else originalChar
          | None => 0
          end) decrypted.

Definition roundKey (keyHash : jsstring) (round : Z) : jsstring :=
  simpleHash (keyHash ++ toString_radix 10 round).

(** [subtle] tells whether [window.crypto.subtle] is available.  The
    [catch] clause retries with plain [btoa(data)], which may throw again. *)
Definition encryptData (subtle : bool) (data key : jsstring) : completion jsstring :=
  let attempt :=
    if subtle then
      let keyHash := simpleHash key in
      let encrypted :=
        fold_left (fun encrypted round => encrypt_round (roundKey keyHash round) encrypted)
                  [0; 1; 2] data in
      btoa encrypted
    else btoa data in
  match attempt with
  | Normal r => Normal r
  | Throws => btoa data
  end.

(** The [catch] clause returns the empty string. *)
Definition decryptData (subtle : bool) (encryptedData key : jsstring) : jsstring :=
  match atob encryptedData with
  | Normal decrypted =>
      if subtle then
        let keyHash := simpleHash key in
        fold_left (fun decrypted round => decrypt_round (roundKey keyHash round) decrypted)
                  [2; 1; 0] decrypted
      else decrypted
  | Throws => []
  end.

(** *** validateOrderItems *)

(** [typeof v === 'number'] and [typeof v === 'string'] *)
Definition is_number (v : jsval) : bool :=
  match typeof v with TNumber => true | _ => false end.
Definition is_string (v : jsval) : bool :=
  match typeof v with TString => true | _ => false end.

(** The number held by a value of type number, the string held by a value
    of type string. *)
Definition number_of (v : jsval) : num :=
  match v with JNum n => n | _ => NaN end.
Definition string_of (v : jsval) : jsstring :=
  match v with JStr s => s | _ => [] end.

(** The checks and the in-place sanitization of one array element.  The
    result is [inl item'] (the element after sanitization) when the element
    passes, and [inr tt] when the function returns false at this element. *)
Definition validate_item (item : jsval) : completion (jsval + unit) :=
  bind (get item "id") (fun id =>
  bind (get item "name") (fun name =>
  bind (get item "quantity") (fun quantity =>
  bind (get item "price") (fun price =>
  if negb (truthy id) || negb (truthy name) || negb (truthy quantity) || negb (truthy price)
  then Normal (inr tt)
  else if negb (is_number id) || lt (number_of id) (of_Z 1) || gt (number_of id) (of_Z 1000)
  then Normal (inr tt)
  else if negb (is_string name) || (100 <? length (string_of name))%nat
  then Normal (inr tt)
  else if negb (is_number quantity) || lt (number_of quantity) (of_Z 1)
          || gt (number_of quantity) (of_Z 99)
  then Normal (inr tt)
  else if negb (is_number price) || le (number_of price) (of_Z 0)
          || gt (number_of price) (of_Z 1000)
  then Normal (inr tt)
  else
    let item := set item "name" (JStr (sanitizeText name)) in
    bind (get item "emoji") (fun emoji =>
    if truthy emoji
    then Normal (inl (set item "emoji" (JStr (sanitizeText emoji))))
    else Normal (inl item)))))).

(** The [for ... of] loop; returns the answer and the array contents as the
    loop leaves them. *)
Fixpoint validate_loop (items : list jsval) : completion (bool * list jsval) :=
  match items with
  | [] => Normal (true, [])
  | item :: rest =>
      bind (validate_item item) (fun r =>
      match r with
      | inr _ => Normal (false, item :: rest)
      | inl item' =>
          bind (validate_loop rest) (fun '(ok, rest') => Normal (ok, item' :: rest'))
      end)
  end.

Definition validateOrderItems (items : jsval) : completion (bool * jsval) :=
  match items with
  | JArr elems =>
      if (length elems =? 0)%nat || (20 <? length elems)%nat
      then Normal (false, items)
      else bind (validate_loop elems) (fun '(ok, elems') => Normal (ok, JArr elems'))
  | _ => Normal (false, items)
  end.

(** *** validateTotalAmount *)

(** [items.reduce((sum, item) => sum + item.price * item.quantity, 0)] *)
Fixpoint calculatedTotal (sum : num) (items : list jsval) : completion num :=
  match items with
  | [] => Normal sum
  | item :: rest =>
      bind (get item "price") (fun price =>
      bind (get item "quantity") (fun quantity =>
      calculatedTotal (add sum (js_mul price quantity)) rest))
  end.

Definition validateTotalAmount (items : jsval) (totalAmount : num) : completion bool :=
  match items with
  | JArr elems =>
      bind (calculatedTotal (of_Z 0) elems) (fun total =>
      Normal (lt (abs (sub total totalAmount)) (Fin (1 # 100))))
  | _ => Throws
  end.

(** *** sanitizeOrderNumber, sanitizeVerificationNumber *)

(** [input.replace(/[^0-9]/g, '')] *)
Definition digits_only (input : jsstring) : jsstring :=
  List.filter (fun c => (48 <=? c) && (c <=? 57)) input.

(** [input] is a string or null ([None]); the result is a number or null. *)
Definition sanitizeOrderNumber (input : option jsstring) : option Z :=
  match input with
  | None | Some [] => None
  | Some input =>
      let cleaned := digits_only input in
      match parseInt10_Z cleaned with
      | None => None
      | Some parsed =>
          if (parsed <? 1) || (999999 <? parsed) then None else Some parsed
      end
  end.

Definition sanitizeVerificationNumber (input : option jsstring) : option Z :=
  match input with
  | None | Some [] => None
  | Some input =>
      let cleaned := digits_only input in
      match parseInt10_Z cleaned with
      | None => None
      | Some parsed =>
          if negb (length cleaned =? 5)%nat || (parsed <? 10000) || (99999 <? parsed)
          then None else Some parsed
      end
  end.

(** *** generateSecureToken *)

(** [array] is the content of the [Uint8Array(32)] once it is filled, by
    [crypto.getRandomValues] or by [Math.random]: 32 bytes chosen by the
    environment.  Each byte is rendered by two hexadecimal digits. *)
Definition generateSecureToken (array : list Z) : jsstring :=
  flat_map (fun byte => padStart 2 48 (toString_radix 16 byte)) array.

(** *** validateCustomerSession *)

(** The class [[a-z0-9]]. *)
Definition lower_alnum (c : Z) : bool :=
  ((97 <=? c) && (c <=? 122)) || ((48 <=? c) && (c <=? 57)).

(** Longest prefix of [s] in the class, and what follows. *)
Fixpoint span_lower_alnum (s : jsstring) : jsstring * jsstring :=
  match s with
  | c :: s' =>
      if lower_alnum c
      then let '(run, rest) := span_lower_alnum s' in (c :: run, rest)
      else ([], s)
  | [] => ([], [])
  end.

(** [/^customer_[a-z0-9]{8,}_[a-z0-9]{9,}$/.test(s)].  The class excludes
    the underscore, so each repetition can only match a whole run. *)
Definition session_pattern (s : jsstring) : bool :=
  starts_with (lit "customer_") s
  && let '(stamp, rest) := span_lower_alnum (drop 9 s) in
     (8 <=? length stamp)%nat
     && match rest with
        | c :: rest' =>
            (c =? 95)
            && let '(random, tail) := span_lower_alnum rest' in
               (9 <=? length random)%nat
               && match tail with [] => true | _ => false end
        | [] => false
        end.

Definition validateCustomerSession (session : jsval) : bool :=
  match session with
  | JStr s => session_pattern s && (25 <=? length s)%nat && (length s <=? 50)%nat
  | _ => false
  end.

End SecurityManager.

(** ** generateCustomerSession (supabase-secure) *)

Module SupabaseSecure.

Import JsParse SecurityManager.

(** [now] is [Date.now()], [array] the random bytes of the token. *)
Definition generateCustomerSession (now : Z) (array : list Z) : jsstring :=
  let timestamp := toString_radix 36 now in
  let random := take 16 (generateSecureToken array) in
  lit "customer_" ++ timestamp ++ lit "_" ++ random.

End SupabaseSecure.

(** ** src/lib/trackingSystem.ts: TrackingSystem *)

Module TrackingSystem.

Inductive OrderStatus : Type := waiting | preparing | ready | completed.

(** Timestamps ([new Date().toISOString()]) are modelled by the clock value
    they render, in milliseconds. *)
Record TrackingData : Type := {
  orderNumber : Z;
  verificationNumber : Z;
  status : OrderStatus;
  timestamp : Z;
  lastUpdated : Z
}.

(** A callback is a function object; the tracking system only compares
    callbacks by reference ([indexOf]) and calls them, so a callback is
    modelled by a name standing for its reference. *)
Definition callback := nat.

(** What a call of a subscriber does is outside the tracking system; each
    call is recorded.  In this module a subscriber is taken to return
    without calling into the tracking system (like the state setters that
    the tracking page subscribes), and localStorage to take every write;
    [Notifications] below has subscribers that react and writes that are
    refused, and section NotificationRefinement relates the two. *)
Inductive invocation : Type :=
| OrderCallback (cb : callback) (s : OrderStatus)
| CurrentOrderCallback (cb : callback) (orderNumber : option Z).

(** The two localStorage entries written by saveToStorage. *)
Record storage : Type := {
  cafeOrderTracking : option (gmap Z TrackingData);
  cafeCurrentOrderPreparing : option Z
}.

Record state : Type := {
  statusUpdates : gmap Z TrackingData;
  subscribers : gmap Z (list callback);
  currentOrderBeingPrepared : option Z;
  currentOrderSubscribers : list callback;
  (** the environment: whether [window] exists, and its localStorage *)
  has_window : bool;
  localStorage : storage;
  (** every subscriber call made so far, oldest first *)
  calls : list invocation
}.

Definition with_statusUpdates (m : gmap Z TrackingData) (s : state) : state :=
  {| statusUpdates := m; subscribers := subscribers s;
     currentOrderBeingPrepared := currentOrderBeingPrepared s;
     currentOrderSubscribers := currentOrderSubscribers s;
     has_window := has_window s; localStorage := localStorage s;
     calls := calls s |}.

Definition with_subscribers (m : gmap Z (list callback)) (s : state) : state :=
  {| statusUpdates := statusUpdates s; subscribers := m;
     currentOrderBeingPrepared := currentOrderBeingPrepared s;
     currentOrderSubscribers := currentOrderSubscribers s;
     has_window := has_window s; localStorage := localStorage s;
     calls := calls s |}.

Definition with_currentOrder (o : option Z) (s : state) : state :=
  {| statusUpdates := statusUpdates s; subscribers := subscribers s;
     currentOrderBeingPrepared := o;
     currentOrderSubscribers := currentOrderSubscribers s;
     has_window := has_window s; localStorage := localStorage s;
     calls := calls s |}.

Definition with_currentOrderSubscribers (l : list callback) (s : state) : state :=
  {| statusUpdates := statusUpdates s; subscribers := subscribers s;
     currentOrderBeingPrepared := currentOrderBeingPrepared s;
     currentOrderSubscribers := l;
     has_window := has_window s; localStorage := localStorage s;
     calls := calls s |}.

Definition with_localStorage (st : storage) (s : state) : state :=
  {| statusUpdates := statusUpdates s; subscribers := subscribers s;
     currentOrderBeingPrepared := currentOrderBeingPrepared s;
     currentOrderSubscribers := currentOrderSubscribers s;
     has_window := has_window s; localStorage := st;
     calls := calls s |}.

Definition record_calls (l : list invocation) (s : state) : state :=
  {| statusUpdates := statusUpdates s; subscribers := subscribers s;
     currentOrderBeingPrepared := currentOrderBeingPrepared s;
     currentOrderSubscribers := currentOrderSubscribers s;
     has_window := has_window s; localStorage := localStorage s;
     calls := calls s ++ l |}.

(** The constructor: empty maps, then loadFromStorage. *)
Definition new (window : bool) (stored : storage) : state :=
  {| statusUpdates :=
       if window then default ∅ (cafeOrderTracking stored) else ∅;
     subscribers := ∅;
     currentOrderBeingPrepared :=
       if window then cafeCurrentOrderPreparing stored else None;
     currentOrderSubscribers := [];
     has_window := window; localStorage := stored; calls := [] |}.

Definition saveToStorage (s : state) : state :=
  if has_window s then
    with_localStorage
      {| cafeOrderTracking := Some (statusUpdates s);
         cafeCurrentOrderPreparing := currentOrderBeingPrepared s |} s
  else s.

Definition initializeOrder (now : Z) (orderNumber verificationNumber : Z) (s : state)
  : state :=
  let trackingData :=
    {| orderNumber := orderNumber; verificationNumber := verificationNumber;
       status := waiting; timestamp := now; lastUpdated := now |} in
  saveToStorage (with_statusUpdates (<[orderNumber := trackingData]> (statusUpdates s)) s).

Definition updateOrderStatus (now : Z) (orderNumber : Z) (newStatus : OrderStatus)
    (s : state) : state :=
  match statusUpdates s !! orderNumber with
  | Some existing =>
      let updated :=
        {| orderNumber := TrackingSystem.orderNumber existing;
           verificationNumber := verificationNumber existing;
           status := newStatus;
           timestamp := timestamp existing;
           lastUpdated := now |} in
      let s := saveToStorage
                 (with_statusUpdates (<[orderNumber := updated]> (statusUpdates s)) s) in
      let orderSubscribers := default [] (subscribers s !! orderNumber) in
      record_calls (map (fun cb => OrderCallback cb newStatus) orderSubscribers) s
  | None => s
  end.

Definition getOrderTracking (orderNumber : Z) (s : state) : option TrackingData :=
  statusUpdates s !! orderNumber.

(** [push] on the array of the order, created when missing. *)
Definition subscribeToOrder (orderNumber : Z) (cb : callback) (s : state) : state :=
  let m := match subscribers s !! orderNumber with
           | Some _ => subscribers s
           | None => <[orderNumber := []]> (subscribers s)
           end in
  with_subscribers (<[orderNumber := default [] (m !! orderNumber) ++ [cb]]> m) s.

(** [indexOf] followed by [splice(index, 1)]: the first occurrence goes. *)
Fixpoint remove_first (cb : callback) (l : list callback) : list callback :=
  match l with
  | [] => []
  | x :: l' => if Nat.eqb x cb then l' else x :: remove_first cb l'
  end.

(** The function returned by [subscribeToOrder orderNumber cb]. *)
Definition unsubscribe (orderNumber : Z) (cb : callback) (s : state) : state :=
  match subscribers s !! orderNumber with
  | Some orderSubscribers =>
      with_subscribers (<[orderNumber := remove_first cb orderSubscribers]> (subscribers s)) s
  | None => s
  end.

Definition simulateStatusUpdate (now : Z) (orderNumber : Z) (s : state) : state :=
  match getOrderTracking orderNumber s with
  | Some current =>
      let nextStatus :=
        match status current with
        | waiting => preparing
        | preparing => ready
        | _ => ready
        end in
      updateOrderStatus now orderNumber nextStatus s
  | None => s
  end.

Definition setCurrentOrderBeingPrepared (orderNumber : option Z) (s : state) : state :=
  let s := saveToStorage (with_currentOrder orderNumber s) in
  record_calls (map (fun cb => CurrentOrderCallback cb orderNumber)
                    (currentOrderSubscribers s)) s.

Definition getCurrentOrderBeingPrepared (s : state) : option Z :=
  currentOrderBeingPrepared s.

Definition subscribeToCurrentOrder (cb : callback) (s : state) : state :=
  with_currentOrderSubscribers (currentOrderSubscribers s ++ [cb]) s.

(** The function returned by [subscribeToCurrentOrder cb]. *)
Definition unsubscribeCurrent (cb : callback) (s : state) : state :=
  with_currentOrderSubscribers (remove_first cb (currentOrderSubscribers s)) s.

Definition resetSystem (s : state) : state :=
  saveToStorage
    (with_currentOrderSubscribers []
       (with_currentOrder None (with_subscribers ∅ (with_statusUpdates ∅ s)))).

(** A use of the tracking system by the rest of the application. *)
Inductive op : Type :=
| InitializeOrder (now orderNumber verificationNumber : Z)
| UpdateOrderStatus (now orderNumber : Z) (newStatus : OrderStatus)
| SubscribeToOrder (orderNumber : Z) (cb : callback)
| Unsubscribe (orderNumber : Z) (cb : callback)
| SimulateStatusUpdate (now orderNumber : Z)
| SetCurrentOrderBeingPrepared (orderNumber : option Z)
| SubscribeToCurrentOrder (cb : callback)
| UnsubscribeCurrent (cb : callback)
| ResetSystem.

Definition step (s : state) (o : op) : state :=
  match o with
  | InitializeOrder now n v => initializeOrder now n v s
  | UpdateOrderStatus now n st => updateOrderStatus now n st s
  | SubscribeToOrder n cb => subscribeToOrder n cb s
  | Unsubscribe n cb => unsubscribe n cb s
  | SimulateStatusUpdate now n => simulateStatusUpdate now n s
  | SetCurrentOrderBeingPrepared n => setCurrentOrderBeingPrepared n s
  | SubscribeToCurrentOrder cb => subscribeToCurrentOrder cb s
  | UnsubscribeCurrent cb => unsubscribeCurrent cb s
  | ResetSystem => resetSystem s
  end.

Definition run (s : state) (ops : list op) : state := fold_left step ops s.

(** The operation registers [cb] as a subscriber of some order. *)
Definition subscribes (cb : callback) (o : op) : bool :=
  match o with
  | SubscribeToOrder _ cb' => Nat.eqb cb' cb
  | _ => false
  end.

(** [cb] is in no order's subscriber array. *)
Definition unregistered (cb : callback) (s : state) : Prop :=
  ∀ n l, subscribers s !! n = Some l → cb ∉ l.

(** The statuses with which [cb] was called as an order subscriber. *)
Definition order_calls_of (cb : callback) (l : list invocation) : list OrderStatus :=
  omap (fun i => match i with
                 | OrderCallback cb' st => if Nat.eqb cb' cb then Some st else None
                 | CurrentOrderCallback _ _ => None
                 end) l.

(** How many times [cb] occurs in a subscriber array. *)
Definition occurrences (cb : callback) (l : list callback) : nat :=
  length (List.filter (Nat.eqb cb) l).

(** [cb] occurs at most [bound n] times in the subscriber array of each
    order [n]. *)
Definition registered_at_most (cb : callback) (bound : Z → nat) (s : state) : Prop :=
  ∀ n l, subscribers s !! n = Some l → (occurrences cb l <= bound n)%nat.

End TrackingSystem.

(** ** The managed database, as the handlers use it *)

Module Database.

Import JsNumber JsParse JsValue.

(** A row of the [orders] table. *)
Record Order : Type := {
  id : jsstring;
  order_number : Z;
  verification_number : Z;
  status : jsstring;
  total_amount : num;
  created_at : Z;
  updated_at : option Z;
  completed_at : option Z
}.

(** A row of the [order_items] table; the columns filled from the request
    body hold whatever JavaScript value the handler computed. *)
Record OrderItem : Type := {
  order_id : Z;
  menu_item_id : jsval;
  base_name : jsval;
  size_code : jsstring;
  protein : jsval;
  quantity : num;
  unit_price : num;
  item_total_amount : num
}.

(** Modelled from the spec: the table definitions are not part of the
    sources.  The spec describes the order number as a sequential,
    customer-facing identifier that the database assigns ("sequential order
    number (display identity)"); [next_order_number] is that sequence. *)
Record store : Type := {
  orders : list Order;
  order_items : list OrderItem;
  next_order_number : Z
}.

(** Whether the backend performs a request or reports an error
    (connectivity, constraint violation); decided by the environment. *)
Inductive backend : Type :=
| Performs
| Fails (message : jsstring).

(** The result [{ data, error }] of a request that returns rows. *)
Inductive reply (A : Type) : Type :=
| Data (a : A)
| Error (message : jsstring).
Arguments Data {A} a.
Arguments Error {A} message.

(** The values the database generates for a new order row. *)
Record generated : Type := {
  gen_id : jsstring;
  gen_created_at : Z
}.

(** Every stored order number was drawn from the sequence, once. *)
Definition well_formed (db : store) : Prop :=
  NoDup (map order_number (orders db))
  ∧ Forall (fun o => order_number o < next_order_number db) (orders db).

Definition with_orders (l : list Order) (db : store) : store :=
  {| orders := l; order_items := order_items db;
     next_order_number := next_order_number db |}.

Definition set_status (s : jsstring) (updated completed : option Z) (o : Order) : Order :=
  {| id := id o; order_number := order_number o;
     verification_number := verification_number o;
     status := s; total_amount := total_amount o; created_at := created_at o;
     updated_at := match updated with Some t => Some t | None => updated_at o end;
     completed_at := match completed with Some t => Some t | None => completed_at o end |}.

(** [.single()]: exactly one row, or an error. *)
Definition single {A} (rows : list A) : reply A :=
  match rows with
  | [r] => Data r
  | _ => Error (lit "JSON object requested, multiple (or no) rows returned")
  end.

(** [from('orders').insert([{ verification_number, total_amount, status }])
    .select().single()] *)
Definition insert_order (b : backend) (g : generated)
    (verification : Z) (total : num) (s : jsstring) (db : store)
  : reply Order * store :=
  match b with
  | Fails m => (Error m, db)
  | Performs =>
      let row := {| id := gen_id g; order_number := next_order_number db;
                    verification_number := verification; status := s;
                    total_amount := total; created_at := gen_created_at g;
                    updated_at := None; completed_at := None |} in
      (Data row,
       {| orders := orders db ++ [row]; order_items := order_items db;
          next_order_number := next_order_number db + 1 |})
  end.

(** [from('order_items').insert(rows)]; returns the error, if any. *)
Definition insert_order_items (b : backend) (rows : list OrderItem) (db : store)
  : option jsstring * store :=
  match b with
  | Fails m => (Some m, db)
  | Performs =>
      (None, {| orders := orders db; order_items := order_items db ++ rows;
                next_order_number := next_order_number db |})
  end.

(** An integer column compared with a JavaScript number. *)
Definition int_eq (column : Z) (v : num) : bool := JsNumber.eqb (of_Z column) v.

(** [from('orders').select('*').eq('order_number', n)
    .eq('verification_number', v).single()] *)
Definition select_order (b : backend) (n v : num) (db : store) : reply Order :=
  match b with
  | Fails m => Error m
  | Performs =>
      single (List.filter (fun o => int_eq (order_number o) n
                                    && int_eq (verification_number o) v) (orders db))
  end.

(** [from('order_items').select('*').eq('order_id', key)] with the [id] of
    an order as key: the integer column matches a key that is its decimal
    rendering. *)
Definition select_items_by_id (b : backend) (key : jsstring) (db : store)
  : reply (list OrderItem) :=
  match b with
  | Fails m => Error m
  | Performs =>
      Data (List.filter (fun i => JsString.eqb (toString_radix 10 (order_id i)) key)
                        (order_items db))
  end.

(** [from('order_items').select('*').in('order_id', numbers)] *)
Definition select_items_in (b : backend) (numbers : list Z) (db : store)
  : reply (list OrderItem) :=
  match b with
  | Fails m => Error m
  | Performs =>
      Data (List.filter (fun i => existsb (Z.eqb (order_id i)) numbers) (order_items db))
  end.

(** Insertion of a row in a list ordered by [created_at], newest first. *)
Fixpoint insert_newest_first (o : Order) (l : list Order) : list Order :=
  match l with
  | [] => [o]
  | x :: l' =>
      if created_at x <? created_at o then o :: l
      else x :: insert_newest_first o l'
  end.

(** [.order('created_at', { ascending: false })] *)
Definition order_by_created_at_desc (l : list Order) : list Order :=
  fold_right insert_newest_first [] l.

(** [from('orders').select('*').neq('status', s)
    .order('created_at', { ascending: false })] *)
Definition select_orders_neq_status (b : backend) (s : jsstring) (db : store)
  : reply (list Order) :=
  match b with
  | Fails m => Error m
  | Performs =>
      Data (order_by_created_at_desc
              (List.filter (fun o => negb (JsString.eqb (status o) s)) (orders db)))
  end.

(** [from('orders').update({ status, updated_at }).eq('order_number', n)]:
    every matching row is updated; no row is not an error. *)
Definition update_status_by_number (b : backend) (n : Z) (s : jsstring) (now : Z)
    (db : store) : option jsstring * store :=
  match b with
  | Fails m => (Some m, db)
  | Performs =>
      (None,
       with_orders
         (map (fun o => if order_number o =? n then set_status s (Some now) None o else o)
              (orders db)) db)
  end.

(** The [id] column compared with the value sent in a request body. *)
Definition id_eq (column : jsstring) (v : jsval) : bool :=
  match v with
  | JStr s => JsString.eqb column s
  | JNum (Fin q) =>
      Qeq_bool q (inject_Z (Qfloor q))
      && JsString.eqb column (toString_radix 10 (Qfloor q))
  | _ => false
  end.

(** [from('orders').update(updateData).eq('id', order_id).select().single()]:
    the update is kept only if it touches exactly one row. *)
Definition update_status_by_id (b : backend) (order_id : jsval) (s : jsstring)
    (completed : option Z) (db : store) : reply Order * store :=
  match b with
  | Fails m => (Error m, db)
  | Performs =>
      match single (List.filter (fun o => id_eq (id o) order_id) (orders db)) with
      | Data _ =>
          let upd o := if id_eq (id o) order_id then set_status s None completed o else o in
          (single (map upd (List.filter (fun o => id_eq (id o) order_id) (orders db))),
           with_orders (map upd (orders db)) db)
      | Error m => (Error m, db)
      end
  end.

(** [from('orders').select('*').order('created_at', { ascending: false })] *)
Definition select_orders_all (b : backend) (db : store) : reply (list Order) :=
  match b with
  | Fails m => Error m
  | Performs => Data (order_by_created_at_desc (orders db))
  end.

End Database.

(** ** HTTP responses of the route handlers *)

Module Http.

Import Database.

Inductive body : Type :=
| ErrorBody (error : jsstring)                           (* { error } *)
| OrderCreated (order : Order)                          (* { order } *)
| OrderTracked (order : Order) (items : list OrderItem) (* { order: { ...order, items } } *)
| OrderUpdated (order : Order).                         (* { success: true, order } *)

Record response : Type := {
  status_code : Z;
  json : body
}.

Definition error (code : Z) (message : jsstring) : response :=
  {| status_code := code; json := ErrorBody message |}.

Definition ok (b : body) : response := {| status_code := 200; json := b |}.

Definition internal_server_error : response := error 500 (lit "Internal server error").
Definition database_connection_failed : response :=
  error 500 (lit "Database connection failed").

(** HTTP whitespace: tab, line feed, carriage return and space. *)
Definition http_whitespace (c : Z) : bool :=
  (c =? 9) || (c =? 10) || (c =? 13) || (c =? 32).

Fixpoint strip_start (value : jsstring) : jsstring :=
  match value with
  | c :: value' => if http_whitespace c then strip_start value' else value
  | [] => []
  end.

(** A header value is normalised when it is stored in a [Headers] object:
    leading and trailing HTTP whitespace is removed. *)
Definition normalize (value : jsstring) : jsstring :=
  rev (strip_start (rev (strip_start value))).

(** [request.headers.get(name)]; [sent] is the value of the header as the
    client sent it, [None] when the request has no such header. *)
Definition headers_get (sent : option jsstring) : option jsstring :=
  normalize <$> sent.

End Http.

(** ** src/app/api/orders/route.ts: POST /api/orders *)

Module OrdersRoute.

Import JsNumber JsParse JsValue Database Http.

(** What the environment decides during one POST: the draw of
    [Math.random()], and how the backend answers the two inserts. *)
Record environment : Type := {
  random : Q;
  order_insert : backend;
  order_generated : generated;
  items_insert : backend
}.

(** [Math.floor(1000 + Math.random() * 9000)] *)
Definition verificationNumber (random : Q) : Z :=
  Qfloor (Qplus (inject_Z 1000) (Qmult random (inject_Z 9000))).

(** The parsing of the display name: [baseName.includes(...)] and
    [baseName.replace(...)].  Returns [baseName] and [sizeCode].  A truthy
    value that is not a string has no [includes] method, except an array,
    which has no [replace] method. *)
Definition split_name (baseName : jsval) : completion (jsval * jsstring) :=
  match baseName with
  | JStr s =>
      if includes s (lit "Regular")
      then Normal (JStr (replace s (lit " Regular") []), lit "R")
      else if includes s (lit "Large")
      then Normal (JStr (replace s (lit " Large") []), lit "L")
      else Normal (JStr s, [])
  | JArr elems =>
      if existsb (same_value_zero (JStr (lit "Regular"))) elems then Throws
      else if existsb (same_value_zero (JStr (lit "Large"))) elems then Throws
      else Normal (baseName, [])
  | _ => Throws
  end.

(** The callback of [items.map]. *)
Definition order_item (order : Order) (item : jsval) : completion OrderItem :=
  bind (get item "price") (fun price =>
  bind (get item "quantity") (fun quantity =>
  let unitPrice := parseFloat price in
  let quantity := parseInt quantity in
  let totalAmount := mul unitPrice quantity in
  bind (get item "name") (fun name =>
  bind (get item "base_name") (fun base_name =>
  let baseName := or_else (or_else name base_name) (JStr (lit "Unknown Item")) in
  bind (get item "variant") (fun variant =>
  bind (get item "protein") (fun item_protein =>
  let protein := or_else (or_else variant item_protein) (JStr (lit "Standard")) in
  bind (split_name baseName) (fun '(baseName, sizeCode) =>
  bind (get item "menu_item_id") (fun item_menu_item_id =>
  bind (get item "id") (fun item_id =>
  Normal {| order_id := order_number order;
            menu_item_id := or_else item_menu_item_id item_id;
            base_name := baseName;
            size_code := sizeCode;
            protein := protein;
            quantity := quantity;
            unit_price := unitPrice;
            item_total_amount := totalAmount |}))))))))).

Fixpoint map_items (order : Order) (items : list jsval) : completion (list OrderItem) :=
  match items with
  | [] => Normal []
  | item :: rest =>
      bind (order_item order item) (fun row =>
      bind (map_items order rest) (fun rows => Normal (row :: rows)))
  end.

(** [items.map(...)]: only an array has the method. *)
Definition orderItems (order : Order) (items : jsval) : completion (list OrderItem) :=
  match items with
  | JArr elems => map_items order elems
  | _ => Throws
  end.

(** The body of the handler once the client exists.  [request_json] is the
    outcome of [await request.json()].  Whatever throws inside the [try]
    block is answered by "Internal server error"; rows inserted before
    stay. *)
Definition POST_configured (env : environment) (request_json : completion jsval)
    (db : store) : response * store :=
  match bind request_json (fun body =>
        bind (get body "items") (fun items =>
        bind (get body "totalAmount") (fun totalAmount =>
        Normal (items, totalAmount)))) with
  | Throws => (internal_server_error, db)
  | Normal (items, totalAmount) =>
      let verificationNumber := verificationNumber (random env) in
      match insert_order (order_insert env) (order_generated env)
              verificationNumber (parseFloat totalAmount) (lit "pending") db with
      | (Error orderError, db) => (error 500 orderError, db)
      | (Data order, db) =>
          match orderItems order items with
          | Throws => (internal_server_error, db)
          | Normal rows =>
              match insert_order_items (items_insert env) rows db with
              | (Some itemsError, db) => (error 500 itemsError, db)
              | (None, db) => (ok (OrderCreated order), db)
              end
          end
      end
  end.

(** [supabase] is null when the client is not configured. *)
Definition POST (env : environment) (request_json : completion jsval)
    (supabase : option store) : response * option store :=
  match supabase with
  | None => (database_connection_failed, None)
  | Some db => let '(r, db') := POST_configured env request_json db in (r, Some db')
  end.

(** *** GET /api/orders *)

(** The answer of GET /api/orders: [{ orders }] or [{ error }], with the
    status code. *)
Inductive orders_response : Type :=
| OrdersListed (orders : list Order)
| OrdersError (code : Z) (error : jsstring).

Definition bearer (authorization : option jsstring) : bool :=
  match authorization with
  | None | Some [] => false
  | Some authHeader => starts_with (lit "Bearer ") authHeader
  end.

(** [authorization] is the authorization header as the client sent it,
    [None] when absent; the handler sees it through [request.headers.get]. *)
Definition GET (b : backend) (authorization : option jsstring) (supabase : option store)
  : orders_response * option store :=
  if negb (bearer (headers_get authorization))
  then (OrdersError 401 (lit "Unauthorized - Authentication required"), supabase)
  else
    match supabase with
    | None => (OrdersError 500 (lit "Database connection failed"), None)
    | Some db =>
        match select_orders_all b db with
        | Error m => (OrdersError 500 m, Some db)
        | Data orders => (OrdersListed orders, Some db)
        end
    end.

End OrdersRoute.

(** ** src/app/api/order-tracking/route.ts: GET and PUT /api/order-tracking *)

Module OrderTrackingRoute.

Import JsNumber JsParse JsValue Database Http.

(** How the backend answers the two queries of one GET. *)
Record get_environment : Type := {
  order_select : backend;
  items_select : backend
}.

Definition not_found : response :=
  error 404 (lit "Order not found. Please check your order number and verification code.").

Definition params_required : response :=
  error 400 (lit "Both order_number and verification_number are required").

(** [!param]: the parameter is absent or empty. *)
Definition missing (param : option jsstring) : bool :=
  match param with
  | None | Some [] => true
  | Some _ => false
  end.

(** [orderNumber] and [verificationNumber] are the results of
    [searchParams.get]; [None] is null. *)
Definition GET_configured (env : get_environment)
    (orderNumber verificationNumber : option jsstring) (db : store)
  : response * store :=
  if missing orderNumber || missing verificationNumber then (params_required, db)
  else
    match select_order (order_select env)
            (parseInt_string (default [] orderNumber))
            (parseInt_string (default [] verificationNumber)) db with
    | Error _ => (not_found, db)
    | Data order =>
        let orderItems :=
          match select_items_by_id (items_select env) (id order) db with
          | Data rows => rows
          | Error _ => []
          end in
        (ok (OrderTracked order orderItems), db)
    end.

Definition GET (env : get_environment)
    (orderNumber verificationNumber : option jsstring) (supabase : option store)
  : response * option store :=
  match supabase with
  | None => (database_connection_failed, None)
  | Some db =>
      let '(r, db') := GET_configured env orderNumber verificationNumber db in
      (r, Some db')
  end.

(** What the environment decides during one PUT: the clock read for
    [completed_at] and the backend's answer. *)
Record put_environment : Type := {
  now : Z;
  order_update : backend
}.

Definition validStatuses : list jsstring :=
  [lit "preparing"; lit "ready"; lit "completed"; lit "cancelled"].

Definition unauthorized : response :=
  error 401 (lit "Unauthorized - Admin access required to update order status").

Definition invalid_status : response :=
  error 400 (lit "Invalid status. Must be one of: preparing, ready, completed, cancelled").

(** [validStatuses.includes(status)] *)
Definition valid_status (status : jsval) : option jsstring :=
  match status with
  | JStr s => if existsb (JsString.eqb s) validStatuses then Some s else None
  | _ => None
  end.

Definition PUT_configured (env : put_environment) (request_json : completion jsval)
    (db : store) : response * store :=
  match bind request_json (fun body =>
        bind (get body "order_id") (fun order_id =>
        bind (get body "status") (fun status =>
        Normal (order_id, status)))) with
  | Throws => (internal_server_error, db)
  | Normal (order_id, status) =>
      match valid_status status with
      | None => (invalid_status, db)
      | Some status =>
          let completed_at :=
            if JsString.eqb status (lit "completed") then Some (now env) else None in
          match update_status_by_id (order_update env) order_id status completed_at db with
          | (Error m, db) => (error 500 m, db)
          | (Data order, db) => (ok (OrderUpdated order), db)
          end
      end
  end.

(** [authorization] is the request header, [None] when absent. *)
Definition PUT (env : put_environment) (authorization : option jsstring)
    (request_json : completion jsval) (supabase : option store)
  : response * option store :=
  match authorization with
  | None | Some [] => (unauthorized, supabase)
  | Some authHeader =>
      if negb (starts_with (lit "Bearer ") authHeader) then (unauthorized, supabase)
      else
        match supabase with
        | None => (database_connection_failed, None)
        | Some db => let '(r, db') := PUT_configured env request_json db in (r, Some db')
        end
  end.

End OrderTrackingRoute.

(** ** The staff dashboard: OrdersManagement (loadOrders, updateOrderStatus) *)

Module OrdersManagement.

Import JsNumber JsValue Database.

(** The React state of the component.  The objects keyed by the rendering
    of an order number are modelled as maps keyed by the number; the
    messages shown by [alert] are collected in [alerts]. *)
Record ui : Type := {
  orders : list Order;
  orderItems : gmap Z (list OrderItem);
  isLoading : bool;
  updatingOrders : gset Z;
  selectedStatuses : gmap Z jsstring;
  alerts : list jsstring
}.

Definition initial : ui :=
  {| orders := []; orderItems := ∅; isLoading := true; updatingOrders := ∅;
     selectedStatuses := ∅; alerts := [] |}.

Definition setOrders (l : list Order) (u : ui) : ui :=
  {| orders := l; orderItems := orderItems u; isLoading := isLoading u;
     updatingOrders := updatingOrders u; selectedStatuses := selectedStatuses u;
     alerts := alerts u |}.

Definition setOrderItems (m : gmap Z (list OrderItem)) (u : ui) : ui :=
  {| orders := orders u; orderItems := m; isLoading := isLoading u;
     updatingOrders := updatingOrders u; selectedStatuses := selectedStatuses u;
     alerts := alerts u |}.

Definition setIsLoading (b : bool) (u : ui) : ui :=
  {| orders := orders u; orderItems := orderItems u; isLoading := b;
     updatingOrders := updatingOrders u; selectedStatuses := selectedStatuses u;
     alerts := alerts u |}.

Definition setUpdatingOrders (s : gset Z) (u : ui) : ui :=
  {| orders := orders u; orderItems := orderItems u; isLoading := isLoading u;
     updatingOrders := s; selectedStatuses := selectedStatuses u;
     alerts := alerts u |}.

Definition setSelectedStatuses (m : gmap Z jsstring) (u : ui) : ui :=
  {| orders := orders u; orderItems := orderItems u; isLoading := isLoading u;
     updatingOrders := updatingOrders u; selectedStatuses := m;
     alerts := alerts u |}.

Definition alert (message : jsstring) (u : ui) : ui :=
  {| orders := orders u; orderItems := orderItems u; isLoading := isLoading u;
     updatingOrders := updatingOrders u; selectedStatuses := selectedStatuses u;
     alerts := alerts u ++ [message] |}.

(** How the backend answers the two queries of loadOrders. *)
Record load_environment : Type := {
  orders_select : backend;
  items_select : backend
}.

(** The query of loadOrders: active orders only, newest first. *)
Definition active_orders (b : backend) (db : store) : reply (list Order) :=
  select_orders_neq_status b (lit "completed") db.

(** [itemsData.reduce(...)]: items grouped by order, in query order. *)
Definition group_items (itemsData : list OrderItem) : gmap Z (list OrderItem) :=
  fold_left (fun acc item =>
               <[order_id item := default [] (acc !! order_id item) ++ [item]]> acc)
            itemsData ∅.

Definition status_map (ordersData : list Order) : gmap Z jsstring :=
  fold_left (fun m order => <[order_number order := status order]> m) ordersData ∅.

Definition loadOrders_configured (env : load_environment) (db : store) (u : ui)
  : ui * store :=
  match active_orders (orders_select env) db with
  | Error _ => (setIsLoading false u, db)
  | Data ordersData =>
      let u := setOrders ordersData u in
      let u := setSelectedStatuses (status_map ordersData) u in
      let u :=
        match ordersData with
        | [] => u
        | _ =>
            let orderNumbers := map order_number ordersData in
            match select_items_in (items_select env) orderNumbers db with
            | Data itemsData => setOrderItems (group_items itemsData) u
            | Error _ => u
            end
        end in
      (setIsLoading false u, db)
  end.

Definition loadOrders (env : load_environment) (supabase : option store) (u : ui)
  : ui * option store :=
  match supabase with
  | None => (setIsLoading false u, None)
  | Some db => let '(u, db) := loadOrders_configured env db u in (u, Some db)
  end.

(** What the environment decides during one updateOrderStatus: the clock
    read for [updated_at], the backend's answer to the update, and its
    answers to the reload that follows. *)
Record update_environment : Type := {
  now : Z;
  order_update : backend;
  reload : load_environment
}.

(** The status written by updateOrderStatus. *)
Definition finalStatus (newStatus : jsstring) : jsstring :=
  if JsString.eqb newStatus (lit "collected") then lit "completed" else newStatus.

(** The reload started (and not awaited) after a successful update is run
    to its end before the [finally] block; the two touch different parts
    of the state. *)
Definition updateOrderStatus_configured (env : update_environment)
    (orderNumber : Z) (newStatus : jsstring) (db : store) (u : ui) : ui * store :=
  let u := setUpdatingOrders ({[orderNumber]} ∪ updatingOrders u) u in
  let '(u, db) :=
    match update_status_by_number (order_update env) orderNumber
            (finalStatus newStatus) (now env) db with
    | (Some _, db) => (alert (lit "Failed to update order status") u, db)
    | (None, db) =>
        if JsString.eqb newStatus (lit "collected") then
          let u := setOrders
                     (List.filter (fun o => negb (order_number o =? orderNumber)) (orders u))
                     u in
          (setSelectedStatuses (delete orderNumber (selectedStatuses u)) u, db)
        else loadOrders_configured (reload env) db u
    end in
  (setUpdatingOrders (updatingOrders u ∖ {[orderNumber]}) u, db).

Definition updateOrderStatus (env : update_environment)
    (orderNumber : Z) (newStatus : jsstring) (supabase : option store) (u : ui)
  : ui * option store :=
  match supabase with
  | None => (u, None)
  | Some db =>
      let '(u, db) := updateOrderStatus_configured env orderNumber newStatus db u in
      (u, Some db)
  end.

End OrdersManagement.

(** ** OrderSystem (lib/orderSystem): order numbers and verification codes *)

Module OrderSystem.

Import JsValue Base64.

Record OrderData : Type := {
  orderNumber : Z;
  verificationNumber : Z;
  timestamp : Z
}.

(** The three localStorage entries written by saveToStorage, modelled by
    the values they render (the first and the third are stored encrypted). *)
Record storage : Type := {
  cafeOrders : option (list OrderData);
  cafeOrderNumber : option Z;
  cafeVerificationNumbers : option (gset Z)
}.

Record state : Type := {
  usedVerificationNumbers : gset Z;
  currentOrderNumber : Z;
  orders : list OrderData;
  (** the environment: whether [window] exists, and its localStorage *)
  has_window : bool;
  localStorage : storage
}.

Definition saveToStorage (s : state) : state :=
  if has_window s then
    {| usedVerificationNumbers := usedVerificationNumbers s;
       currentOrderNumber := currentOrderNumber s;
       orders := orders s;
       has_window := true;
       localStorage :=
         {| cafeOrders := Some (orders s);
            cafeOrderNumber := Some (currentOrderNumber s);
            cafeVerificationNumbers := Some (usedVerificationNumbers s) |} |}
  else s.

(** [data.charCodeAt(i) ^ key.charCodeAt(i % key.length)] for every [i];
    with an empty key the key character is NaN, which [^] reads as 0. *)
Definition xor_key (key data : jsstring) : jsstring :=
  imap (fun i dataChar =>
          Z.lxor dataChar (default 0 (key !! (i mod length key)%nat))) data.

(** The private encryptData: [btoa] throws on a code unit above 255. *)
Definition encryptData (data key : jsstring) : completion jsstring :=
  btoa (xor_key key data).

(** The private decryptData: the [catch] clause returns the empty string. *)
Definition decryptData (encryptedData key : jsstring) : jsstring :=
  match atob encryptedData with
  | Normal encrypted => xor_key key encrypted
  | Throws => []
  end.

Definition maxAttempts : nat := 1000.

(** The [do ... while] loop of generateUniqueVerificationNumber.  [random i]
    is the [i]-th draw of [Math.random()] made by the call, [attempts] the
    number of draws made so far; the loop throws at draw 1001, so 1001
    iterations are enough. *)
Fixpoint draw_loop (fuel attempts : nat) (random : nat → Q) (used : gset Z)
  : completion Z :=
  match fuel with
  | O => Throws
  | S fuel' =>
      let verificationNumber :=
        Qfloor (Qplus (inject_Z 10000) (Qmult (random attempts) (inject_Z 90000))) in
      let attempts := S attempts in
      if (maxAttempts <? attempts)%nat then Throws
      else if bool_decide (verificationNumber ∈ used)
      then draw_loop fuel' attempts random used
      else Normal verificationNumber
  end.

Definition generateUniqueVerificationNumber (random : nat → Q) (s : state)
  : completion Z * state :=
  match draw_loop (S maxAttempts) 0 random (usedVerificationNumbers s) with
  | Normal verificationNumber =>
      (Normal verificationNumber,
       {| usedVerificationNumbers := {[verificationNumber]} ∪ usedVerificationNumbers s;
          currentOrderNumber := currentOrderNumber s;
          orders := orders s;
          has_window := has_window s;
          localStorage := localStorage s |})
  | Throws => (Throws, s)
  end.

Definition with_currentOrderNumber (n : Z) (s : state) : state :=
  {| usedVerificationNumbers := usedVerificationNumbers s;
     currentOrderNumber := n;
     orders := orders s;
     has_window := has_window s;
     localStorage := localStorage s |}.

Definition push_order (o : OrderData) (s : state) : state :=
  {| usedVerificationNumbers := usedVerificationNumbers s;
     currentOrderNumber := currentOrderNumber s;
     orders := orders s ++ [o];
     has_window := has_window s;
     localStorage := localStorage s |}.

(** [now] is the clock read for the timestamp.  When the verification
    number cannot be drawn the order number is given back and the error is
    thrown again. *)
Definition createNewOrder (now : Z) (random : nat → Q) (s : state)
  : completion OrderData * state :=
  let orderNumber := currentOrderNumber s in
  let s := with_currentOrderNumber (currentOrderNumber s + 1) s in
  match generateUniqueVerificationNumber random s with
  | (Normal verificationNumber, s) =>
      let newOrder := {| orderNumber := orderNumber;
                         verificationNumber := verificationNumber;
                         timestamp := now |} in
      (Normal newOrder, saveToStorage (push_order newOrder s))
  | (Throws, s) => (Throws, with_currentOrderNumber (currentOrderNumber s - 1) s)
  end.

Definition getOrderHistory (s : state) : list OrderData := orders s.

Definition resetSystem (s : state) : state :=
  saveToStorage
    {| usedVerificationNumbers := ∅;
       currentOrderNumber := 1;
       orders := [];
       has_window := has_window s;
       localStorage := localStorage s |}.

(** Every order of the history has a number below the next one, no number
    and no verification number occurs twice, and every verification number
    of the history is marked as used. *)
Definition consistent (s : state) : Prop :=
  NoDup (map orderNumber (orders s))
  ∧ Forall (fun o => orderNumber o < currentOrderNumber s) (orders s)
  ∧ NoDup (map verificationNumber (orders s))
  ∧ Forall (fun o => verificationNumber o ∈ usedVerificationNumbers s) (orders s).

End OrderSystem.

(** ** Traces and example data used in the statements below *)

Module Scenarios.

Import JsNumber JsParse JsValue SecurityManager Database Http.

(** *** Sequences of rate-limit checks *)

(** The token a call is counted under. *)
Definition token (clientId : option jsstring) : jsstring :=
  default (lit "anonymous") clientId.

(** The answers of a sequence of calls [(Date.now(), clientId)], made one
    after the other on the map [m]. *)
Fixpoint answers (m : attempts_map) (calls : list (Z * option jsstring)) : list bool :=
  match calls with
  | [] => []
  | (now, clientId) :: rest =>
      let '(b, m') := checkOrderCreationRateLimit now clientId m in
      b :: answers m' rest
  end.

(** The times of the calls made with token [tok] that were answered true. *)
Fixpoint allowed_times (tok : jsstring) (calls : list (Z * option jsstring))
    (results : list bool) : list Z :=
  match calls, results with
  | (now, clientId) :: calls', b :: results' =>
      if b && JsString.eqb (token clientId) tok
      then now :: allowed_times tok calls' results'
      else allowed_times tok calls' results'
  | _, _ => []
  end.

(** The clock never goes back: every call reads at least [t] and at least
    what the call before it read. *)
Fixpoint chronological (t : Z) (calls : list (Z * option jsstring)) : Prop :=
  match calls with
  | [] => True
  | (now, _) :: rest => t <= now ∧ chronological now rest
  end.

(** The attempts of [times] that lie within the window before [now]. *)
Definition recent (now : Z) (times : list Z) : list Z :=
  List.filter (fun time => now - time <? windowMs) times.

(** The attempts of [times] in the window of 60 seconds starting at [t0]. *)
Definition in_window (t0 : Z) (times : list Z) : list Z :=
  List.filter (fun time => (t0 <=? time) && (time <? t0 + windowMs)) times.

(** The attempts kept in the map and the calls answered true so far agree
    on every window that ends at a time [t] or later. *)
Definition agrees (m : attempts_map) (calls : list (Z * option jsstring))
    (results : list bool) (t : Z) : Prop :=
  ∀ tok now, t <= now →
    recent now (default [] (m !! tok)) = recent now (allowed_times tok calls results).

(** No window of 60 seconds holds more than five calls answered true. *)
Definition bounded (calls : list (Z * option jsstring)) (results : list bool) : Prop :=
  ∀ tok t0, (length (in_window t0 (allowed_times tok calls results)) <= maxAttempts)%nat.

(** *** Status values in the orders table *)

(** No row carries the literal status ['collected']. *)
Definition no_collected (db : store) : Prop :=
  Forall (fun o => status o ≠ lit "collected") (orders db).

(** *** Well-formed order items *)

(** The item has a numeric id in [1, 1000], a string name of at most 100
    code units, a numeric quantity in [1, 99] and a numeric price in
    (0, 1000]. *)
Definition valid_item (item : jsval) : Prop :=
  ∃ (id : Q) (name : jsstring) (quantity price : Q),
    get item "id" = Normal (JNum (Fin id))
    ∧ Qle (inject_Z 1) id ∧ Qle id (inject_Z 1000)
    ∧ get item "name" = Normal (JStr name)
    ∧ (length name <= 100)%nat
    ∧ get item "quantity" = Normal (JNum (Fin quantity))
    ∧ Qle (inject_Z 1) quantity ∧ Qle quantity (inject_Z 99)
    ∧ get item "price" = Normal (JNum (Fin price))
    ∧ Qlt (inject_Z 0) price ∧ Qle price (inject_Z 1000).

(** *** Example data *)

#[local] Open Scope string_scope.

Definition text (s : string) : jsval := JStr (lit s).
Definition number (z : Z) : jsval := JNum (of_Z z).
Definition object (props : list (string * jsval)) : jsval :=
  JObj (map (fun '(k, v) => (lit k, v)) props).

Definition empty_store : store :=
  {| orders := []; order_items := []; next_order_number := 1 |}.

(** The basket of the spec's example: two regular Montana BBQ hamburgers. *)
Definition montana_items : jsval :=
  JArr [object [("id", number 1); ("name", text "Montana BBQ Hamburger Regular");
                ("variant", text "Beef"); ("quantity", number 2);
                ("price", number 280)]].

Definition montana_body : jsval :=
  object [("items", montana_items);
          ("customerInfo", object [("name", text "Anonymous"); ("phone", text "")]);
          ("totalAmount", number 560)].

(** The same basket with a total that is not the sum of its lines, and a
    status field the client has no business sending. *)
Definition mismatched_body : jsval :=
  object [("items", montana_items); ("totalAmount", number 1);
          ("status", text "completed")].

Definition post_env : OrdersRoute.environment :=
  {| OrdersRoute.random := 1 # 2;
     OrdersRoute.order_insert := Performs;
     OrdersRoute.order_generated := {| gen_id := lit "a1"; gen_created_at := 1000 |};
     OrdersRoute.items_insert := Performs |}.

(** Order number 7 of the spec's example, ready for collection. *)
Definition order7 : Order :=
  {| id := lit "o7"; order_number := 7; verification_number := 4321;
     status := lit "ready"; total_amount := of_Z 560; created_at := 500;
     updated_at := None; completed_at := None |}.

Definition store7 : store :=
  {| orders := [order7]; order_items := []; next_order_number := 8 |}.

(** Order number 3, collected earlier and therefore completed. *)
Definition order3 : Order :=
  {| id := lit "o3"; order_number := 3; verification_number := 1234;
     status := lit "completed"; total_amount := of_Z 280; created_at := 100;
     updated_at := Some 400; completed_at := None |}.

Definition store37 : store :=
  {| orders := [order3; order7]; order_items := []; next_order_number := 8 |}.

Definition put_env : OrderTrackingRoute.put_environment :=
  {| OrderTrackingRoute.now := 2000; OrderTrackingRoute.order_update := Performs |}.

(** The same calls when the backend is out of reach. *)
Definition unreachable : backend := Fails (lit "fetch failed").

Definition failing_post_env : OrdersRoute.environment :=
  {| OrdersRoute.random := 1 # 2;
     OrdersRoute.order_insert := unreachable;
     OrdersRoute.order_generated := {| gen_id := lit "a1"; gen_created_at := 1000 |};
     OrdersRoute.items_insert := Performs |}.

Definition put_body (status : string) : jsval :=
  object [("order_id", text "o7"); ("status", text status)].

Definition get_env : OrderTrackingRoute.get_environment :=
  {| OrderTrackingRoute.order_select := Performs;
     OrderTrackingRoute.items_select := Performs |}.

Definition load_env : OrdersManagement.load_environment :=
  {| OrdersManagement.orders_select := Performs;
     OrdersManagement.items_select := Performs |}.

Definition update_env : OrdersManagement.update_environment :=
  {| OrdersManagement.now := 2000; OrdersManagement.order_update := Performs;
     OrdersManagement.reload := load_env |}.

Definition failing_update_env : OrdersManagement.update_environment :=
  {| OrdersManagement.now := 2000; OrdersManagement.order_update := unreachable;
     OrdersManagement.reload := load_env |}.

(** A tracking page subscribes to order 7, sees it being prepared and
    leaves; the kitchen goes on. *)
Definition fresh_tracking : TrackingSystem.state :=
  TrackingSystem.new false
    {| TrackingSystem.cafeOrderTracking := None;
       TrackingSystem.cafeCurrentOrderPreparing := None |}.

Definition while_subscribed : list TrackingSystem.op :=
  [TrackingSystem.InitializeOrder 0 7 4321;
   TrackingSystem.UpdateOrderStatus 10 7 TrackingSystem.preparing].

Definition after_unsubscribe : list TrackingSystem.op :=
  [TrackingSystem.UpdateOrderStatus 20 7 TrackingSystem.ready;
   TrackingSystem.SubscribeToOrder 7 2%nat;
   TrackingSystem.UpdateOrderStatus 30 7 TrackingSystem.completed].

End Scenarios.

(** ** Further notions used in the statements below *)

Module Statements.

Import JsNumber JsParse JsValue SecurityManager Database.

(** [item'] is [item] after the in-place sanitization of validateOrderItems:
    the name is the sanitized name, and id, quantity and price are as they
    were. *)
Definition sanitized (item item' : jsval) : Prop :=
  ∃ name,
    get item "name" = Normal (JStr name)
    ∧ get item' "name" = Normal (JStr (sanitizeText (JStr name)))
    ∧ get item' "id" = get item "id"
    ∧ get item' "quantity" = get item "quantity"
    ∧ get item' "price" = get item "price".

(** An item whose price and quantity are the whole numbers [line.1] and
    [line.2]. *)
Definition whole_item (item : jsval) (line : Z * Z) : Prop :=
  get item "price" = Normal (JNum (of_Z line.1))
  ∧ get item "quantity" = Normal (JNum (of_Z line.2)).

(** The ranges that validateOrderItems accepts for a price and a quantity. *)
Definition accepted_line (line : Z * Z) : Prop :=
  0 < line.1 <= 1000 ∧ 1 <= line.2 <= 99.

(** The sum over the lines of price times quantity. *)
Definition lines_total (lines : list (Z * Z)) : Z :=
  foldr (fun line total => line.1 * line.2 + total) 0 lines.

(** [w] occurs somewhere in [s]. *)
Definition occurs (w s : jsstring) : Prop := ∃ l r, s = l ++ w ++ r.

(** [t] is [s] with its first occurrence of [w] taken out. *)
Definition without_first (w s t : jsstring) : Prop :=
  ∃ l r, s = l ++ w ++ r ∧ t = l ++ r
         ∧ ∀ l' r', s = l' ++ w ++ r' → (length l <= length l')%nat.

(** The display name of an item in POST /api/orders:
    [item.name || item.base_name || 'Unknown Item']. *)
Definition display_name (name fallback : jsval) : jsval :=
  or_else (or_else name fallback) (JStr (lit "Unknown Item")).

(** The class of lowercase hexadecimal digits. *)
Definition hex_digit (c : Z) : bool :=
  ((48 <=? c) && (c <=? 57)) || ((97 <=? c) && (c <=? 102)).

(** Newest first. *)
Definition newer_or_equal (a b : Order) : Prop := created_at b <= created_at a.

(** The size codes written by POST /api/orders. *)
Definition size_codes : list jsstring := [lit "R"; lit "L"; []].

(** [row] is the line that POST /api/orders writes for [item] of the order
    numbered [n]: it carries that number, the parsed price and a size code;
    and when the item's price and quantity are whole numbers in the ranges
    that validateOrderItems accepts, it carries them and their product. *)
Definition line_of (n : Z) (item : jsval) (row : OrderItem) : Prop :=
  ∃ price,
    get item "price" = Normal price
    ∧ order_id row = n
    ∧ unit_price row = parseFloat price
    ∧ size_code row ∈ size_codes
    ∧ ∀ line, whole_item item line → accepted_line line →
        unit_price row = of_Z line.1
        ∧ quantity row = of_Z line.2
        ∧ item_total_amount row = of_Z (line.1 * line.2).

End Statements.

Module TrackingStatements.

Import TrackingSystem.

(** Every record is stored under its own order number. *)
Definition keyed (s : state) : Prop :=
  ∀ n d, statusUpdates s !! n = Some d → orderNumber d = n.

(** The operation may replace or drop the record of order [n]. *)
Definition initializes (n : Z) (o : op) : bool :=
  match o with
  | InitializeOrder _ n' _ => n' =? n
  | ResetSystem => true
  | _ => false
  end.


(** The identity of the record of order [n]. *)
Definition identity_of (n : Z) (s : state) : option (Z * Z * Z) :=
  (fun d => (orderNumber d, verificationNumber d, timestamp d)) <$> statusUpdates s !! n.

End TrackingStatements.

Module OrderSystemStatements.

(** The verification number computed from the [i]-th draw of
    [Math.random()]. *)
Definition drawn (random : nat → Q) (i : nat) : Z :=
  Qfloor (Qplus (inject_Z 10000) (Qmult (random i) (inject_Z 90000))).

(** [Math.random()] returns a number in [0, 1). *)
Definition unit_interval (random : nat → Q) : Prop :=
  ∀ i, Qle 0 (random i) ∧ Qlt (random i) 1.

End OrderSystemStatements.

(** ** src/lib/trackingSystem.ts, with subscribers that react

    In [TrackingSystem] above a call of a subscriber is an entry in a log.
    Here the subscribers are code: when called, a subscriber may call back
    into the tracking system (subscribe, unsubscribe, update, reset, ...)
    and may throw.  The subscriber arrays are objects that [forEach] walks
    while they can be changed, and [localStorage] may refuse a write. *)

Module Notifications.

Import TrackingSystem.

(** An array object, named by its reference. *)
Definition array := nat.

Record state : Type := {
  statusUpdates : gmap Z TrackingData;
  (** the map [subscribers]: for each order number, an array object *)
  subscribers : gmap Z array;
  currentOrderBeingPrepared : option Z;
  (** the array object that the field [currentOrderSubscribers] holds *)
  currentOrderSubscribers : array;
  (** the contents of the array objects created by subscribeToOrder, and of
      those created for [currentOrderSubscribers] *)
  order_arrays : gmap array (list callback);
  current_arrays : gmap array (list callback);
  (** the next reference to give out *)
  next_array : array;
  (** the environment: whether [window] exists, its localStorage, and the
      number of [setItem] calls made so far *)
  has_window : bool;
  localStorage : storage;
  writes : nat;
  (** every subscriber call made so far, oldest first *)
  calls : list invocation
}.

(** What a subscriber does when it is called: it returns, it throws, or
    it calls into the tracking system and goes on according to what it
    finds afterwards, the state of the tracking system and whether the call
    threw (it may catch what the call throws). *)
Inductive program : Type :=
| Return
| Throw
| Call (o : op) (next : state → bool → program).

(** What the environment decides: whether the [n]-th call of
    [localStorage.setItem] succeeds (it throws otherwise), and what a
    subscriber does when it is called with a given argument, the tracking
    system being in a given state (of which the calls made so far are a
    part). *)
Record environment : Type := {
  accepts : nat → bool;
  reaction : invocation → state → program
}.

Definition with_statusUpdates (m : gmap Z TrackingData) (s : state) : state :=
  {| statusUpdates := m; subscribers := subscribers s;
     currentOrderBeingPrepared := currentOrderBeingPrepared s;
     currentOrderSubscribers := currentOrderSubscribers s;
     order_arrays := order_arrays s; current_arrays := current_arrays s;
     next_array := next_array s;
     has_window := has_window s; localStorage := localStorage s; writes := writes s;
     calls := calls s |}.

Definition with_currentOrder (o : option Z) (s : state) : state :=
  {| statusUpdates := statusUpdates s; subscribers := subscribers s;
     currentOrderBeingPrepared := o;
     currentOrderSubscribers := currentOrderSubscribers s;
     order_arrays := order_arrays s; current_arrays := current_arrays s;
     next_array := next_array s;
     has_window := has_window s; localStorage := localStorage s; writes := writes s;
     calls := calls s |}.

Definition with_order_arrays (h : gmap array (list callback)) (s : state) : state :=
  {| statusUpdates := statusUpdates s; subscribers := subscribers s;
     currentOrderBeingPrepared := currentOrderBeingPrepared s;
     currentOrderSubscribers := currentOrderSubscribers s;
     order_arrays := h; current_arrays := current_arrays s;
     next_array := next_array s;
     has_window := has_window s; localStorage := localStorage s; writes := writes s;
     calls := calls s |}.

Definition with_current_arrays (h : gmap array (list callback)) (s : state) : state :=
  {| statusUpdates := statusUpdates s; subscribers := subscribers s;
     currentOrderBeingPrepared := currentOrderBeingPrepared s;
     currentOrderSubscribers := currentOrderSubscribers s;
     order_arrays := order_arrays s; current_arrays := h;
     next_array := next_array s;
     has_window := has_window s; localStorage := localStorage s; writes := writes s;
     calls := calls s |}.

Definition with_localStorage (st : storage) (n : nat) (s : state) : state :=
  {| statusUpdates := statusUpdates s; subscribers := subscribers s;
     currentOrderBeingPrepared := currentOrderBeingPrepared s;
     currentOrderSubscribers := currentOrderSubscribers s;
     order_arrays := order_arrays s; current_arrays := current_arrays s;
     next_array := next_array s;
     has_window := has_window s; localStorage := st; writes := n;
     calls := calls s |}.

(** The call [i] is made. *)
Definition record (i : invocation) (s : state) : state :=
  {| statusUpdates := statusUpdates s; subscribers := subscribers s;
     currentOrderBeingPrepared := currentOrderBeingPrepared s;
     currentOrderSubscribers := currentOrderSubscribers s;
     order_arrays := order_arrays s; current_arrays := current_arrays s;
     next_array := next_array s;
     has_window := has_window s; localStorage := localStorage s; writes := writes s;
     calls := calls s ++ [i] |}.

(** saveToStorage: the first [setItem] that throws ends the [try] block;
    [removeItem] does not throw. *)
Definition saveToStorage (env : environment) (s : state) : state :=
  if has_window s then
    if accepts env (writes s) then
      match currentOrderBeingPrepared s with
      | Some n =>
          if accepts env (S (writes s)) then
            with_localStorage
              {| cafeOrderTracking := Some (statusUpdates s);
                 cafeCurrentOrderPreparing := Some n |} (S (S (writes s))) s
          else
            with_localStorage
              {| cafeOrderTracking := Some (statusUpdates s);
                 cafeCurrentOrderPreparing := cafeCurrentOrderPreparing (localStorage s) |}
              (S (S (writes s))) s
      | None =>
          with_localStorage
            {| cafeOrderTracking := Some (statusUpdates s);
               cafeCurrentOrderPreparing := None |} (S (writes s)) s
      end
    else with_localStorage (localStorage s) (S (writes s)) s
  else s.

Definition initializeOrder (env : environment) (now orderNumber verificationNumber : Z)
    (s : state) : state :=
  let trackingData :=
    {| orderNumber := orderNumber; verificationNumber := verificationNumber;
       status := waiting; timestamp := now; lastUpdated := now |} in
  saveToStorage env (with_statusUpdates (<[orderNumber := trackingData]> (statusUpdates s)) s).

(** The contents of an array object. *)
Definition order_array (s : state) (a : array) : list callback :=
  default [] (order_arrays s !! a).
Definition current_array (s : state) (a : array) : list callback :=
  default [] (current_arrays s !! a).

(** An array is created for the order when it has none; the callback is
    pushed onto the array of the order. *)
Definition subscribeToOrder (orderNumber : Z) (cb : callback) (s : state) : state :=
  match subscribers s !! orderNumber with
  | Some a => with_order_arrays (<[a := order_array s a ++ [cb]]> (order_arrays s)) s
  | None =>
      let a := next_array s in
      {| statusUpdates := statusUpdates s;
         subscribers := <[orderNumber := a]> (subscribers s);
         currentOrderBeingPrepared := currentOrderBeingPrepared s;
         currentOrderSubscribers := currentOrderSubscribers s;
         order_arrays := <[a := [cb]]> (order_arrays s);
         current_arrays := current_arrays s;
         next_array := S a;
         has_window := has_window s; localStorage := localStorage s; writes := writes s;
         calls := calls s |}
  end.

(** The function returned by [subscribeToOrder orderNumber cb]: it looks
    the array of the order up when it is called. *)
Definition unsubscribe (orderNumber : Z) (cb : callback) (s : state) : state :=
  match subscribers s !! orderNumber with
  | Some a =>
      with_order_arrays (<[a := remove_first cb (order_array s a)]> (order_arrays s)) s
  | None => s
  end.

Definition subscribeToCurrentOrder (cb : callback) (s : state) : state :=
  let a := currentOrderSubscribers s in
  with_current_arrays (<[a := current_array s a ++ [cb]]> (current_arrays s)) s.

(** The function returned by [subscribeToCurrentOrder cb]: it reads the
    field [currentOrderSubscribers] when it is called. *)
Definition unsubscribeCurrent (cb : callback) (s : state) : state :=
  let a := currentOrderSubscribers s in
  with_current_arrays (<[a := remove_first cb (current_array s a)]> (current_arrays s)) s.

(** resetSystem: the maps are cleared and the field
    [currentOrderSubscribers] gets a new, empty array; the arrays held
    before are not touched. *)
Definition resetSystem (env : environment) (s : state) : state :=
  let a := next_array s in
  saveToStorage env
    {| statusUpdates := ∅; subscribers := ∅;
       currentOrderBeingPrepared := None;
       currentOrderSubscribers := a;
       order_arrays := order_arrays s;
       current_arrays := <[a := []]> (current_arrays s);
       next_array := S a;
       has_window := has_window s; localStorage := localStorage s; writes := writes s;
       calls := calls s |}.

(** How a call into the tracking system ends: it returns, it throws, or
    (in this model) it is cut short because subscribers keep calling back. *)
Inductive outcome : Type := Returned | Thrown | Unfinished.

Definition result : Type := state * outcome.

(** What follows a call: the rest runs when the call returned. *)
Definition and_then (r : result) (k : state → result) : result :=
  match r with
  | (s, Returned) => k s
  | _ => r
  end.

(** The body of a subscriber runs; [exec] runs one call into the tracking
    system. *)
Fixpoint perform (exec : op → state → result) (p : program) (s : state) : result :=
  match p with
  | Return => (s, Returned)
  | Throw => (s, Thrown)
  | Call o next =>
      match exec o s with
      | (s', Returned) => perform exec (next s' false) s'
      | (s', Thrown) => perform exec (next s' true) s'
      | (s', Unfinished) => (s', Unfinished)
      end
  end.

(** One call of a subscriber. *)
Definition call (exec : op → state → result) (env : environment) (i : invocation)
    (s : state) : result :=
  let s := record i s in
  perform exec (reaction env i s) s.

(** [array.forEach(callback => ...)] on the array object [a], whose
    contents are read in [heap]: the length is read once ([todo] counts the
    indices left, [k] is the index), and at each index the element that the
    array holds at that moment is called, if it holds one. *)
Fixpoint forEach (exec : op → state → result) (env : environment)
    (heap : state → gmap array (list callback)) (a : array)
    (mk : callback → invocation) (todo k : nat) (s : state) : result :=
  match todo with
  | O => (s, Returned)
  | S todo =>
      match default [] (heap s !! a) !! k with
      | Some cb =>
          and_then (call exec env (mk cb) s) (forEach exec env heap a mk todo (S k))
      | None => forEach exec env heap a mk todo (S k) s
      end
  end.

Definition updateOrderStatus (exec : op → state → result) (env : environment)
    (now orderNumber : Z) (newStatus : OrderStatus) (s : state) : result :=
  match statusUpdates s !! orderNumber with
  | Some existing =>
      let updated :=
        {| orderNumber := TrackingSystem.orderNumber existing;
           verificationNumber := verificationNumber existing;
           status := newStatus;
           timestamp := timestamp existing;
           lastUpdated := now |} in
      let s := saveToStorage env
                 (with_statusUpdates (<[orderNumber := updated]> (statusUpdates s)) s) in
      match subscribers s !! orderNumber with
      | Some a =>
          forEach exec env order_arrays a (fun cb => OrderCallback cb newStatus)
                  (length (order_array s a)) 0 s
      | None => (s, Returned)
      end
  | None => (s, Returned)
  end.

Definition simulateStatusUpdate (exec : op → state → result) (env : environment)
    (now orderNumber : Z) (s : state) : result :=
  match statusUpdates s !! orderNumber with
  | Some current =>
      let nextStatus :=
        match status current with
        | waiting => preparing
        | preparing => ready
        | _ => ready
        end in
      updateOrderStatus exec env now orderNumber nextStatus s
  | None => (s, Returned)
  end.

Definition setCurrentOrderBeingPrepared (exec : op → state → result) (env : environment)
    (orderNumber : option Z) (s : state) : result :=
  let s := saveToStorage env (with_currentOrder orderNumber s) in
  let a := currentOrderSubscribers s in
  forEach exec env current_arrays a (fun cb => CurrentOrderCallback cb orderNumber)
          (length (current_array s a)) 0 s.

(** One call into the tracking system; [exec] runs the calls that the
    subscribers make in turn. *)
Definition step (exec : op → state → result) (env : environment) (o : op) (s : state)
  : result :=
  match o with
  | InitializeOrder now n v => (initializeOrder env now n v s, Returned)
  | UpdateOrderStatus now n st => updateOrderStatus exec env now n st s
  | SubscribeToOrder n cb => (subscribeToOrder n cb s, Returned)
  | Unsubscribe n cb => (unsubscribe n cb s, Returned)
  | SimulateStatusUpdate now n => simulateStatusUpdate exec env now n s
  | SetCurrentOrderBeingPrepared n => setCurrentOrderBeingPrepared exec env n s
  | SubscribeToCurrentOrder cb => (subscribeToCurrentOrder cb s, Returned)
  | UnsubscribeCurrent cb => (unsubscribeCurrent cb s, Returned)
  | ResetSystem => (resetSystem env s, Returned)
  end.

(** Calls nested at most [depth] deep; a call nested deeper is cut short. *)
Fixpoint exec (env : environment) (depth : nat) (o : op) (s : state) : result :=
  match depth with
  | O => (s, Unfinished)
  | S depth => step (exec env depth) env o s
  end.

(** Calls made one after the other by the application (event handlers,
    effects): each starts when the one before has ended, whether it
    returned or threw. *)
Fixpoint run (env : environment) (depth : nat) (ops : list op) (s : state) : state :=
  match ops with
  | [] => s
  | o :: ops =>
      match exec env depth o s with
      | (s', Unfinished) => s'
      | (s', _) => run env depth ops s'
      end
  end.

End Notifications.

Module NotificationStatements.

Import TrackingSystem Notifications.

(** The subscriber that a call runs. *)
Definition subscriber (i : invocation) : callback :=
  match i with
  | OrderCallback cb _ | CurrentOrderCallback cb _ => cb
  end.

(** A subscriber that returns without calling into the tracking system,
    like the state setters that the tracking page subscribes. *)
Definition inert (env : environment) (cb : callback) : Prop :=
  ∀ i s, subscriber i = cb → reaction env i s = Return.

(** The body [p] can make the call [o]. *)
Fixpoint makes (o : op) (p : program) : Prop :=
  match p with
  | Call o' next => o' = o ∨ ∃ s threw, makes o (next s threw)
  | _ => False
  end.

(** No subscriber ever subscribes [cb] for the order being prepared. *)
Definition never_resubscribed (env : environment) (cb : callback) : Prop :=
  ∀ i s, ¬ makes (SubscribeToCurrentOrder cb) (reaction env i s).

(** The array of current-order subscribers as the field holds it. *)
Definition live (s : state) : list callback :=
  current_array s (currentOrderSubscribers s).

(** The values with which [cb] was called as a current-order subscriber. *)
Definition current_calls_of (cb : callback) (l : list invocation) : list (option Z) :=
  omap (fun i => match i with
                 | CurrentOrderCallback cb' v => if Nat.eqb cb' cb then Some v else None
                 | OrderCallback _ _ => None
                 end) l.

(** No array of current-order subscribers has gained [cb] from [s] to [s']. *)
Definition no_new (cb : callback) (s s' : state) : Prop :=
  ∀ a, cb ∈ current_array s' a → cb ∈ current_array s a.

(** From [s] to [s'] no array has gained [cb], and if [cb] was not in the
    array that the field held, it is not in the array that the field holds
    now and it has not been called as a current-order subscriber. *)
Definition unaffected (cb : callback) (s s' : state) : Prop :=
  no_new cb s s'
  ∧ (cb ∉ live s →
     (cb ∉ live s')
     ∧ current_calls_of cb (calls s') = current_calls_of cb (calls s)).

(** A way of running calls that never registers [cb] or calls it behind
    the back of the field [currentOrderSubscribers]. *)
Definition respects (cb : callback) (exec : op → state → result) : Prop :=
  ∀ o s, o ≠ SubscribeToCurrentOrder cb → unaffected cb s (exec o s).1.

(** The state after the calls [made] are made by subscribers that do
    nothing. *)
Definition recorded (made : list invocation) (s : state) : state :=
  fold_left (fun s i => record i s) made s.

(** The tracking system as [TrackingSystem] sees it: each array by its
    contents. *)
Definition view (s : state) : TrackingSystem.state :=
  {| TrackingSystem.statusUpdates := statusUpdates s;
     TrackingSystem.subscribers := order_array s <$> subscribers s;
     TrackingSystem.currentOrderBeingPrepared := currentOrderBeingPrepared s;
     TrackingSystem.currentOrderSubscribers := live s;
     TrackingSystem.has_window := has_window s;
     TrackingSystem.localStorage := localStorage s;
     TrackingSystem.calls := calls s |}.

(** The arrays of the orders are objects created one by one: two orders do
    not share one, and the next reference is not in use. *)
Definition separate_arrays (s : state) : Prop :=
  (∀ n a, subscribers s !! n = Some a → (a < next_array s)%nat)
  ∧ (∀ n m a, subscribers s !! n = Some a → subscribers s !! m = Some a → n = m).

End NotificationStatements.


Module NotificationScenarios.

Import TrackingSystem Notifications.

(** Subscribers that do nothing, and a localStorage that takes every write. *)
Definition quiet : environment :=
  {| accepts := fun _ => true; reaction := fun _ _ => Return |}.

(** Subscriber 2 unsubscribes itself when it is told the order being
    prepared; subscriber 3 resets the system, subscribes 4 and throws; the
    others do nothing.  localStorage is full. *)
Definition lively : environment :=
  {| accepts := fun _ => false;
     reaction := fun i _ =>
       match i with
       | CurrentOrderCallback 2%nat _ => Call (UnsubscribeCurrent 2%nat) (fun _ _ => Return)
       | CurrentOrderCallback 3%nat _ =>
           Call ResetSystem
                (fun _ _ => Call (SubscribeToCurrentOrder 4%nat) (fun _ _ => Throw))
       | _ => Return
       end |}.

(** Subscriber 3 resets the system and then calls the function that
    subscribeToCurrentOrder returned for callback 1; the others do
    nothing. *)
Definition hasty : environment :=
  {| accepts := fun _ => true;
     reaction := fun i _ =>
       match i with
       | CurrentOrderCallback 3%nat _ =>
           Call ResetSystem
                (fun _ _ => Call (UnsubscribeCurrent 1%nat) (fun _ _ => Return))
       | _ => Return
       end |}.

(** The tracking system in a browser with nothing stored, after the
    callbacks of [l] have subscribed to the order being prepared. *)
Definition listening (l : list callback) : state :=
  {| statusUpdates := ∅; subscribers := ∅;
     currentOrderBeingPrepared := None;
     currentOrderSubscribers := 0%nat;
     order_arrays := ∅; current_arrays := {[ 0%nat := l ]};
     next_array := 1%nat;
     has_window := true;
     localStorage := {| cafeOrderTracking := None; cafeCurrentOrderPreparing := None |};
     writes := 0%nat; calls := [] |}.

(** Order 7 is tracked, and callbacks 1 and 5 have subscribed to it. *)
Definition tracked (l : list callback) : state :=
  subscribeToOrder 7 5%nat
    (subscribeToOrder 7 1%nat
       (initializeOrder quiet 1000 7 43210 (listening l))).

End NotificationScenarios.
(** * Properties *)

(** ** Strings *)

Section StringFacts.

Lemma eqb_eq (s t : jsstring) : JsString.eqb s t = true ↔ s = t.
Proof.
  revert t; induction s as [|c s IH]; intros [|d t]; simpl; try (split; congruence).
  rewrite andb_true_iff, Z.eqb_eq, IH. split; [intros [-> ->]; done | intros [= -> ->]; done].
Qed.

Lemma eqb_refl (s : jsstring) : JsString.eqb s s = true.
Proof. by apply eqb_eq. Qed.

Lemma eqb_neq (s t : jsstring) : JsString.eqb s t = false ↔ s ≠ t.
Proof. rewrite <- eqb_eq. destruct (JsString.eqb s t); split; congruence. Qed.

Lemma starts_with_prefix (p s : jsstring) : starts_with p s = true ↔ p `prefix_of` s.
Proof.
  revert s; induction p as [|c p IH]; intros s; simpl.
  - split; [intros _; apply prefix_nil | done].
  - destruct s as [|d s].
    + split; [done | intros [k Hk]; discriminate].
    + rewrite andb_true_iff, Z.eqb_eq, IH. split.
      * intros [-> Hp]. by apply prefix_cons.
      * intros Hp. split; [by apply prefix_cons_inv_1 in Hp | by apply prefix_cons_inv_2 in Hp].
Qed.

Lemma starts_with_app (p k : jsstring) : starts_with p (p ++ k) = true.
Proof. apply starts_with_prefix. by apply prefix_app_r. Qed.

(** [includes s p] holds exactly when [p] occurs in [s]. *)
Lemma includes_spec (s p : jsstring) :
  includes s p = true ↔ ∃ l r, s = l ++ p ++ r.
Proof.
  induction s as [|c s IH]; simpl.
  - rewrite orb_false_r, starts_with_prefix. split.
    + intros [k Hk]. exists [], k. done.
    + intros (l & r & H). symmetry in H. apply app_eq_nil in H as [-> H].
      apply app_eq_nil in H as [-> _]. done.
  - rewrite orb_true_iff, starts_with_prefix, IH. split.
    + intros [[k Hk] | (l & r & ->)].
      * exists [], k. done.
      * exists (c :: l), r. done.
    + intros (l & r & H). destruct l as [|d l].
      * left. exists r. done.
      * right. injection H as -> ->. eauto.
Qed.

Lemma includes_app_r (l p r : jsstring) : includes (l ++ p ++ r) p = true.
Proof. apply includes_spec. eauto. Qed.

Lemma includes_false_tail (c : Z) (s p : jsstring) :
  includes (c :: s) p = false → includes s p = false.
Proof. simpl. intros H. by apply orb_false_iff in H as [_ H]. Qed.

Lemma includes_false_prefix (c : Z) (s p : jsstring) :
  includes (c :: s) p = false → starts_with p (c :: s) = false.
Proof. simpl includes. intros H. by apply orb_false_iff in H as [H _]. Qed.

Lemma replace_cons_skip (c : Z) (s p r : jsstring) :
  starts_with p (c :: s) = false → replace (c :: s) p r = c :: replace s p r.
Proof.
  intros H.
  change (replace (c :: s) p r)
    with (if starts_with p (c :: s) then r ++ drop (length p) (c :: s)
          else c :: replace s p r).
  by rewrite H.
Qed.

(** A string without occurrence of the pattern is left as it is. *)
Lemma replace_absent (s p r : jsstring) : includes s p = false → replace s p r = s.
Proof.
  induction s as [|c s IH]; intros H.
  - simpl in *. apply orb_false_iff in H as [-> _]. done.
  - rewrite replace_cons_skip by (by apply includes_false_prefix in H).
    f_equal. apply IH. by apply includes_false_tail in H.
Qed.

(** A pattern whose first code unit does not occur again in it cannot
    overlap the end of a string and a copy of itself that follows. *)
Lemma starts_with_no_overlap (c0 : Z) (p' s : jsstring) :
  c0 ∉ p' → s ≠ [] →
  starts_with (c0 :: p') s = false →
  starts_with (c0 :: p') (s ++ c0 :: p') = false.
Proof.
  intros Hc Hs Hn.
  destruct (starts_with (c0 :: p') (s ++ c0 :: p')) eqn:E; [|done].
  exfalso. apply starts_with_prefix in E as [k Hk].
  symmetry in Hk. apply app_eq_inv in Hk as [(k' & Hp & Hk) | (k' & Hsp & _)].
  - destruct s as [|d s]; [done|]. injection Hp as <- ->.
    destruct k' as [|e k'].
    + rewrite app_nil_r in Hn.
      assert (starts_with (c0 :: s) (c0 :: s) = true) as Ht
        by (apply starts_with_prefix; done).
      congruence.
    + simpl in Hk. injection Hk as <- _.
      apply Hc. set_solver.
  - assert (starts_with (c0 :: p') s = true) as Ht
      by (apply starts_with_prefix; exists k'; done).
    congruence.
Qed.

(** Removing the first occurrence of such a pattern from [base ++ p] gives
    back [base] when [base] itself does not contain the pattern. *)
Lemma replace_suffix (c0 : Z) (p' base : jsstring) :
  c0 ∉ p' → includes base (c0 :: p') = false →
  replace (base ++ c0 :: p') (c0 :: p') [] = base.
Proof.
  intros Hc. induction base as [|c base IH]; intros H.
  - rewrite app_nil_l. simpl. rewrite Z.eqb_refl.
    replace (starts_with p' p') with true
      by (symmetry; apply starts_with_prefix; done).
    simpl. apply drop_all.
  - change ((c :: base) ++ c0 :: p') with (c :: (base ++ c0 :: p')).
    rewrite replace_cons_skip.
    + f_equal. apply IH. by apply includes_false_tail in H.
    + apply (starts_with_no_overlap c0 p' (c :: base)); [done | done |].
      by apply includes_false_prefix in H.
Qed.

Lemma replace_hit (s p r : jsstring) :
  starts_with p s = true → replace s p r = r ++ drop (length p) s.
Proof.
  intros H. destruct s as [|c s].
  - simpl. by rewrite H.
  - change (replace (c :: s) p r)
      with (if starts_with p (c :: s) then r ++ drop (length p) (c :: s)
            else c :: replace s p r).
    by rewrite H.
Qed.

(** [replace s p []] takes the first occurrence of [p] out of [s]: the
    occurrence that starts earliest. *)
Lemma replace_first (s p : jsstring) :
  includes s p = true →
  ∃ l r, s = l ++ p ++ r ∧ replace s p [] = l ++ r
         ∧ ∀ l' r', s = l' ++ p ++ r' → (length l <= length l')%nat.
Proof.
  induction s as [|c s IH]; intros H.
  - simpl in H. rewrite orb_false_r in H.
    rewrite (replace_hit [] p []) by done.
    apply starts_with_prefix in H as [k Hk]. symmetry in Hk.
    apply app_eq_nil in Hk as [-> ->].
    exists [], []. split; [done|]. split; [done|]. intros l' r' _. simpl. lia.
  - destruct (starts_with p (c :: s)) eqn:E.
    + rewrite replace_hit by done. apply starts_with_prefix in E as [k Hk].
      exists [], k. split; [done|]. split.
      * rewrite Hk. by rewrite drop_app_length.
      * intros l' r' _. simpl. lia.
    + rewrite replace_cons_skip by done.
      simpl in H. rewrite E in H. simpl in H.
      destruct (IH H) as (l & r & Hs & Hrep & Hmin).
      exists (c :: l), r. split; [by rewrite Hs|]. split; [by rewrite Hrep|].
      intros l' r' Hl'. destruct l' as [|d l'].
      * simpl in Hl'.
        assert (starts_with p (c :: s) = true) as Ht
          by (apply starts_with_prefix; exists r'; done).
        congruence.
      * injection Hl' as <- Hl'. simpl. specialize (Hmin l' r' Hl'). lia.
Qed.

End StringFacts.

(** ** Order placement: the split of the display name *)

Section DisplayName.

Import JsNumber JsParse JsValue Database Http OrdersRoute Scenarios Statements.

Lemma get_string_is_object (item : jsval) (k : string) (s : jsstring) :
  get item k = Normal (JStr s) → ∃ props, item = JObj props ∧ lookup_prop (lit k) props = JStr s.
Proof. destruct item; simpl; intros [=]; eauto. Qed.

Lemma split_name_string (name : jsstring) :
  split_name (JStr name) =
  Normal (if includes name (lit "Regular") then (JStr (replace name (lit " Regular") []), lit "R")
          else if includes name (lit "Large") then (JStr (replace name (lit " Large") []), lit "L")
          else (JStr name, [])).
Proof. unfold split_name. by repeat case_match. Qed.

Lemma occurs_includes (w s : jsstring) : occurs w s ↔ includes s w = true.
Proof. unfold occurs. by rewrite includes_spec. Qed.

Lemma not_occurs_includes (w s : jsstring) : ¬ occurs w s ↔ includes s w = false.
Proof. rewrite occurs_includes. by destruct (includes s w). Qed.

(** The row written for an item whose display name is the string [s]
    carries the base name and the size code computed from [s]. *)
Lemma order_item_display (order : Order) (item name fallback : jsval) (s : jsstring) :
  get item "name" = Normal name →
  get item "base_name" = Normal fallback →
  display_name name fallback = JStr s →
  ∃ row bn sc,
    order_item order item = Normal row
    ∧ split_name (JStr s) = Normal (bn, sc)
    ∧ base_name row = bn ∧ size_code row = sc.
Proof.
  intros Hname Hfallback Hdisplay. unfold display_name in Hdisplay.
  assert (∀ k : string, ∃ v, get item k = Normal v) as Hget
    by (intros k; destruct item; try discriminate; simpl; eauto).
  unfold order_item.
  destruct (Hget "price"%string) as [price ->]. cbn [bind].
  destruct (Hget "quantity"%string) as [quantity ->]. cbn [bind].
  rewrite Hname. cbn [bind]. rewrite Hfallback. cbn [bind].
  destruct (Hget "variant"%string) as [variant ->]. cbn [bind].
  destruct (Hget "protein"%string) as [protein ->]. cbn [bind].
  rewrite Hdisplay, split_name_string. cbn [bind].
  destruct (Hget "menu_item_id"%string) as [menu_item_id ->]. cbn [bind].
  destruct (Hget "id"%string) as [item_id ->]. cbn [bind].
  repeat case_match; simplify_eq; eauto 10.
Qed.

Lemma space_not_in_Regular : 32 ∉ lit "Regular".
Proof. vm_compute. intros H. repeat (apply elem_of_cons in H as [H|H]; [done|]). by apply elem_of_nil in H. Qed.

Lemma space_not_in_Large : 32 ∉ lit "Large".
Proof. vm_compute. intros H. repeat (apply elem_of_cons in H as [H|H]; [done|]). by apply elem_of_nil in H. Qed.

(** What [replace] leaves of [s], in the words of the rule. *)
Lemma replace_rule (w s : jsstring) :
  (occurs w s → without_first w s (replace s w []))
  ∧ (¬ occurs w s → replace s w [] = s).
Proof.
  split.
  - intros H. apply occurs_includes in H. by apply replace_first.
  - intros H. apply not_occurs_includes in H. by apply replace_absent.
Qed.

(** C5, as the code has it.  The display name of an item is its [name],
    or its [base_name] when the name is missing or empty, or ['Unknown
    Item'].  When it is a string, the size is recognised by the words
    [Regular] and [Large] occurring anywhere in it, [Regular] first, and the
    first occurrence of the word with its leading space is taken out:
    a display name in which [Regular] occurs gets size [R] and loses its
    first [" Regular"] (it is kept whole when the word has no leading space
    anywhere); otherwise a display name in which [Large] occurs gets size
    [L] and loses its first [" Large"] in the same way; a display name with
    neither word is kept whole with an empty size code.  In particular
    ["<Base> Regular"] gives base [<Base>] and size [R] when [<Base>] does
    not contain [" Regular"], and ["<Base> Large"] gives base [<Base>] and
    size [L] when the name does not contain [Regular] and [<Base>] does not
    contain [" Large"]. *)
Theorem display_name_split (order : Order) (item name fallback : jsval) (s : jsstring) :
  get item "name" = Normal name →
  get item "base_name" = Normal fallback →
  display_name name fallback = JStr s →
  ∃ row, order_item order item = Normal row
    ∧ (occurs (lit "Regular") s →
         size_code row = lit "R"
         ∧ ∃ t, base_name row = JStr t
                ∧ (occurs (lit " Regular") s → without_first (lit " Regular") s t)
                ∧ (¬ occurs (lit " Regular") s → t = s))
    ∧ (¬ occurs (lit "Regular") s → occurs (lit "Large") s →
         size_code row = lit "L"
         ∧ ∃ t, base_name row = JStr t
                ∧ (occurs (lit " Large") s → without_first (lit " Large") s t)
                ∧ (¬ occurs (lit " Large") s → t = s))
    ∧ (¬ occurs (lit "Regular") s → ¬ occurs (lit "Large") s →
         base_name row = JStr s ∧ size_code row = [])
    ∧ (∀ base, s = base ++ lit " Regular" →
         ¬ occurs (lit " Regular") base →
         base_name row = JStr base ∧ size_code row = lit "R")
    ∧ (∀ base, s = base ++ lit " Large" →
         ¬ occurs (lit "Regular") s →
         ¬ occurs (lit " Large") base →
         base_name row = JStr base ∧ size_code row = lit "L").
Proof.
  intros Hname Hfallback Hdisplay.
  destruct (order_item_display order item name fallback s Hname Hfallback Hdisplay)
    as (row & bn & sc & Hrow & Hsplit & <- & <-).
  exists row. split; [done|].
  rewrite split_name_string in Hsplit.
  split; [|split; [|split; [|split]]].
  - intros Hreg. apply occurs_includes in Hreg. rewrite Hreg in Hsplit.
    injection Hsplit as <- <-. split; [done|].
    exists (replace s (lit " Regular") []). split; [done|]. apply replace_rule.
  - intros Hreg Hlarge. apply not_occurs_includes in Hreg. apply occurs_includes in Hlarge.
    rewrite Hreg, Hlarge in Hsplit. injection Hsplit as <- <-. split; [done|].
    exists (replace s (lit " Large") []). split; [done|]. apply replace_rule.
  - intros Hreg Hlarge. apply not_occurs_includes in Hreg, Hlarge.
    rewrite Hreg, Hlarge in Hsplit. by injection Hsplit as <- <-.
  - intros base -> Hbase. apply not_occurs_includes in Hbase.
    assert (includes (base ++ lit " Regular") (lit "Regular") = true) as Hinc.
    { change (lit " Regular") with ([32] ++ lit "Regular" ++ []).
      rewrite app_assoc. apply includes_app_r. }
    rewrite Hinc in Hsplit. injection Hsplit as <- <-.
    split; [|done]. f_equal.
    apply (replace_suffix 32 (lit "Regular")); [apply space_not_in_Regular | done].
  - intros base -> Hreg Hbase. apply not_occurs_includes in Hreg, Hbase.
    assert (includes (base ++ lit " Large") (lit "Large") = true) as Hinc.
    { change (lit " Large") with ([32] ++ lit "Large" ++ []).
      rewrite app_assoc. apply includes_app_r. }
    rewrite Hreg, Hinc in Hsplit. injection Hsplit as <- <-.
    split; [|done]. f_equal.
    apply (replace_suffix 32 (lit "Large")); [apply space_not_in_Large | done].
Qed.

(** The spec's example, two regular Montana BBQ hamburgers with beef; its
    large version named by [base_name] only; a side without size; and an
    item without any name. *)
Lemma display_name_split_witness :
  (∃ row,
      order_item Scenarios.order7
        (object [("name", text "Montana BBQ Hamburger Regular"); ("price", number 280);
                 ("variant", text "Beef"); ("quantity", number 2)]%string) = Normal row
      ∧ base_name row = text "Montana BBQ Hamburger" ∧ size_code row = lit "R")
  ∧ (∃ row,
        order_item Scenarios.order7
          (object [("name", text ""); ("base_name", text "Montana BBQ Hamburger Large");
                   ("price", number 330); ("variant", text "Beef");
                   ("quantity", number 1)]%string) = Normal row
        ∧ base_name row = text "Montana BBQ Hamburger" ∧ size_code row = lit "L")
  ∧ (∃ row,
        order_item Scenarios.order7
          (object [("name", text "Crispy Fries"); ("price", number 15);
                   ("quantity", number 1)]%string) = Normal row
        ∧ base_name row = text "Crispy Fries" ∧ size_code row = [])
  ∧ (∃ row,
        order_item Scenarios.order7
          (object [("price", number 15); ("quantity", number 1)]%string) = Normal row
        ∧ base_name row = text "Unknown Item" ∧ size_code row = []).
Proof.
  assert (∀ w s, includes s w = false → ¬ occurs w s) as Hnot.
  { intros w s H (l & r & Hs). apply not_true_iff_false in H. apply H.
    apply includes_spec. eauto. }
  split; [|split; [|split]].
  - destruct (display_name_split Scenarios.order7
                (object [("name", text "Montana BBQ Hamburger Regular"); ("price", number 280);
                         ("variant", text "Beef"); ("quantity", number 2)]%string)
                (text "Montana BBQ Hamburger Regular") JUndefined
                (lit "Montana BBQ Hamburger Regular") eq_refl eq_refl eq_refl)
      as (row & Hrow & _ & _ & _ & Hreg & _).
    exists row. split; [exact Hrow|].
    apply (Hreg (lit "Montana BBQ Hamburger")); [reflexivity|].
    apply Hnot. reflexivity.
  - destruct (display_name_split Scenarios.order7
                (object [("name", text ""); ("base_name", text "Montana BBQ Hamburger Large");
                         ("price", number 330); ("variant", text "Beef");
                         ("quantity", number 1)]%string)
                (text "") (text "Montana BBQ Hamburger Large")
                (lit "Montana BBQ Hamburger Large") eq_refl eq_refl eq_refl)
      as (row & Hrow & _ & _ & _ & _ & Hlarge).
    exists row. split; [exact Hrow|].
    apply (Hlarge (lit "Montana BBQ Hamburger")); [reflexivity | |];
      apply Hnot; reflexivity.
  - destruct (display_name_split Scenarios.order7
                (object [("name", text "Crispy Fries"); ("price", number 15);
                         ("quantity", number 1)]%string)
                (text "Crispy Fries") JUndefined
                (lit "Crispy Fries") eq_refl eq_refl eq_refl)
      as (row & Hrow & _ & _ & Hplain & _).
    exists row. split; [exact Hrow|].
    apply Hplain; apply Hnot; reflexivity.
  - destruct (display_name_split Scenarios.order7
                (object [("price", number 15); ("quantity", number 1)]%string)
                JUndefined JUndefined
                (lit "Unknown Item") eq_refl eq_refl eq_refl)
      as (row & Hrow & _ & _ & Hplain & _).
    exists row. split; [exact Hrow|].
    apply Hplain; apply Hnot; reflexivity.
Defined.

(** C5 as stated fails on each of its three cases: a name of the form
    ["<Base> Large"] whose base contains the word [Regular] gets size [R] and
    keeps its suffix; a name of the form ["<Base> Regular"] whose base
    contains [" Regular"] loses that first occurrence, not the suffix; and a
    name with neither suffix that contains the word [Large] gets size [L]. *)
Lemma display_name_split_counterexample :
  (∃ row,
      order_item Scenarios.order7
        (object [("name", text "Regular Fries Large"); ("price", number 100);
                 ("quantity", number 1)]%string) = Normal row
      ∧ base_name row = text "Regular Fries Large" ∧ size_code row = lit "R"
      ∧ (base_name row, size_code row) ≠ (text "Regular Fries", lit "L"))
  ∧ (∃ row,
        order_item Scenarios.order7
          (object [("name", text "Double Regular Patty Regular"); ("price", number 100);
                   ("quantity", number 1)]%string) = Normal row
        ∧ base_name row = text "Double Patty Regular"
        ∧ base_name row ≠ text "Double Regular Patty")
  ∧ (∃ row,
        order_item Scenarios.order7
          (object [("name", text "Largemouth Bass Burger"); ("price", number 100);
                   ("quantity", number 1)]%string) = Normal row
        ∧ base_name row = text "Largemouth Bass Burger" ∧ size_code row = lit "L"
        ∧ size_code row ≠ []).
Proof.
  split; [|split]; eexists; (split; [vm_compute; reflexivity|]); simpl;
    repeat split; done.
Qed.

End DisplayName.

(** ** SecurityManager.validateOrderItems *)

Section ValidateOrderItems.

Import JsNumber JsParse JsValue SecurityManager Scenarios.

Lemma num_between (n : num) (lo hi : Z) :
  JsNumber.truthy n = true → lt n (of_Z lo) = false → gt n (of_Z hi) = false →
  ∃ q, n = Fin q ∧ Qle (inject_Z lo) q ∧ Qle q (inject_Z hi).
Proof.
  destruct n as [|[]|q]; simpl; try discriminate.
  intros _ Hlo Hhi. exists q. split; [done|].
  apply negb_false_iff in Hlo, Hhi. by rewrite !Qle_bool_iff in Hlo, Hhi.
Qed.

Lemma num_positive_up_to (n : num) (hi : Z) :
  JsNumber.truthy n = true → le n (of_Z 0) = false → gt n (of_Z hi) = false →
  ∃ q, n = Fin q ∧ Qlt (inject_Z 0) q ∧ Qle q (inject_Z hi).
Proof.
  destruct n as [|[]|q]; simpl; try discriminate.
  intros _ Hlo Hhi. exists q. split; [done|].
  apply negb_false_iff in Hhi. rewrite Qle_bool_iff in Hhi. split; [|done].
  apply Qnot_le_lt. intros Hle. apply Qle_bool_iff in Hle. congruence.
Qed.

(** An element that passes the checks of the loop body is a valid item. *)
Lemma validate_item_passes (item item' : jsval) :
  validate_item item = Normal (inl item') → valid_item item.
Proof.
  unfold validate_item. destruct item as [| | | | | |props]; try discriminate.
  unfold get at 1 2 3 4. cbn [bind].
  set (id := lookup_prop (lit "id") props).
  set (name := lookup_prop (lit "name") props).
  set (quantity := lookup_prop (lit "quantity") props).
  set (price := lookup_prop (lit "price") props).
  destruct (negb (truthy id) || negb (truthy name) || negb (truthy quantity)
            || negb (truthy price)) eqn:Htruthy; [discriminate|].
  repeat (apply orb_false_iff in Htruthy as [Htruthy ?]).
  rewrite negb_false_iff in *.
  destruct (negb (is_number id) || lt (number_of id) (of_Z 1)
            || gt (number_of id) (of_Z 1000)) eqn:Hid; [discriminate|].
  destruct (negb (is_string name) || (100 <? length (string_of name))%nat) eqn:Hname;
    [discriminate|].
  destruct (negb (is_number quantity) || lt (number_of quantity) (of_Z 1)
            || gt (number_of quantity) (of_Z 99)) eqn:Hq; [discriminate|].
  destruct (negb (is_number price) || le (number_of price) (of_Z 0)
            || gt (number_of price) (of_Z 1000)) eqn:Hp; [discriminate|].
  intros _.
  repeat match goal with
         | H : _ || _ = false |- _ => apply orb_false_iff in H as [H ?]
         end.
  rewrite negb_false_iff in *.
  destruct id as [| | |idn| | |] eqn:Eid; try discriminate.
  destruct name as [| | | |names| |] eqn:Ename; try discriminate.
  destruct quantity as [| | |qn| | |] eqn:Equantity; try discriminate.
  destruct price as [| | |pn| | |] eqn:Eprice; try discriminate.
  simpl in *.
  destruct (num_between idn 1 1000) as (qi & -> & ? & ?); [done..|].
  destruct (num_between qn 1 99) as (qq & -> & ? & ?); [done..|].
  destruct (num_positive_up_to pn 1000) as (qp & -> & ? & ?); [done..|].
  assert (length names <= 100)%nat by (by apply Nat.ltb_ge).
  exists qi, names, qq, qp. unfold get.
  fold id name quantity price. rewrite Eid, Ename, Equantity, Eprice.
  repeat split; done.
Qed.

Lemma validate_loop_true (elems elems' : list jsval) :
  validate_loop elems = Normal (true, elems') → Forall valid_item elems.
Proof.
  revert elems'. induction elems as [|item rest IH]; intros elems' H; [constructor|].
  simpl in H.
  destruct (validate_item item) as [[item'|[]]|] eqn:Hitem; cbn [bind] in H;
    try discriminate.
  destruct (validate_loop rest) as [[ok rest']|] eqn:Hrest; cbn [bind] in H;
    try discriminate.
  injection H as -> _.
  constructor; [by eapply validate_item_passes | by eapply IH].
Qed.

(** C9: validateOrderItems answers true only for an array of 1 to 20 valid
    items; it answers false for the empty array and for every array of more
    than 20 elements. *)
Theorem validateOrderItems_true_only_if :
  (∀ items items',
      validateOrderItems items = Normal (true, items') →
      ∃ elems, items = JArr elems
               ∧ (1 <= length elems <= 20)%nat
               ∧ Forall valid_item elems)
  ∧ validateOrderItems (JArr []) = Normal (false, JArr [])
  ∧ (∀ elems, (20 < length elems)%nat →
              validateOrderItems (JArr elems) = Normal (false, JArr elems)).
Proof.
  split; [|split].
  - intros items items' H. unfold validateOrderItems in H.
    destruct items as [| | | | |elems|]; try discriminate.
    destruct (length elems =? 0)%nat eqn:H0; [discriminate|].
    destruct (20 <? length elems)%nat eqn:H20; [discriminate|].
    cbn [orb] in H.
    destruct (validate_loop elems) as [[ok elems']|] eqn:Hloop; cbn [bind] in H;
      try discriminate.
    injection H as -> _.
    apply Nat.eqb_neq in H0. apply Nat.ltb_ge in H20.
    exists elems. split; [done|]. split; [lia|].
    by eapply validate_loop_true.
  - reflexivity.
  - intros elems Hlen. unfold validateOrderItems.
    apply Nat.ltb_lt in Hlen. rewrite Hlen. by rewrite orb_true_r.
Qed.

(** The basket of the spec's example passes, and is therefore valid; a
    basket of 21 lines is refused. *)
Lemma validateOrderItems_true_only_if_witness :
  (validateOrderItems montana_items = Normal (true, montana_items)
   ∧ ∃ elems, montana_items = JArr elems
              ∧ (1 <= length elems <= 20)%nat
              ∧ Forall valid_item elems)
  ∧ validateOrderItems (JArr (replicate 21 JNull)) = Normal (false, JArr (replicate 21 JNull)).
Proof.
  split; [split; [reflexivity|]|].
  - exact (proj1 validateOrderItems_true_only_if montana_items montana_items eq_refl).
  - apply (proj2 (proj2 validateOrderItems_true_only_if) (replicate 21 JNull)).
    simpl. lia.
Defined.

End ValidateOrderItems.

(** ** Active orders: the read of the staff dashboard *)

Section ActiveOrders.

Import JsNumber JsValue Database OrdersManagement Scenarios.

Lemma elem_of_insert_newest_first (o x : Order) (l : list Order) :
  x ∈ insert_newest_first o l ↔ x = o ∨ x ∈ l.
Proof.
  induction l as [|y l IH]; simpl.
  - set_solver.
  - destruct (created_at y <? created_at o).
    + rewrite !elem_of_cons. tauto.
    + rewrite !elem_of_cons, IH. tauto.
Qed.

Lemma elem_of_order_by_created_at_desc (x : Order) (l : list Order) :
  x ∈ order_by_created_at_desc l ↔ x ∈ l.
Proof.
  unfold order_by_created_at_desc. induction l as [|y l IH]; simpl; [done|].
  rewrite elem_of_insert_newest_first, IH, elem_of_cons. tauto.
Qed.

Lemma elem_of_filter_bool {A} (f : A → bool) (x : A) (l : list A) :
  x ∈ List.filter f l ↔ x ∈ l ∧ f x = true.
Proof. rewrite !list_elem_of_In. apply filter_In. Qed.

(** loadOrders only reads. *)
Lemma loadOrders_configured_store (env : load_environment) (db : store) (u : ui) :
  snd (loadOrders_configured env db u) = db.
Proof. unfold loadOrders_configured. by repeat case_match. Qed.

(** C8: an active-orders read returns exactly the stored orders whose status
    is not ['completed']; loadOrders shows that result and leaves the store,
    completed orders included, as it is. *)
Theorem active_orders_exclude_completed :
  (∀ b db rows,
      active_orders b db = Data rows →
      ∀ o, o ∈ rows ↔ o ∈ Database.orders db ∧ status o ≠ lit "completed")
  ∧ (∀ env db u rows,
        active_orders (orders_select env) db = Data rows →
        OrdersManagement.orders (fst (loadOrders_configured env db u)) = rows)
  ∧ (∀ env db u, snd (loadOrders_configured env db u) = db).
Proof.
  split; [|split].
  - intros b db rows H o. unfold active_orders, select_orders_neq_status in H.
    destruct b; [|discriminate]. injection H as <-.
    rewrite elem_of_order_by_created_at_desc, elem_of_filter_bool.
    by rewrite negb_true_iff, eqb_neq.
  - intros env db u rows H. unfold loadOrders_configured. rewrite H.
    by repeat case_match.
  - apply loadOrders_configured_store.
Qed.

(** Order 3 is completed and stays in the store; only order 7 is shown. *)
Lemma active_orders_exclude_completed_witness :
  OrdersManagement.orders (fst (loadOrders_configured load_env store37 initial)) = [order7]
  ∧ (order3 ∈ [order7] ↔ order3 ∈ Database.orders store37 ∧ status order3 ≠ lit "completed")
  ∧ snd (loadOrders_configured load_env store37 initial) = store37.
Proof.
  split; [|split].
  - exact (proj1 (proj2 active_orders_exclude_completed)
             load_env store37 initial [order7] eq_refl).
  - exact (proj1 active_orders_exclude_completed Performs store37 [order7] eq_refl order3).
  - exact (proj2 (proj2 active_orders_exclude_completed) load_env store37 initial).
Defined.

End ActiveOrders.

(** ** Status transitions *)

Section StatusTransitions.

Import JsNumber JsValue Database Http OrdersManagement OrderTrackingRoute Scenarios.

Lemma finalStatus_collected : finalStatus (lit "collected") = lit "completed".
Proof. reflexivity. Qed.

Lemma finalStatus_other (s : jsstring) : s ≠ lit "collected" → finalStatus s = s.
Proof. intros H. unfold finalStatus. apply eqb_neq in H. by rewrite H. Qed.

Lemma finalStatus_not_collected (s : jsstring) : finalStatus s ≠ lit "collected".
Proof.
  unfold finalStatus. destruct (JsString.eqb s (lit "collected")) eqn:E.
  - discriminate.
  - by apply eqb_neq.
Qed.

Lemma valid_status_Some (v : jsval) (s : jsstring) :
  valid_status v = Some s → v = JStr s ∧ s ∈ validStatuses ∧ s ≠ lit "collected".
Proof.
  unfold valid_status. destruct v as [| | | |t| |]; try discriminate.
  destruct (existsb (JsString.eqb t) validStatuses) eqn:E; [|discriminate].
  intros [= <-]. apply existsb_exists in E as (x & Hx & Heq).
  apply eqb_eq in Heq as <-. split; [done|]. split; [by apply list_elem_of_In|].
  intros ->. revert Hx. vm_compute. intuition discriminate.
Qed.

(** Rewriting the status of some rows to a value other than ['collected']
    keeps the table free of that value. *)
Lemma no_collected_map (s : jsstring) (a b : option Z) (f : Order → bool) (db : store) :
  s ≠ lit "collected" → no_collected db →
  no_collected (with_orders (map (fun o => if f o then set_status s a b o else o)
                                 (Database.orders db)) db).
Proof.
  intros Hs Hdb. unfold no_collected in *. simpl.
  apply Forall_map. eapply Forall_impl; [exact Hdb|].
  intros o Ho. simpl. by destruct (f o).
Qed.

Lemma update_status_by_id_store (b : backend) (order_id : jsval) (s : jsstring)
    (completed : option Z) (db db' : store) (r : reply Order) :
  update_status_by_id b order_id s completed db = (r, db') →
  db' = db
  ∨ db' = with_orders
            (map (fun o => if id_eq (id o) order_id then set_status s None completed o else o)
                 (Database.orders db)) db.
Proof.
  unfold update_status_by_id. destruct b; [|intros [= _ <-]; by left].
  destruct (single _); intros [= _ <-]; [by right | by left].
Qed.

Lemma PUT_configured_collected (env : put_environment) (body : jsval) (db : store) :
  get body "status" = Normal (JStr (lit "collected")) →
  PUT_configured env (Normal body) db = (invalid_status, db).
Proof.
  destruct body as [| | | | | |props]; try discriminate.
  unfold PUT_configured, get. cbn [bind]. intros [= ->]. reflexivity.
Qed.

Lemma valid_status_None (v : jsval) :
  (∀ s, s ∈ validStatuses → v ≠ JStr s) → valid_status v = None.
Proof.
  intros H. unfold valid_status. destruct v as [| | | |t| |]; try done.
  destruct (existsb (JsString.eqb t) validStatuses) eqn:E; [|done].
  apply existsb_exists in E as (x & Hx & Heq). apply eqb_eq in Heq as <-.
  apply list_elem_of_In in Hx. by apply H in Hx.
Qed.

Lemma valid_status_accepted (s : jsstring) :
  s ∈ validStatuses → valid_status (JStr s) = Some s.
Proof.
  intros H. unfold valid_status.
  replace (existsb (JsString.eqb s) validStatuses) with true; [done|].
  symmetry. apply existsb_exists. exists s. split; [by apply list_elem_of_In | apply eqb_refl].
Qed.

(** An update by id that finds exactly one row writes it and returns it. *)
Lemma update_status_by_id_single (order_id : jsval) (s : jsstring) (completed : option Z)
    (db : store) (o : Order) :
  List.filter (fun o => id_eq (id o) order_id) (Database.orders db) = [o] →
  update_status_by_id Performs order_id s completed db
  = (Data (set_status s None completed o),
     with_orders
       (map (fun o => if id_eq (id o) order_id then set_status s None completed o else o)
            (Database.orders db)) db).
Proof.
  intros H. unfold update_status_by_id. rewrite H. simpl.
  assert (id_eq (id o) order_id = true) as ->; [|done].
  assert (o ∈ List.filter (fun o => id_eq (id o) order_id) (Database.orders db)) as Ho
    by (rewrite H; by apply list_elem_of_singleton).
  apply list_elem_of_In, filter_In in Ho. tauto.
Qed.

(** An update by id that finds no row, or several, writes nothing. *)
Lemma update_status_by_id_none (b : backend) (order_id : jsval) (s : jsstring)
    (completed : option Z) (db : store) :
  (∀ o, List.filter (fun o => id_eq (id o) order_id) (Database.orders db) ≠ [o]) →
  ∃ m, update_status_by_id b order_id s completed db = (Error m, db).
Proof.
  intros H. unfold update_status_by_id. destruct b as [|m]; [|by eauto].
  destruct (List.filter _ (Database.orders db)) as [|o [|o' l]]; simpl; eauto.
  by destruct (H o).
Qed.

(** C1, as the code has it.  The dashboard's updateOrderStatus writes
    ['completed'] for a requested ['collected'] and the requested value for
    any other request.  The PUT endpoint does not rewrite: it answers a
    requested ['collected'] (like any value outside preparing, ready,
    completed, cancelled) with the 400 error and leaves the store alone, and
    it writes an accepted status as requested: when the backend performs
    the update and exactly one order has the given id, that order gets the
    requested status (and the clock value as completion time when the status
    is ['completed']), the answer is 200 with the updated order, and no
    other row changes; when the backend fails, or no order or several have
    the id, the answer is 500 and nothing is written.  On neither path is
    the literal ['collected'] written to an order row. *)
Theorem status_transition_never_persists_collected :
  (* the dashboard *)
  (∀ env n s db u,
      let db' := snd (updateOrderStatus_configured env n s db u) in
      (s = lit "collected" → finalStatus s = lit "completed")
      ∧ (s ≠ lit "collected" → finalStatus s = s)
      ∧ (OrdersManagement.order_update env = Performs →
         Database.orders db' =
         map (fun o => if order_number o =? n
                       then set_status (finalStatus s) (Some (OrdersManagement.now env)) None o else o)
             (Database.orders db))
      ∧ (∀ m, OrdersManagement.order_update env = Fails m → db' = db)
      ∧ (no_collected db → no_collected db'))
  (* the PUT endpoint *)
  ∧ (∀ env request_json db,
        let r := fst (PUT_configured env request_json db) in
        let db' := snd (PUT_configured env request_json db) in
        (∀ body, request_json = Normal body →
                 get body "status" = Normal (JStr (lit "collected")) →
                 r = invalid_status ∧ db' = db)
        ∧ (db' = db
           ∨ ∃ body order_id s,
               request_json = Normal body
               ∧ get body "order_id" = Normal order_id
               ∧ get body "status" = Normal (JStr s)
               ∧ s ∈ validStatuses ∧ s ≠ lit "collected"
               ∧ Database.orders db' =
                 map (fun o => if id_eq (id o) order_id
                               then set_status s None
                                      (if JsString.eqb s (lit "completed")
                                       then Some (OrderTrackingRoute.now env) else None) o
                               else o)
                     (Database.orders db))
        ∧ (no_collected db → no_collected db')
        (* every status outside the list is answered 400 *)
        ∧ (∀ body order_id status,
             request_json = Normal body →
             get body "order_id" = Normal order_id →
             get body "status" = Normal status →
             (∀ s, s ∈ validStatuses → status ≠ JStr s) →
             r = invalid_status ∧ db' = db)
        (* an accepted status is written as requested *)
        ∧ (∀ body order_id s o,
             request_json = Normal body →
             get body "order_id" = Normal order_id →
             get body "status" = Normal (JStr s) →
             s ∈ validStatuses →
             OrderTrackingRoute.order_update env = Performs →
             List.filter (fun o => id_eq (id o) order_id) (Database.orders db) = [o] →
             let written :=
               set_status s None
                 (if JsString.eqb s (lit "completed")
                  then Some (OrderTrackingRoute.now env) else None) o in
             r = ok (OrderUpdated written)
             ∧ status written = s
             ∧ Database.orders db' =
               map (fun o => if id_eq (id o) order_id then
                               set_status s None
                                 (if JsString.eqb s (lit "completed")
                                  then Some (OrderTrackingRoute.now env) else None) o
                             else o)
                   (Database.orders db)
             ∧ order_items db' = order_items db)
        (* a failed update writes nothing *)
        ∧ (∀ body order_id s,
             request_json = Normal body →
             get body "order_id" = Normal order_id →
             get body "status" = Normal (JStr s) →
             s ∈ validStatuses →
             (∃ m, OrderTrackingRoute.order_update env = Fails m)
             ∨ (∀ o, List.filter (fun o => id_eq (id o) order_id) (Database.orders db) ≠ [o]) →
             status_code r = 500 ∧ db' = db)).
Proof.
  split.
  - intros env n s db u db'. split; [by intros ->|].
    split; [apply finalStatus_other|].
    subst db'. unfold updateOrderStatus_configured, update_status_by_number.
    destruct (OrdersManagement.order_update env) as [|m] eqn:Hb.
    + assert (∀ u1 u2 : ui,
                 snd (let '(u', d) :=
                        if JsString.eqb s (lit "collected") then (u1, with_orders
                          (map (fun o => if order_number o =? n
                                         then set_status (finalStatus s) (Some (OrdersManagement.now env)) None o
                                         else o) (Database.orders db)) db)
                        else loadOrders_configured (reload env) (with_orders
                          (map (fun o => if order_number o =? n
                                         then set_status (finalStatus s) (Some (OrdersManagement.now env)) None o
                                         else o) (Database.orders db)) db) u2
                      in (setUpdatingOrders (updatingOrders u' ∖ {[n]}) u', d))
                 = with_orders
                     (map (fun o => if order_number o =? n
                                    then set_status (finalStatus s) (Some (OrdersManagement.now env)) None o
                                    else o) (Database.orders db)) db) as Hsnd.
      { intros u1 u2. destruct (JsString.eqb s (lit "collected")); [done|].
        pose proof (loadOrders_configured_store (reload env)
                      (with_orders
                         (map (fun o => if order_number o =? n
                                        then set_status (finalStatus s) (Some (OrdersManagement.now env)) None o
                                        else o) (Database.orders db)) db) u2) as Hl.
        destruct (loadOrders_configured _ _ u2); simpl in *. done. }
      rewrite Hsnd. split; [done|]. split; [discriminate|].
      apply no_collected_map, finalStatus_not_collected.
    + simpl. split; [discriminate|]. split; done.
  - intros env request_json db r db'. subst r db'. split.
    { intros body -> Hs. by rewrite PUT_configured_collected. }
    apply and_assoc. split; [|split; [|split]].
    2: { intros body order_id status -> Hid Hst Hout.
         unfold PUT_configured. cbn [bind]. rewrite Hid. cbn [bind]. rewrite Hst. cbn [bind].
         by rewrite valid_status_None. }
    2: { intros body order_id s o -> Hid Hst Hin Hb Hone written.
         unfold PUT_configured. cbn [bind]. rewrite Hid. cbn [bind]. rewrite Hst. cbn [bind].
         rewrite valid_status_accepted by done. rewrite Hb.
         rewrite (update_status_by_id_single _ _ _ _ o) by done. done. }
    2: { intros body order_id s -> Hid Hst Hin Hfail.
         unfold PUT_configured. cbn [bind]. rewrite Hid. cbn [bind]. rewrite Hst. cbn [bind].
         rewrite valid_status_accepted by done.
         destruct Hfail as [[m Hm] | Hnone].
         - rewrite Hm. done.
         - destruct (update_status_by_id_none (OrderTrackingRoute.order_update env) order_id s
                       (if JsString.eqb s (lit "completed")
                        then Some (OrderTrackingRoute.now env) else None) db Hnone)
             as [m ->].
           done. }
    unfold PUT_configured.
    destruct request_json as [body|]; cbn [bind]; [|split; [by left | done]].
    destruct (get body "order_id") as [order_id|] eqn:Hid; cbn [bind];
      [|split; [by left | done]].
    destruct (get body "status") as [status|] eqn:Hst; cbn [bind];
      [|split; [by left | done]].
    destruct (valid_status status) as [s|] eqn:Hv; [|split; [by left | done]].
    apply valid_status_Some in Hv as (-> & Hin & Hne).
    destruct (update_status_by_id (OrderTrackingRoute.order_update env) order_id s
                (if JsString.eqb s (lit "completed")
                 then Some (OrderTrackingRoute.now env) else None) db)
      as [rep db1] eqn:Hupd.
    apply update_status_by_id_store in Hupd as Hdb1.
    assert (snd (match rep with
                 | Data order => (ok (OrderUpdated order), db1)
                 | Error m => (error 500 m, db1)
                 end) = db1) as Hsnd by (by destruct rep).
    rewrite Hsnd. split.
    + destruct Hdb1 as [-> | ->]; [by left|]. right.
      exists body, order_id, s. done.
    + destruct Hdb1 as [-> | ->]; [done|]. by apply no_collected_map.
Qed.

(** Order 7 is collected from the dashboard: the row reads ['completed'].
    The same request sent to the PUT endpoint is refused, like the status
    ['delivered']; a requested ['completed'] is written with its completion
    time; an id that no order has is answered 500. *)
Lemma status_transition_never_persists_collected_witness :
  map status (Database.orders
                (snd (updateOrderStatus_configured update_env 7 (lit "collected")
                        store7 initial))) = [lit "completed"]
  ∧ no_collected (snd (updateOrderStatus_configured update_env 7 (lit "collected")
                         store7 initial))
  ∧ snd (updateOrderStatus_configured failing_update_env 7 (lit "collected")
           store7 initial) = store7
  ∧ fst (PUT_configured put_env (Normal (put_body "collected")) store7) = invalid_status
  ∧ snd (PUT_configured put_env (Normal (put_body "collected")) store7) = store7
  ∧ no_collected (snd (PUT_configured put_env (Normal (put_body "completed")) store7))
  ∧ fst (PUT_configured put_env (Normal (put_body "delivered")) store7) = invalid_status
  ∧ fst (PUT_configured put_env (Normal (put_body "completed")) store7)
    = ok (OrderUpdated (set_status (lit "completed") None (Some 2000) order7))
  ∧ map (fun o => (status o, completed_at o))
        (Database.orders (snd (PUT_configured put_env (Normal (put_body "completed")) store7)))
    = [(lit "completed", Some 2000)]
  ∧ status_code
      (fst (PUT_configured put_env
              (Normal (object [("order_id", text "o8"); ("status", text "ready")]%string))
              store7)) = 500.
Proof.
  destruct (proj1 status_transition_never_persists_collected
              update_env 7 (lit "collected") store7 initial)
    as (_ & _ & Hrows & _ & Hnone).
  destruct (proj1 status_transition_never_persists_collected
              failing_update_env 7 (lit "collected") store7 initial)
    as (_ & _ & _ & Hfails & _).
  destruct (proj2 status_transition_never_persists_collected
              put_env (Normal (put_body "collected")) store7)
    as (Hcollected & _).
  destruct (proj2 status_transition_never_persists_collected
              put_env (Normal (put_body "delivered")) store7)
    as (_ & _ & _ & Hinvalid & _).
  destruct (proj2 status_transition_never_persists_collected
              put_env (Normal (put_body "completed")) store7)
    as (_ & _ & Hkeeps & _ & Hwritten & _).
  destruct (proj2 status_transition_never_persists_collected
              put_env
              (Normal (object [("order_id", text "o8"); ("status", text "ready")]%string))
              store7)
    as (_ & _ & _ & _ & _ & Hfailed).
  assert (no_collected store7) as H7 by (repeat constructor; discriminate).
  assert (lit "completed" ∈ validStatuses) as Hcompleted
    by (apply list_elem_of_In; vm_compute; tauto).
  assert (lit "ready" ∈ validStatuses) as Hready
    by (apply list_elem_of_In; vm_compute; tauto).
  destruct (Hwritten (put_body "completed") (text "o7") (lit "completed") order7
              eq_refl eq_refl eq_refl Hcompleted eq_refl eq_refl)
    as (Hanswer & _ & Horders & _).
  split; [rewrite (Hrows eq_refl); reflexivity|].
  split; [exact (Hnone H7)|].
  split; [exact (Hfails (lit "fetch failed") eq_refl)|].
  split; [exact (proj1 (Hcollected (put_body "collected") eq_refl eq_refl))|].
  split; [exact (proj2 (Hcollected (put_body "collected") eq_refl eq_refl))|].
  split; [exact (Hkeeps H7)|].
  split.
  { apply (Hinvalid (put_body "delivered") (text "o7") (text "delivered") eq_refl eq_refl eq_refl).
    intros s Hs Heq. injection Heq as <-. apply list_elem_of_In in Hs.
    vm_compute in Hs. intuition discriminate. }
  split; [exact Hanswer|].
  split; [rewrite Horders; reflexivity|].
  apply (Hfailed _ (text "o8") (lit "ready") eq_refl eq_refl eq_refl Hready).
  right. intros o. discriminate.
Defined.

(** C1 as stated fails on the PUT endpoint: a requested ['collected'] is
    not rewritten to ['completed'] and persisted, it is refused with status
    400 and order 7 stays ['ready']. *)
Lemma status_transition_counterexample :
  PUT put_env (Some (lit "Bearer staff-token")) (Normal (put_body "collected"))
      (Some store7)
  = (invalid_status, Some store7)
  ∧ status_code invalid_status = 400
  ∧ map status (Database.orders store7) = [lit "ready"]
  ∧ ¬ (∃ o, o ∈ Database.orders store7 ∧ status o = lit "completed").
Proof.
  repeat split.
  intros (o & Ho & Hs). apply list_elem_of_singleton in Ho as ->. discriminate.
Qed.

End StatusTransitions.

(** ** Order placement: POST /api/orders *)

Section OrderPlacement.

Import JsNumber JsParse JsValue SecurityManager Database Http OrdersRoute Scenarios.

(** What a POST does to the orders table: nothing, or one new row that is
    pending and carries the parsed total. *)
Lemma POST_configured_orders (env : environment) (request_json : completion jsval)
    (db : store) :
  let r := fst (POST_configured env request_json db) in
  let db' := snd (POST_configured env request_json db) in
  (db' = db ∧ status_code r = 500)
  ∨ ∃ body items totalAmount row,
      request_json = Normal body
      ∧ get body "items" = Normal items
      ∧ get body "totalAmount" = Normal totalAmount
      ∧ order_insert env = Performs
      ∧ row = {| id := gen_id (order_generated env);
                 order_number := next_order_number db;
                 verification_number := verificationNumber (random env);
                 status := lit "pending";
                 total_amount := parseFloat totalAmount;
                 created_at := gen_created_at (order_generated env);
                 updated_at := None; completed_at := None |}
      ∧ Database.orders db' = Database.orders db ++ [row]
      ∧ next_order_number db' = next_order_number db + 1
      ∧ (status_code r = 200 → json r = OrderCreated row).
Proof.
  cbv zeta. unfold POST_configured.
  destruct request_json as [body|]; cbn [bind]; [|by left].
  destruct (get body "items") as [items|] eqn:Hitems; cbn [bind]; [|by left].
  destruct (get body "totalAmount") as [totalAmount|] eqn:Htotal; cbn [bind]; [|by left].
  unfold insert_order. destruct (order_insert env) as [|m] eqn:Hins; [|by left].
  right. eexists body, items, totalAmount, _.
  do 4 (split; [done|]). split; [reflexivity|].
  destruct (orderItems _ items) as [rows|]; [|done].
  destruct (items_insert env); simpl; done.
Qed.

(** C3: a POST answered with status 200 has added exactly one row to the
    orders table, whose status is ['pending'] and whose total is
    [parseFloat(totalAmount)], whatever else the body holds; and when the
    insert of the order row fails, neither table changes and the answer is
    an error. *)
Theorem order_creation_persists_one_pending_row
    (env : environment) (request_json : completion jsval) (db : store) :
  let r := fst (POST_configured env request_json db) in
  let db' := snd (POST_configured env request_json db) in
  (status_code r = 200 →
   ∃ body totalAmount row,
     request_json = Normal body
     ∧ get body "totalAmount" = Normal totalAmount
     ∧ Database.orders db' = Database.orders db ++ [row]
     ∧ status row = lit "pending"
     ∧ total_amount row = parseFloat totalAmount
     ∧ json r = OrderCreated row)
  ∧ (∀ m, order_insert env = Fails m →
          db' = db ∧ status_code r = 500 ∧ ∃ e, json r = ErrorBody e).
Proof.
  cbv zeta. split.
  - intros H200.
    destruct (POST_configured_orders env request_json db)
      as [[_ H500] | (body & items & totalAmount & row & -> & _ & Ht & _ & Hrow & Horders & _ & Hjson)].
    + rewrite H500 in H200. discriminate.
    + exists body, totalAmount, row. rewrite Hrow in *. auto 10.
  - intros m Hm. unfold POST_configured.
    destruct request_json as [body|]; cbn [bind]; [|by eauto].
    destruct (get body "items") as [items|]; cbn [bind]; [|by eauto].
    destruct (get body "totalAmount") as [totalAmount|]; cbn [bind]; [|by eauto].
    unfold insert_order. rewrite Hm. simpl. eauto.
Qed.

(** The spec's example, and a body that also sends a status: both rows are
    pending. *)
Lemma order_creation_persists_one_pending_row_witness :
  (∃ row, Database.orders (snd (POST_configured post_env (Normal montana_body) empty_store))
          = [row]
          ∧ status row = lit "pending" ∧ total_amount row = of_Z 560)
  ∧ (∃ row, Database.orders (snd (POST_configured post_env (Normal mismatched_body) empty_store))
            = [row]
            ∧ status row = lit "pending")
  ∧ snd (POST_configured failing_post_env (Normal montana_body) empty_store) = empty_store
  ∧ status_code (fst (POST_configured failing_post_env (Normal montana_body) empty_store))
    = 500.
Proof.
  split; [|split; [|split]].
  3: exact (proj1 (proj2 (order_creation_persists_one_pending_row
                     failing_post_env (Normal montana_body) empty_store)
                     (lit "fetch failed") eq_refl)).
  3: exact (proj1 (proj2 (proj2 (order_creation_persists_one_pending_row
                     failing_post_env (Normal montana_body) empty_store)
                     (lit "fetch failed") eq_refl))).
  - destruct (proj1 (order_creation_persists_one_pending_row
                       post_env (Normal montana_body) empty_store) eq_refl)
      as (body & totalAmount & row & Hbody & Ht & Hrows & Hs & Htotal & _).
    injection Hbody as <-. injection Ht as <-. exists row. auto.
  - destruct (proj1 (order_creation_persists_one_pending_row
                       post_env (Normal mismatched_body) empty_store) eq_refl)
      as (body & totalAmount & row & _ & _ & Hrows & Hs & _).
    exists row. auto.
Defined.

(** C4 fails on the code: the endpoint stores a total of 1 for a basket whose
    lines add up to 560, although validateTotalAmount, which the sibling
    createOrder path calls before writing, rejects that pair. *)
Lemma POST_accepts_mismatched_total :
  ∃ row line,
    POST_configured post_env (Normal mismatched_body) empty_store
    = (ok (OrderCreated row),
       {| Database.orders := [row]; order_items := [line]; next_order_number := 2 |})
    ∧ total_amount row = of_Z 1
    ∧ item_total_amount line = of_Z 560
    ∧ validateTotalAmount montana_items (of_Z 1) = Normal false
    ∧ validateTotalAmount montana_items (of_Z 560) = Normal true.
Proof. do 2 eexists. split; [vm_compute; reflexivity|]. by vm_compute. Qed.

End OrderPlacement.

(** ** Decimal rendering and parseInt *)

Section DecimalFacts.

Import JsNumber JsParse.

(** Case analysis on every integer comparison of the goal. *)
Ltac zbool_step :=
  match goal with
  | |- context [Z.eqb ?a ?b] => destruct (Z.eqb_spec a b); try lia
  | |- context [Z.leb ?a ?b] => destruct (Z.leb_spec a b); try lia
  | |- context [Z.ltb ?a ?b] => destruct (Z.ltb_spec a b); try lia
  end.

Ltac zbool := repeat (zbool_step; simpl); try reflexivity.

Lemma digit_char_small (d : Z) : 0 <= d < 10 → digit_char d = 48 + d.
Proof. unfold digit_char. intros H. zbool. Qed.

Lemma digit_char_dec (d : Z) : 0 <= d < 10 → dec_digit (digit_char d).
Proof. intros H. rewrite digit_char_small by done. unfold dec_digit. lia. Qed.

Lemma digit_val_digit_char (d : Z) : 0 <= d < 10 → digit_val (digit_char d) = Some d.
Proof.
  intros H. rewrite digit_char_small by done. unfold digit_val.
  zbool; f_equal; lia.
Qed.

Lemma dec_digit_is_digit (c : Z) : dec_digit c → is_digit 10 c = true.
Proof. unfold dec_digit, is_digit, digit_val. intros H. zbool. Qed.

Lemma dec_digit_not_space (c : Z) : dec_digit c → is_space c = false.
Proof. unfold dec_digit, is_space. intros H. zbool. Qed.

Lemma to_digits_dec (fuel : nat) (n : Z) (acc : jsstring) :
  0 <= n → Forall dec_digit acc → Forall dec_digit (to_digits fuel 10 n acc).
Proof.
  revert n acc. induction fuel as [|fuel IH]; intros n acc Hn Hacc; simpl; [done|].
  assert (dec_digit (digit_char (n mod 10))) by (apply digit_char_dec, Z.mod_pos_bound; lia).
  destruct (n / 10 =? 0).
  - by constructor.
  - apply IH; [apply Z.div_pos; lia | by constructor].
Qed.

Lemma to_digits_nonempty (fuel : nat) (radix n : Z) (acc : jsstring) :
  to_digits (S fuel) radix n acc ≠ [].
Proof.
  revert n acc. induction fuel as [|fuel IH]; intros n acc.
  - simpl. by destruct (n / radix =? 0).
  - change (to_digits (S (S fuel)) radix n acc)
      with (if n / radix =? 0 then digit_char (n mod radix) :: acc
            else to_digits (S fuel) radix (n / radix) (digit_char (n mod radix) :: acc)).
    destruct (n / radix =? 0); [done | apply IH].
Qed.

(** Reading the digits of [n] in front of [acc] is reading [acc] from [n]. *)
Lemma to_digits_value (fuel : nat) (n : Z) (acc : jsstring) :
  0 <= n → (Z.to_nat (Z.log2 n) < fuel)%nat →
  fold_left (fun v c => v * 10 + default 0 (digit_val c)) (to_digits fuel 10 n acc) 0
  = fold_left (fun v c => v * 10 + default 0 (digit_val c)) acc n.
Proof.
  revert n acc. induction fuel as [|fuel IH]; intros n acc Hn Hfuel; [lia|].
  simpl to_digits.
  assert (0 <= n mod 10 < 10) as Hmod by (apply Z.mod_pos_bound; lia).
  pose proof (Z.div_mod n 10 ltac:(lia)) as Hdm.
  destruct (Z.eqb_spec (n / 10) 0) as [H0|H0].
  - cbn [fold_left]. rewrite digit_val_digit_char by done. unfold default, id. f_equal. lia.
  - assert (0 < n / 10) as Hpos by (pose proof (Z.div_pos n 10); lia).
    rewrite IH.
    + cbn [fold_left]. rewrite digit_val_digit_char by done. unfold default, id. f_equal. lia.
    + lia.
    + pose proof (Z.log2_nonneg (n / 10)).
      assert (Z.log2 (n / 10) < Z.log2 n); [|lia].
      assert (n / 10 <= n / 2) as Hle by (apply Z.div_le_compat_l; lia).
      pose proof (Z.log2_le_mono _ _ Hle) as Hmono.
      assert (Z.log2 (n / 2) = Z.log2 n - 1).
      { rewrite <- Z.div2_div, Z.div2_spec, Z.log2_shiftr by lia.
        assert (0 < Z.log2 n); [|lia].
        apply Z.log2_pos. lia. }
      lia.
Qed.

Lemma span_digits_all (ds : jsstring) :
  Forall dec_digit ds → span_digits 10 ds = (ds, []).
Proof.
  induction 1 as [|c ds Hc _ IH]; simpl; [done|].
  by rewrite dec_digit_is_digit, IH.
Qed.



Lemma toString_nonempty (radix z : Z) : toString_radix radix z ≠ [].
Proof.
  unfold toString_radix. destruct (z <? 0); [done|]. apply to_digits_nonempty.
Qed.


End DecimalFacts.

(** ** Tracking lookup: GET /api/order-tracking *)

Section TrackingLookup.

Import JsNumber JsParse JsValue Database Http OrdersRoute OrderTrackingRoute Scenarios.








(** The parameters go through parseInt, which reads a numeric prefix: a
    parameter that starts with the digits of V reads as V. *)
Example tracking_lookup_reads_numeric_prefix :
  fst (GET_configured get_env (Some (lit "1")) (Some (lit "5500abc"))
         (snd (POST_configured post_env (Normal montana_body) empty_store)))
  = fst (GET_configured get_env (Some (lit "1")) (Some (lit "5500"))
           (snd (POST_configured post_env (Normal montana_body) empty_store)))
  ∧ status_code
      (fst (GET_configured get_env (Some (lit "1")) (Some (lit "5501"))
              (snd (POST_configured post_env (Normal montana_body) empty_store))))
    = 404.
Proof. split; reflexivity. Qed.

End TrackingLookup.

(** ** SecurityManager.checkOrderCreationRateLimit *)

Section RateLimit.

Import SecurityManager Scenarios.

Implicit Types (m : attempts_map) (calls : list (Z * option jsstring))
  (results : list bool) (tok : jsstring).

(** One call, in terms of the attempts recorded for its token. *)
Lemma check_unfold (now : Z) (clientId : option jsstring) m :
  checkOrderCreationRateLimit now clientId m =
  let kept := recent now (default [] (m !! token clientId)) in
  if (length kept <? maxAttempts)%nat
  then (true, <[token clientId := kept ++ [now]]> m)
  else (false, m).
Proof.
  unfold checkOrderCreationRateLimit, recent, token. cbv zeta.
  rewrite Nat.ltb_antisym. by destruct (maxAttempts <=? _)%nat.
Qed.

Lemma recent_app (now : Z) (l k : list Z) : recent now (l ++ k) = recent now l ++ recent now k.
Proof. apply List.filter_app. Qed.

(** Attempts that have left the window stay out as the clock advances. *)
Lemma recent_recent (now0 now : Z) (l : list Z) :
  now0 <= now → recent now (recent now0 l) = recent now l.
Proof.
  intros Hle. unfold recent. induction l as [|x l IH]; simpl; [done|].
  destruct (Z.ltb_spec (now0 - x) windowMs) as [H0|H0]; simpl.
  - by rewrite IH.
  - rewrite IH. destruct (Z.ltb_spec (now - x) windowMs); [lia | done].
Qed.

Lemma allowed_times_app tok calls calls' results results' :
  length calls = length results →
  allowed_times tok (calls ++ calls') (results ++ results')
  = allowed_times tok calls results ++ allowed_times tok calls' results'.
Proof.
  revert results. induction calls as [|[now c] calls IH]; intros [|b results] Hlen;
    simpl in *; try done.
  destruct (b && JsString.eqb (token c) tok); simpl; rewrite IH; try done; lia.
Qed.

Lemma length_answers m calls : length (answers m calls) = length calls.
Proof.
  revert m. induction calls as [|[now c] calls IH]; intros m; simpl; [done|].
  destruct (checkOrderCreationRateLimit now c m) as [b m']. simpl. by rewrite IH.
Qed.

Lemma in_window_app (t0 : Z) (l k : list Z) :
  in_window t0 (l ++ k) = in_window t0 l ++ in_window t0 k.
Proof. apply List.filter_app. Qed.

Lemma in_window_recent (t0 now : Z) (l : list Z) :
  t0 <= now < t0 + windowMs →
  (length (in_window t0 l) <= length (recent now l))%nat.
Proof.
  intros Hnow. unfold in_window, recent. induction l as [|x l IH]; simpl; [done|].
  destruct (Z.leb_spec t0 x); destruct (Z.ltb_spec x (t0 + windowMs));
    destruct (Z.ltb_spec (now - x) windowMs); simpl; lia.
Qed.

Lemma agrees_step m hc hr t now c :
  length hc = length hr → agrees m hc hr t → t <= now →
  agrees (snd (checkOrderCreationRateLimit now c m)) (hc ++ [(now, c)])
         (hr ++ [fst (checkOrderCreationRateLimit now c m)]) now.
Proof.
  intros Hlen Hag Ht tok now' Hnow'. rewrite check_unfold. cbv zeta.
  rewrite allowed_times_app by done.
  destruct (length (recent now (default [] (m !! token c))) <? maxAttempts)%nat; simpl.
  - destruct (JsString.eqb (token c) tok) eqn:E.
    + apply eqb_eq in E as <-. rewrite lookup_insert_eq. simpl.
      rewrite !recent_app, recent_recent by done. f_equal. apply Hag. lia.
    + apply eqb_neq in E. rewrite lookup_insert_ne by done.
      rewrite app_nil_r. apply Hag. lia.
  - rewrite app_nil_r. apply Hag. lia.
Qed.

Lemma bounded_step m hc hr t now c :
  length hc = length hr → agrees m hc hr t → t <= now → bounded hc hr →
  bounded (hc ++ [(now, c)]) (hr ++ [fst (checkOrderCreationRateLimit now c m)]).
Proof.
  intros Hlen Hag Ht Hb tok t0. rewrite check_unfold. cbv zeta.
  rewrite allowed_times_app by done.
  destruct (length (recent now (default [] (m !! token c))) <? maxAttempts)%nat eqn:Hlt;
    simpl; [|rewrite app_nil_r; apply Hb].
  destruct (JsString.eqb (token c) tok) eqn:E; [|rewrite app_nil_r; apply Hb].
  apply eqb_eq in E as <-. apply Nat.ltb_lt in Hlt.
  rewrite in_window_app, length_app.
  destruct (decide (t0 <= now < t0 + windowMs)) as [Hin|Hout].
  - pose proof (in_window_recent t0 now (allowed_times (token c) hc hr) Hin) as Hle.
    rewrite <- (Hag (token c) now Ht) in Hle.
    assert (length (in_window t0 [now]) <= 1)%nat
      by (unfold in_window; simpl; case_match; simpl; lia).
    lia.
  - assert (in_window t0 [now] = []) as ->.
    { unfold in_window. simpl.
      destruct (Z.leb_spec t0 now); destruct (Z.ltb_spec now (t0 + windowMs)); simpl;
        try done; lia. }
    specialize (Hb (token c) t0). simpl. lia.
Qed.

(** The run of a chronological sequence of calls from a map that agrees
    with the history before it. *)
Lemma run_from m hc hr t calls :
  length hc = length hr → agrees m hc hr t → bounded hc hr → chronological t calls →
  (∀ pre now c post,
      calls = pre ++ (now, c) :: post →
      answers m calls !! length pre
      = Some (length (recent now (allowed_times (token c) (hc ++ pre)
                                   (hr ++ answers m pre))) <? maxAttempts)%nat)
  ∧ bounded (hc ++ calls) (hr ++ answers m calls).
Proof.
  revert m hc hr t. induction calls as [|[now0 c0] calls IH]; intros m hc hr t Hlen Hag Hb Hch.
  - split; [intros [|] ? ? ?; discriminate | by rewrite !app_nil_r].
  - destruct Hch as [Ht Hch].
    pose proof (agrees_step m hc hr t now0 c0 Hlen Hag Ht) as Hag'.
    pose proof (bounded_step m hc hr t now0 c0 Hlen Hag Ht Hb) as Hb'.
    assert (length (hc ++ [(now0, c0)])
            = length (hr ++ [fst (checkOrderCreationRateLimit now0 c0 m)])) as Hlen'
      by (rewrite !length_app; simpl; lia).
    destruct (IH _ _ _ _ Hlen' Hag' Hb' Hch) as [IHeach IHb].
    simpl answers.
    destruct (checkOrderCreationRateLimit now0 c0 m) as [b0 m'] eqn:Hcheck.
    simpl in *. split.
    + intros [|[now1 c1] pre] now c post Heq.
      * injection Heq as <- <- <-. simpl. rewrite !app_nil_r.
        rewrite check_unfold in Hcheck. cbv zeta in Hcheck.
        rewrite <- (Hag (token c0) now0 Ht).
        destruct (length _ <? maxAttempts)%nat; by injection Hcheck as <- _.
      * injection Heq as <- <- Heq. simpl.
        rewrite (IHeach pre now c post Heq).
        rewrite Hcheck. simpl. by rewrite <- !app_assoc.
    + by rewrite <- !app_assoc in IHb.
Qed.

(** C6: take any sequence of calls whose clock readings never go back,
    starting from the empty map.  Each call is answered true exactly when
    fewer than 5 earlier calls with the same token that were answered true
    lie less than 60 seconds before it; a call answered true is recorded
    last under its token and a call answered false changes nothing; and no
    window of 60 seconds holds more than 5 calls answered true for one
    token. *)
Theorem rate_limit_sliding_window (calls : list (Z * option jsstring)) (t : Z) :
  chronological t calls →
  (∀ pre now c post,
      calls = pre ++ (now, c) :: post →
      answers ∅ calls !! length pre
      = Some (length (recent now (allowed_times (token c) pre (answers ∅ pre)))
              <? maxAttempts)%nat)
  ∧ (∀ tok t0,
        (length (in_window t0 (allowed_times tok calls (answers ∅ calls))) <= 5)%nat)
  ∧ (∀ now c m,
        match checkOrderCreationRateLimit now c m with
        | (true, m') => ∃ kept, m' !! token c = Some (kept ++ [now])
        | (false, m') => m' = m
        end).
Proof.
  intros Hch.
  destruct (run_from ∅ [] [] t calls eq_refl) as [Heach Hb]; [| |done|].
  - intros tok now _. by rewrite lookup_empty.
  - intros tok t0. simpl. lia.
  - split; [exact Heach|]. split; [exact Hb|].
    intros now c m. rewrite check_unfold. cbv zeta.
    destruct (length _ <? maxAttempts)%nat; [|done].
    eexists. apply lookup_insert_eq.
Qed.

(** Six calls of one client within a second, then a seventh a minute
    later: five are let through, the sixth is refused, the seventh passes. *)
Lemma rate_limit_sliding_window_witness :
  answers ∅ [(0, None); (100, None); (200, None); (300, None); (400, None);
             (500, None); (60400, None)]
  = [true; true; true; true; true; false; true]
  ∧ answers ∅ [(0, None); (100, None); (200, None); (300, None); (400, None);
               (500, None); (60400, None)] !! 5%nat
    = Some false.
Proof.
  split; [reflexivity|].
  exact (proj1 (rate_limit_sliding_window
                  [(0, None); (100, None); (200, None); (300, None); (400, None);
                   (500, None); (60400, None)] 0
                  ltac:(simpl; lia))
           [(0, None); (100, None); (200, None); (300, None); (400, None)]
           500 None [(60400, None)] eq_refl).
Defined.

End RateLimit.

(** ** TrackingSystem: subscriptions *)

Section Subscriptions.

Import TrackingSystem.

Implicit Types (s : state) (cb : callback) (l : list callback) (o : op).

Lemma occurrences_app cb l k : occurrences cb (l ++ k) = (occurrences cb l + occurrences cb k)%nat.
Proof. unfold occurrences. by rewrite List.filter_app, length_app. Qed.

Lemma occurrences_zero cb l : occurrences cb l = 0%nat ↔ cb ∉ l.
Proof.
  unfold occurrences. induction l as [|x l IH]; simpl.
  - split; [intros _; apply not_elem_of_nil | done].
  - rewrite not_elem_of_cons. destruct (Nat.eqb_spec cb x); simpl.
    + split; [lia | intros [? _]; done].
    + rewrite IH. tauto.
Qed.

Lemma occurrences_remove_first_same cb l :
  occurrences cb (remove_first cb l) = pred (occurrences cb l).
Proof.
  unfold occurrences. induction l as [|x l IH]; simpl; [done|].
  destruct (Nat.eqb_spec x cb) as [->|Hne].
  - by rewrite Nat.eqb_refl.
  - simpl. destruct (Nat.eqb_spec cb x); [congruence | done].
Qed.

Lemma occurrences_remove_first_le cb x l :
  (occurrences cb (remove_first x l) <= occurrences cb l)%nat.
Proof.
  unfold occurrences. induction l as [|y l IH]; simpl; [done|].
  destruct (Nat.eqb y x); simpl; destruct (Nat.eqb cb y); simpl; lia.
Qed.

Lemma subscribers_saveToStorage s : subscribers (saveToStorage s) = subscribers s.
Proof. unfold saveToStorage. by destruct (has_window s). Qed.

Lemma calls_saveToStorage s : calls (saveToStorage s) = calls s.
Proof. unfold saveToStorage. by destruct (has_window s). Qed.

Lemma subscribers_updateOrderStatus now n st s :
  subscribers (updateOrderStatus now n st s) = subscribers s.
Proof.
  unfold updateOrderStatus. destruct (statusUpdates s !! n); [|done].
  simpl. by rewrite subscribers_saveToStorage.
Qed.

Lemma calls_updateOrderStatus now n st s :
  calls (updateOrderStatus now n st s)
  = calls s ++ match statusUpdates s !! n with
               | Some _ => map (fun cb => OrderCallback cb st) (default [] (subscribers s !! n))
               | None => []
               end.
Proof.
  unfold updateOrderStatus. destruct (statusUpdates s !! n); [|by rewrite app_nil_r].
  simpl. by rewrite calls_saveToStorage, subscribers_saveToStorage.
Qed.

(** An operation that does not subscribe [cb] does not add occurrences of
    [cb] to any subscriber array. *)
Lemma step_registered_at_most cb bound s o :
  subscribes cb o = false → registered_at_most cb bound s →
  registered_at_most cb bound (step s o).
Proof.
  intros Hsub Hs n l.
  destruct o as [now0 n0 v0 | now0 n0 st0 | n0 cb0 | n0 cb0 | now0 n0 | n0 | cb0 | cb0 | ];
    simpl in *.
  - unfold initializeOrder. rewrite subscribers_saveToStorage. apply Hs.
  - rewrite subscribers_updateOrderStatus. apply Hs.
  - unfold subscribeToOrder. simpl.
    destruct (decide (n0 = n)) as [->|Hne].
    + rewrite lookup_insert_eq. intros [= <-].
      rewrite occurrences_app. unfold occurrences at 2. simpl.
      rewrite Nat.eqb_sym, Hsub. simpl.
      destruct (subscribers s !! n) as [l0|] eqn:E.
      * rewrite E. simpl. specialize (Hs n l0 E). lia.
      * rewrite lookup_insert_eq. simpl. unfold occurrences. simpl. lia.
    + rewrite lookup_insert_ne by done.
      destruct (subscribers s !! n0); [apply Hs|].
      rewrite lookup_insert_ne by done. apply Hs.
  - unfold unsubscribe. destruct (subscribers s !! n0) as [l0|] eqn:E; [|apply Hs].
    simpl. destruct (decide (n0 = n)) as [->|Hne].
    + rewrite lookup_insert_eq. intros [= <-].
      pose proof (occurrences_remove_first_le cb cb0 l0). specialize (Hs n l0 E). lia.
    + rewrite lookup_insert_ne by done. apply Hs.
  - unfold simulateStatusUpdate, getOrderTracking.
    destruct (statusUpdates s !! n0); [|apply Hs].
    rewrite subscribers_updateOrderStatus. apply Hs.
  - unfold setCurrentOrderBeingPrepared. simpl. rewrite subscribers_saveToStorage. apply Hs.
  - apply Hs.
  - apply Hs.
  - unfold resetSystem. rewrite subscribers_saveToStorage. simpl.
    rewrite lookup_empty. discriminate.
Qed.

Lemma run_registered_at_most cb bound s ops :
  forallb (fun o => negb (subscribes cb o)) ops = true →
  registered_at_most cb bound s → registered_at_most cb bound (run s ops).
Proof.
  revert s. induction ops as [|o ops IH]; intros s Hops Hs; [done|].
  simpl in Hops. apply andb_true_iff in Hops as [Ho Hops].
  apply negb_true_iff in Ho. simpl. apply IH; [done|].
  by apply step_registered_at_most.
Qed.

Lemma order_calls_of_app cb (a b : list invocation) :
  order_calls_of cb (a ++ b) = order_calls_of cb a ++ order_calls_of cb b.
Proof. apply omap_app. Qed.

Lemma order_calls_of_absent cb st l :
  cb ∉ l → order_calls_of cb (map (fun c => OrderCallback c st) l) = [].
Proof.
  induction l as [|x l IH]; [done|]. rewrite not_elem_of_cons. intros [Hne Hl].
  unfold order_calls_of in *. simpl.
  destruct (Nat.eqb_spec x cb); [congruence | by apply IH].
Qed.

Lemma order_calls_of_current cb v l :
  order_calls_of cb (map (fun c => CurrentOrderCallback c v) l) = [].
Proof. induction l as [|x l IH]; [done | exact IH]. Qed.

(** While [cb] is in no subscriber array, no operation calls it as an
    order subscriber. *)
Lemma step_no_call cb s o :
  registered_at_most cb (fun _ => 0%nat) s →
  order_calls_of cb (calls (step s o)) = order_calls_of cb (calls s).
Proof.
  intros Hs.
  assert (∀ now n st, order_calls_of cb (calls (updateOrderStatus now n st s))
                      = order_calls_of cb (calls s)) as Hupdate.
  { intros now n st. rewrite calls_updateOrderStatus, order_calls_of_app.
    destruct (statusUpdates s !! n); [|by rewrite app_nil_r].
    rewrite order_calls_of_absent; [by rewrite app_nil_r|].
    destruct (subscribers s !! n) as [l|] eqn:E; [|apply not_elem_of_nil].
    simpl. apply occurrences_zero. specialize (Hs n l E). simpl in Hs. lia. }
  destruct o as [now0 n0 v0 | now0 n0 st0 | n0 cb0 | n0 cb0 | now0 n0 | n0 | cb0 | cb0 | ];
    simpl.
  - unfold initializeOrder. by rewrite calls_saveToStorage.
  - apply Hupdate.
  - reflexivity.
  - unfold unsubscribe. by destruct (subscribers s !! n0).
  - unfold simulateStatusUpdate, getOrderTracking.
    destruct (statusUpdates s !! n0); [apply Hupdate | done].
  - unfold setCurrentOrderBeingPrepared. simpl.
    rewrite calls_saveToStorage. simpl.
    by rewrite order_calls_of_app, order_calls_of_current, app_nil_r.
  - reflexivity.
  - reflexivity.
  - unfold resetSystem. by rewrite calls_saveToStorage.
Qed.

Lemma run_no_call cb s ops :
  forallb (fun o => negb (subscribes cb o)) ops = true →
  registered_at_most cb (fun _ => 0%nat) s →
  order_calls_of cb (calls (run s ops)) = order_calls_of cb (calls s).
Proof.
  revert s. induction ops as [|o ops IH]; intros s Hops Hs; [done|].
  simpl in Hops. apply andb_true_iff in Hops as [Ho Hops].
  apply negb_true_iff in Ho. simpl. rewrite IH; [by apply step_no_call | done |].
  by apply step_registered_at_most.
Qed.

(** C7: let a callback that is in no subscriber array be subscribed once to
    an order, let the application go on without subscribing it again, and
    let the function returned by that subscription be called.  Whatever
    follows (status updates of any order included), as long as the callback
    is not subscribed again, the callback is never called again. *)
Theorem unsubscribe_stops_callbacks
    (s : state) (n : Z) (cb : callback) (before after : list op) :
  unregistered cb s →
  forallb (fun o => negb (subscribes cb o)) before = true →
  forallb (fun o => negb (subscribes cb o)) after = true →
  let unsubscribed := unsubscribe n cb (run (subscribeToOrder n cb s) before) in
  unregistered cb unsubscribed
  ∧ order_calls_of cb (calls (run unsubscribed after)) = order_calls_of cb (calls unsubscribed).
Proof.
  intros Hs Hbefore Hafter unsubscribed.
  assert (registered_at_most cb (fun n' => if decide (n' = n) then 1 else 0)%nat
            (subscribeToOrder n cb s)) as Hsubscribed.
  { intros n' l. unfold subscribeToOrder. simpl.
    destruct (decide (n' = n)) as [->|Hne].
    - rewrite lookup_insert_eq. intros [= <-].
      rewrite occurrences_app. unfold occurrences at 2. simpl. rewrite Nat.eqb_refl. simpl.
      destruct (subscribers s !! n) as [l0|] eqn:E.
      + rewrite E. simpl. apply Hs, occurrences_zero in E. lia.
      + rewrite lookup_insert_eq. simpl. unfold occurrences. simpl. lia.
    - rewrite lookup_insert_ne by done.
      assert (subscribers s !! n' = Some l → (occurrences cb l <= 0)%nat) as H0.
      { intros E. apply Hs, occurrences_zero in E. lia. }
      destruct (subscribers s !! n); [done|]. by rewrite lookup_insert_ne. }
  pose proof (run_registered_at_most cb _ _ before Hbefore Hsubscribed) as Hrun.
  assert (registered_at_most cb (fun _ => 0%nat) unsubscribed) as Hnone.
  { intros n' l. unfold unsubscribed, unsubscribe.
    destruct (subscribers (run (subscribeToOrder n cb s) before) !! n) as [l0|] eqn:E.
    - simpl. destruct (decide (n' = n)) as [->|Hne].
      + rewrite lookup_insert_eq. intros [= <-].
        rewrite occurrences_remove_first_same.
        specialize (Hrun n l0 E). simpl in Hrun. rewrite decide_True in Hrun by done. lia.
      + rewrite lookup_insert_ne by done. intros E'.
        specialize (Hrun n' l E'). simpl in Hrun. by rewrite decide_False in Hrun.
    - intros E'. specialize (Hrun n' l E'). simpl in Hrun.
      destruct (decide (n' = n)) as [->|]; [congruence | done]. }
  split.
  - intros n' l E. apply occurrences_zero. specialize (Hnone n' l E). simpl in Hnone. lia.
  - by apply run_no_call.
Qed.

(** Callback 1 sees order 7 being prepared, unsubscribes, and is not told
    that the order became ready and completed; callback 2 is. *)
Lemma unsubscribe_stops_callbacks_witness :
  order_calls_of 1%nat
    (calls (run (unsubscribe 7 1%nat
                   (run (subscribeToOrder 7 1%nat Scenarios.fresh_tracking)
                        Scenarios.while_subscribed))
                Scenarios.after_unsubscribe))
  = [preparing]
  ∧ order_calls_of 2%nat
      (calls (run (unsubscribe 7 1%nat
                     (run (subscribeToOrder 7 1%nat Scenarios.fresh_tracking)
                          Scenarios.while_subscribed))
                  Scenarios.after_unsubscribe))
    = [completed].
Proof.
  split; [|reflexivity].
  rewrite (proj2 (unsubscribe_stops_callbacks Scenarios.fresh_tracking 7 1%nat
                    Scenarios.while_subscribed Scenarios.after_unsubscribe
                    ltac:(intros n l H; destruct (lookup_empty_Some (M := gmap Z) n l H))
                    eq_refl eq_refl)).
  reflexivity.
Defined.

End Subscriptions.

(** ** btoa and atob *)

Section Base64Facts.

Import JsValue Base64.

(** A property of bytes decided by running it on the 256 bytes. *)
Lemma byte_cases (P : Z → bool) :
  forallb P (seqZ 0 256) = true → ∀ a, 0 <= a < 256 → P a = true.
Proof.
  intros H a Ha. rewrite forallb_forall in H. apply H.
  apply list_elem_of_In, elem_of_seqZ. lia.
Qed.

Lemma byte_pair_cases (P : Z → Z → bool) :
  forallb (fun a => forallb (P a) (seqZ 0 256)) (seqZ 0 256) = true →
  ∀ a b, 0 <= a < 256 → 0 <= b < 256 → P a b = true.
Proof.
  intros H a b Ha Hb.
  apply (byte_cases (P a)); [|done].
  by apply (byte_cases (fun a => forallb (P a) (seqZ 0 256))).
Qed.

Ltac unpack_checks H :=
  repeat (apply andb_true_iff in H as [H ?]);
  repeat match goal with
    | H' : (_ =? _) = true |- _ => apply Z.eqb_eq in H'
    | H' : (_ <=? _) = true |- _ => apply Z.leb_le in H'
    | H' : (_ <? _) = true |- _ => apply Z.ltb_lt in H'
    end.

(** The second 6-bit group, made of the low bits of [a] and the high bits
    of [b]. *)
Lemma second_sextet (a b : Z) :
  0 <= a < 256 → 0 <= b < 256 →
  let q := Z.lor (Z.shiftl (Z.land a 3) 4) (Z.shiftr b 4) in
  Z.lor (Z.shiftl (Z.shiftr a 2) 2) (Z.shiftr q 4) = a
  ∧ Z.land q 15 = Z.shiftr b 4
  ∧ 0 <= q < 64.
Proof.
  intros Ha Hb.
  pose proof (byte_pair_cases
    (fun a b =>
       let q := Z.lor (Z.shiftl (Z.land a 3) 4) (Z.shiftr b 4) in
       (Z.lor (Z.shiftl (Z.shiftr a 2) 2) (Z.shiftr q 4) =? a)
       && (Z.land q 15 =? Z.shiftr b 4) && (0 <=? q) && (q <? 64))
    ltac:(vm_compute; reflexivity) a b Ha Hb) as H.
  cbv zeta in *. unpack_checks H. auto.
Qed.

(** The third 6-bit group, made of the low bits of [b] and the high bits
    of [c]. *)
Lemma third_sextet (b c : Z) :
  0 <= b < 256 → 0 <= c < 256 →
  let r := Z.lor (Z.shiftl (Z.land b 15) 2) (Z.shiftr c 6) in
  Z.shiftr r 2 = Z.land b 15
  ∧ Z.lor (Z.shiftl (Z.land r 3) 6) (Z.land c 63) = c
  ∧ 0 <= r < 64.
Proof.
  intros Hb Hc.
  pose proof (byte_pair_cases
    (fun b c =>
       let r := Z.lor (Z.shiftl (Z.land b 15) 2) (Z.shiftr c 6) in
       (Z.shiftr r 2 =? Z.land b 15)
       && (Z.lor (Z.shiftl (Z.land r 3) 6) (Z.land c 63) =? c)
       && (0 <=? r) && (r <? 64))
    ltac:(vm_compute; reflexivity) b c Hb Hc) as H.
  cbv zeta in *. unpack_checks H. auto.
Qed.

(** The groups that depend on one byte only. *)
Lemma one_byte_sextets (b : Z) :
  0 <= b < 256 →
  Z.lor (Z.shiftl (Z.shiftr b 4) 4) (Z.land b 15) = b
  ∧ 0 <= Z.shiftr b 2 < 64
  ∧ 0 <= Z.land b 63 < 64
  ∧ Z.shiftr (Z.shiftl (Z.land b 15) 2) 2 = Z.land b 15
  ∧ 0 <= Z.shiftl (Z.land b 15) 2 < 64
  ∧ Z.lor (Z.shiftl (Z.shiftr b 2) 2) (Z.shiftr (Z.shiftl (Z.land b 3) 4) 4) = b
  ∧ 0 <= Z.shiftl (Z.land b 3) 4 < 64.
Proof.
  intros Hb.
  pose proof (byte_cases
    (fun b =>
       (Z.lor (Z.shiftl (Z.shiftr b 4) 4) (Z.land b 15) =? b)
       && (0 <=? Z.shiftr b 2) && (Z.shiftr b 2 <? 64)
       && (0 <=? Z.land b 63) && (Z.land b 63 <? 64)
       && (Z.shiftr (Z.shiftl (Z.land b 15) 2) 2 =? Z.land b 15)
       && (0 <=? Z.shiftl (Z.land b 15) 2) && (Z.shiftl (Z.land b 15) 2 <? 64)
       && (Z.lor (Z.shiftl (Z.shiftr b 2) 2) (Z.shiftr (Z.shiftl (Z.land b 3) 4) 4) =? b)
       && (0 <=? Z.shiftl (Z.land b 3) 4) && (Z.shiftl (Z.land b 3) 4 <? 64))
    ltac:(vm_compute; reflexivity) b Hb) as H.
  unpack_checks H. auto 10.
Qed.

(** Induction on byte strings, three bytes at a time. *)
Lemma triple_ind (P : list Z → Prop) :
  P [] → (∀ a, P [a]) → (∀ a b, P [a; b]) →
  (∀ a b c l, P l → P (a :: b :: c :: l)) →
  ∀ l, P l.
Proof.
  intros H0 H1 H2 H3 l.
  assert (P l ∧ (∀ a, P (a :: l)) ∧ (∀ a b, P (a :: b :: l))) as [H _]; [|done].
  induction l as [|x l (IH0 & IH1 & IH2)]; [by auto|].
  split; [apply IH1|]. split; [intros a; apply IH2|].
  intros a b. by apply H3.
Qed.

Lemma sextets_range (s : list Z) : Forall is_byte s → Forall is_sextet (sextets s).
Proof.
  induction s as [| a | a b | a b c s IH] using triple_ind; intros Hs.
  - constructor.
  - inversion Hs as [|? ? Ha _]; subst.
    destruct (one_byte_sextets a Ha) as (_ & ? & _ & _ & _ & _ & ?).
    simpl. repeat (apply Forall_cons_2; [done|]). apply Forall_nil_2.
  - inversion Hs as [|? ? Ha Hs']; subst. inversion Hs' as [|? ? Hb _]; subst.
    destruct (one_byte_sextets a Ha) as (_ & ? & _).
    destruct (one_byte_sextets b Hb) as (_ & _ & _ & _ & ? & _).
    destruct (second_sextet a b Ha Hb) as (_ & _ & ?).
    simpl. repeat (apply Forall_cons_2; [done|]). apply Forall_nil_2.
  - inversion Hs as [|? ? Ha Hs']; subst. inversion Hs' as [|? ? Hb Hs'']; subst.
    inversion Hs'' as [|? ? Hc Hrest]; subst.
    destruct (one_byte_sextets a Ha) as (_ & ? & _).
    destruct (one_byte_sextets c Hc) as (_ & _ & ? & _).
    destruct (second_sextet a b Ha Hb) as (_ & _ & ?).
    destruct (third_sextet b c Hb Hc) as (_ & _ & ?).
    simpl. repeat (apply Forall_cons_2; [done|]). by apply IH.
Qed.

(** The 6-bit groups of a byte string hold exactly its bits. *)
Lemma bytes_of_sextets_sextets (s : list Z) :
  Forall is_byte s → bytes_of_sextets (sextets s) = s.
Proof.
  induction s as [| a | a b | a b c s IH] using triple_ind; intros Hs.
  - done.
  - inversion Hs as [|? ? Ha _]; subst.
    destruct (one_byte_sextets a Ha) as (_ & _ & _ & _ & _ & Heq & _).
    simpl. by rewrite Heq.
  - inversion Hs as [|? ? Ha Hs']; subst. inversion Hs' as [|? ? Hb _]; subst.
    destruct (one_byte_sextets b Hb) as (Hb1 & _ & _ & Hb2 & _).
    destruct (second_sextet a b Ha Hb) as (Hq1 & Hq2 & _).
    simpl. by rewrite Hq1, Hq2, Hb2, Hb1.
  - inversion Hs as [|? ? Ha Hs']; subst. inversion Hs' as [|? ? Hb Hs'']; subst.
    inversion Hs'' as [|? ? Hc Hrest]; subst.
    destruct (one_byte_sextets b Hb) as (Hb1 & _).
    destruct (second_sextet a b Ha Hb) as (Hq1 & Hq2 & _).
    destruct (third_sextet b c Hb Hc) as (Hr1 & Hr2 & _).
    simpl. rewrite Hq1, Hq2, Hr1, Hr2, Hb1. by rewrite IH.
Qed.

Lemma length_sextets_mod (s : list Z) :
  (length (sextets s) mod 4 ≠ 1)%nat.
Proof.
  induction s as [| a | a b | a b c s IH] using triple_ind; simpl length;
    try (vm_compute; discriminate).
  replace (S (S (S (S (length (sextets s)))))) with (length (sextets s) + 1 * 4)%nat by lia.
  by rewrite Nat.Div0.mod_add.
Qed.

Lemma sextet_cases (P : Z → bool) :
  forallb P (seqZ 0 64) = true → ∀ v, is_sextet v → P v = true.
Proof.
  intros H v Hv. rewrite forallb_forall in H. apply H.
  apply list_elem_of_In, elem_of_seqZ. unfold is_sextet in Hv. lia.
Qed.

(** A character of the alphabet reads back as its value, is not
    whitespace and is not the padding character. *)
Lemma b64_char_spec (v : Z) :
  is_sextet v →
  b64_val (b64_char v) = Some v
  ∧ is_ascii_whitespace (b64_char v) = false
  ∧ (b64_char v =? 61) = false.
Proof.
  intros Hv.
  pose proof (sextet_cases
    (fun v => match b64_val (b64_char v) with Some w => w =? v | None => false end
              && negb (is_ascii_whitespace (b64_char v))
              && negb (b64_char v =? 61))
    ltac:(vm_compute; reflexivity) v Hv) as H.
  apply andb_true_iff in H as [H H3]. apply andb_true_iff in H as [H1 H2].
  apply negb_true_iff in H2, H3.
  destruct (b64_val (b64_char v)) as [w|]; [|discriminate].
  apply Z.eqb_eq in H1 as ->. done.
Qed.

Lemma mapM_b64_val (v : list Z) :
  Forall is_sextet v → mapM b64_val (map b64_char v) = Some v.
Proof.
  induction 1 as [|x v Hx _ IH]; [done|].
  destruct (b64_char_spec x Hx) as (Hval & _).
  simpl. rewrite Hval. simpl. rewrite IH. done.
Qed.

Lemma filter_whitespace_b64 (v : list Z) (n : nat) :
  Forall is_sextet v →
  List.filter (fun c => negb (is_ascii_whitespace c)) (map b64_char v ++ replicate n 61)
  = map b64_char v ++ replicate n 61.
Proof.
  intros Hv. rewrite List.filter_app. f_equal.
  - induction Hv as [|x v Hx _ IH]; [done|].
    destruct (b64_char_spec x Hx) as (_ & Hws & _).
    simpl. by rewrite Hws, IH.
  - induction n as [|n IH]; [done|]. simpl. by rewrite IH.
Qed.

(** The padding that btoa appends is the padding that atob removes. *)
Lemma strip_padding_padded (v : list Z) :
  Forall is_sextet v → (length v mod 4 ≠ 1)%nat →
  strip_padding (map b64_char v ++ replicate ((4 - length v mod 4) mod 4)%nat 61)
  = map b64_char v.
Proof.
  intros Hv Hmod.
  assert (rev (map b64_char v) = map b64_char (rev v)) as Hrev by (by rewrite map_rev).
  assert (∀ x r, rev v = x :: r → (b64_char x =? 61) = false) as Hlast.
  { intros x r Hx. apply b64_char_spec.
    apply List.Forall_rev in Hv. rewrite Hx in Hv. by inversion Hv. }
  pose proof (Nat.mod_upper_bound (length v) 4 ltac:(lia)) as Hlt.
  pose proof (Nat.div_mod_eq (length v) 4) as Hdiv.
  unfold strip_padding. rewrite length_app, length_map, length_replicate, rev_app_distr.
  destruct (length v mod 4)%nat as [|[|[|[|k]]]] eqn:Hn; try lia.
  - change ((4 - 0) mod 4)%nat with 0%nat.
    replace (length v + 0)%nat with (0 + length v `div` 4 * 4)%nat by lia.
    rewrite Nat.Div0.mod_add. simpl. rewrite app_nil_r, Hrev.
    destruct (rev v) as [|x r] eqn:Hx; [done|]. simpl. by rewrite (Hlast x r).
  - change ((4 - 2) mod 4)%nat with 2%nat.
    replace (length v + 2)%nat with (0 + (length v `div` 4 + 1) * 4)%nat by lia.
    rewrite Nat.Div0.mod_add. simpl. by rewrite rev_involutive.
  - change ((4 - 3) mod 4)%nat with 1%nat.
    replace (length v + 1)%nat with (0 + (length v `div` 4 + 1) * 4)%nat by lia.
    rewrite Nat.Div0.mod_add. simpl. rewrite Hrev.
    destruct (rev v) as [|x r] eqn:Hx.
    + simpl. apply (f_equal (@rev Z)) in Hx. rewrite rev_involutive in Hx. by rewrite Hx.
    + simpl. rewrite (Hlast x r) by done.
      rewrite <- (rev_involutive (map b64_char v)), Hrev. reflexivity.
Qed.

(** atob undoes btoa on byte strings. *)
Lemma atob_btoa (s : jsstring) :
  Forall is_byte s → ∃ encoded, btoa s = Normal encoded ∧ atob encoded = Normal s.
Proof.
  intros Hs. unfold btoa.
  assert (forallb (fun c => c <=? 255) s = true) as ->.
  { apply forallb_forall. intros c Hc. apply list_elem_of_In in Hc.
    rewrite Forall_forall in Hs. specialize (Hs c Hc). unfold is_byte in Hs.
    apply Z.leb_le. lia. }
  eexists. split; [reflexivity|].
  pose proof (sextets_range s Hs) as Hv.
  unfold atob. rewrite filter_whitespace_b64 by done.
  rewrite strip_padding_padded by (done || apply length_sextets_mod).
  rewrite length_map.
  destruct (Nat.eqb_spec (length (sextets s) mod 4) 1) as [H1|_].
  - by apply length_sextets_mod in H1.
  - rewrite mapM_b64_val by done. by rewrite bytes_of_sextets_sextets.
Qed.

End Base64Facts.

(** ** SecurityManager.encryptData and decryptData *)

Section Encryption.

Import JsParse JsValue Base64 SecurityManager.

Lemma simpleHash_nonempty (str : jsstring) : simpleHash str ≠ [].
Proof.
  unfold simpleHash. intros H. apply app_eq_nil in H as [H _].
  by apply toString_nonempty in H.
Qed.

Lemma key_char_Some (key : list Z) (i : nat) :
  key ≠ [] → ∃ keyChar, key_char key i = Some keyChar.
Proof.
  intros Hne. unfold key_char. apply lookup_lt_is_Some_2.
  apply Nat.mod_upper_bound. by destruct key.
Qed.

(** Subtracting the key character modulo 256 undoes adding it. *)
Lemma unshift (dataChar keyChar : Z) :
  is_byte dataChar →
  let shifted := (dataChar + keyChar) mod 256 in
  let originalChar := Z.rem (shifted - keyChar) 256 in
  (if originalChar <? 0 then originalChar + 256 else originalChar) = dataChar.
Proof.
  unfold is_byte. intros Hd. cbv zeta.
  destruct (Z.ltb_spec (Z.rem ((dataChar + keyChar) mod 256 - keyChar) 256) 0);
    Z.to_euclidean_division_equations; lia.
Qed.

Lemma encrypt_round_bytes (key data : list Z) : Forall is_byte (encrypt_round key data).
Proof.
  apply Forall_lookup. intros i x. unfold encrypt_round.
  rewrite list_lookup_imap. destruct (data !! i) as [d|]; simpl; [|done].
  intros [= <-]. unfold is_byte. destruct (key_char key i); [|lia].
  apply Z.mod_pos_bound. lia.
Qed.

(** One decryption round undoes the encryption round with the same key. *)
Lemma decrypt_encrypt_round (key data : list Z) :
  key ≠ [] → Forall is_byte data → decrypt_round key (encrypt_round key data) = data.
Proof.
  intros Hkey Hdata. apply list_eq. intros i.
  unfold decrypt_round, encrypt_round. rewrite !list_lookup_imap.
  destruct (data !! i) as [d|] eqn:Hd; [|done]. simpl. f_equal.
  destruct (key_char_Some key i Hkey) as [k ->].
  apply unshift. by eapply Forall_lookup_1.
Qed.

(** C10: for data made of code units below 256 and any key, encryptData
    returns a string that decryptData, with the same key and in the same
    environment branch, turns back into the data. *)
Theorem decrypt_encrypt_round_trip (subtle : bool) (data key : jsstring) :
  Forall (fun c => 0 <= c < 256) data →
  ∃ encrypted,
    encryptData subtle data key = Normal encrypted
    ∧ decryptData subtle encrypted key = data.
Proof.
  intros Hdata. unfold encryptData, decryptData. destruct subtle.
  - cbn [fold_left].
    set (k0 := roundKey (simpleHash key) 0).
    set (k1 := roundKey (simpleHash key) 1).
    set (k2 := roundKey (simpleHash key) 2).
    destruct (atob_btoa (encrypt_round k2 (encrypt_round k1 (encrypt_round k0 data))))
      as (encoded & -> & Hdecode); [apply encrypt_round_bytes|].
    exists encoded. split; [done|]. rewrite Hdecode.
    rewrite !decrypt_encrypt_round;
      try apply encrypt_round_bytes; try apply simpleHash_nonempty; done.
  - destruct (atob_btoa data Hdata) as (encoded & -> & Hdecode).
    exists encoded. by rewrite Hdecode.
Qed.

(** An order summary is stored and read back, with and without
    [window.crypto.subtle]. *)
Lemma decrypt_encrypt_round_trip_witness :
  (∃ encrypted,
      encryptData true (lit "order 7: ready") (lit "session-key") = Normal encrypted
      ∧ decryptData true encrypted (lit "session-key") = lit "order 7: ready")
  ∧ (∃ encrypted,
        encryptData false (lit "order 7: ready") (lit "session-key") = Normal encrypted
        ∧ decryptData false encrypted (lit "session-key") = lit "order 7: ready").
Proof.
  split.
  - apply (decrypt_encrypt_round_trip true (lit "order 7: ready") (lit "session-key")).
    vm_compute. repeat constructor; discriminate.
  - apply (decrypt_encrypt_round_trip false (lit "order 7: ready") (lit "session-key")).
    vm_compute. repeat constructor; discriminate.
Defined.

End Encryption.

(** ** SecurityManager: the sanitizers of order and verification numbers *)

Section Sanitizers.

Import JsNumber JsParse JsValue SecurityManager OrdersRoute.

Ltac zcases :=
  repeat (match goal with
          | |- context [Z.eqb ?a ?b] => destruct (Z.eqb_spec a b); try lia
          | |- context [Z.leb ?a ?b] => destruct (Z.leb_spec a b); try lia
          | |- context [Z.ltb ?a ?b] => destruct (Z.ltb_spec a b); try lia
          end; simpl);
  try reflexivity.

Lemma digits_only_dec (s : jsstring) : Forall dec_digit (digits_only s).
Proof.
  unfold digits_only. induction s as [|c s IH]; simpl; [constructor|].
  destruct (Z.leb_spec 48 c); destruct (Z.leb_spec c 57); simpl; try done.
  constructor; [unfold dec_digit; lia | done].
Qed.

Lemma digits_only_id (ds : jsstring) : Forall dec_digit ds → digits_only ds = ds.
Proof.
  unfold digits_only. induction 1 as [|c ds Hc _ IH]; simpl; [done|].
  unfold dec_digit in Hc.
  replace (48 <=? c) with true by (symmetry; apply Z.leb_le; lia).
  replace (c <=? 57) with true by (symmetry; apply Z.leb_le; lia).
  simpl. by rewrite IH.
Qed.

Lemma digits_value_nonneg (ds : jsstring) : Forall dec_digit ds → 0 <= digits_value 10 ds.
Proof.
  unfold digits_value. intros Hds.
  assert (∀ v, 0 <= v →
               0 <= fold_left (fun v c => v * 10 + default 0 (digit_val c)) ds v) as H;
    [|by apply H].
  induction Hds as [|c ds Hc _ IH]; intros v Hv; simpl; [done|].
  apply IH. unfold dec_digit in Hc. unfold digit_val.
  replace (48 <=? c) with true by (symmetry; apply Z.leb_le; lia).
  replace (c <=? 57) with true by (symmetry; apply Z.leb_le; lia).
  simpl. lia.
Qed.

(** parseInt with radix 10 on a string of digits. *)
Lemma parseInt10_digits (ds : jsstring) :
  Forall dec_digit ds →
  parseInt10_Z ds = match ds with [] => None | _ => Some (digits_value 10 ds) end.
Proof.
  intros Hds. destruct ds as [|c ds]; [done|].
  inversion Hds as [|? ? Hc Hrest]; subst.
  unfold parseInt10_Z. simpl trim_start. rewrite dec_digit_not_space by done.
  unfold read_sign.
  replace (c =? 43) with false by (unfold dec_digit in Hc; zcases).
  replace (c =? 45) with false by (unfold dec_digit in Hc; zcases).
  by rewrite span_digits_all.
Qed.

Lemma toString_digits (n : Z) :
  0 <= n →
  Forall dec_digit (toString_radix 10 n)
  ∧ toString_radix 10 n ≠ []
  ∧ digits_value 10 (toString_radix 10 n) = n.
Proof.
  intros Hn. unfold toString_radix.
  replace (n <? 0) with false by (symmetry; apply Z.ltb_ge; lia).
  rewrite Z.abs_eq by done. split; [|split].
  - apply to_digits_dec; [done | constructor].
  - apply to_digits_nonempty.
  - unfold digits_value. rewrite to_digits_value by lia. done.
Qed.

(** The number of digits of [n] in radix [r]. *)
Lemma length_to_digits (r : Z) (k fuel : nat) (n : Z) (acc : jsstring) :
  2 <= r → r ^ Z.of_nat k <= n < r * r ^ Z.of_nat k → (k < fuel)%nat →
  length (to_digits fuel r n acc) = (length acc + k + 1)%nat.
Proof.
  intros Hr. revert fuel n acc.
  induction k as [|k IH]; intros fuel n acc Hn Hfuel;
    (destruct fuel as [|fuel]; [lia|]); simpl to_digits.
  - change (Z.of_nat 0) with 0 in Hn. rewrite Z.pow_0_r in Hn.
    rewrite Z.div_small by lia. simpl. lia.
  - rewrite Nat2Z.inj_succ, Z.pow_succ_r in Hn by lia.
    assert (0 < r ^ Z.of_nat k) as Hpos by (apply Z.pow_pos_nonneg; lia).
    assert (r ^ Z.of_nat k <= n / r) as Hlo by (apply Z.div_le_lower_bound; lia).
    assert (n / r < r * r ^ Z.of_nat k) as Hhi by (apply Z.div_lt_upper_bound; lia).
    replace (n / r =? 0) with false by (symmetry; apply Z.eqb_neq; lia).
    rewrite IH by (done || lia). simpl. lia.
Qed.

Lemma length_toString (r : Z) (k : nat) (n : Z) :
  2 <= r → r ^ Z.of_nat k <= n < r * r ^ Z.of_nat k →
  length (toString_radix r n) = S k.
Proof.
  intros Hr Hn.
  assert (0 < r ^ Z.of_nat k) as Hpos by (apply Z.pow_pos_nonneg; lia).
  assert (Z.of_nat k <= Z.log2 n) as Hlog.
  { apply Z.log2_le_pow2; [lia|].
    transitivity (r ^ Z.of_nat k); [apply Z.pow_le_mono_l|]; lia. }
  unfold toString_radix.
  replace (n <? 0) with false by (symmetry; apply Z.ltb_ge; lia).
  rewrite Z.abs_eq by lia.
  rewrite (length_to_digits r k) by (done || lia).
  simpl. lia.
Qed.

(** X1: sanitizeOrderNumber answers null or a number from 1 to 999999; it
    reads the decimal rendering of every such number back; and its answer
    depends only on the digits of the input (a sign, a decimal point or any
    other character is dropped before the number is read). *)
Theorem sanitizeOrderNumber_spec :
  sanitizeOrderNumber None = None
  ∧ sanitizeOrderNumber (Some []) = None
  ∧ (∀ input n, sanitizeOrderNumber input = Some n → 1 <= n <= 999999)
  ∧ (∀ n, 1 <= n <= 999999 → sanitizeOrderNumber (Some (toString_radix 10 n)) = Some n)
  ∧ (∀ s, sanitizeOrderNumber (Some s) = sanitizeOrderNumber (Some (digits_only s))).
Proof.
  split; [done|]. split; [done|]. split; [|split].
  - intros input n. unfold sanitizeOrderNumber.
    destruct input as [[|c s]|]; try discriminate.
    destruct (parseInt10_Z _) as [parsed|]; [|discriminate].
    destruct (Z.ltb_spec parsed 1); destruct (Z.ltb_spec 999999 parsed); simpl;
      try discriminate.
    intros [= <-]. lia.
  - intros n Hn. destruct (toString_digits n ltac:(lia)) as (Hds & Hne & Hval).
    unfold sanitizeOrderNumber.
    destruct (toString_radix 10 n) as [|c s] eqn:E; [done|].
    rewrite digits_only_id, parseInt10_digits, Hval by done.
    replace (n <? 1) with false by (symmetry; apply Z.ltb_ge; lia).
    replace (999999 <? n) with false by (symmetry; apply Z.ltb_ge; lia).
    done.
  - intros s. pose proof (digits_only_dec s) as Hds.
    unfold sanitizeOrderNumber.
    destruct s as [|c s]; [done|].
    destruct (digits_only (c :: s)) as [|d ds] eqn:E; [done|].
    by rewrite digits_only_id.
Qed.

(** Order 42 is read from "42", from "#42" and from "-4.2". *)
Lemma sanitizeOrderNumber_spec_witness :
  sanitizeOrderNumber (Some (lit "42")) = Some 42
  ∧ sanitizeOrderNumber (Some (lit "#42")) = Some 42
  ∧ sanitizeOrderNumber (Some (lit "-4.2")) = Some 42
  ∧ 1 <= 42 <= 999999.
Proof.
  destruct sanitizeOrderNumber_spec as (_ & _ & Hrange & Hread & Hdigits).
  split; [exact (Hread 42 ltac:(lia))|].
  split; [rewrite (Hdigits (lit "#42")); exact (Hread 42 ltac:(lia))|].
  split; [rewrite (Hdigits (lit "-4.2")); exact (Hread 42 ltac:(lia))|].
  exact (Hrange (Some (lit "42")) 42 (Hread 42 ltac:(lia))).
Defined.

(** The verification number drawn by POST /api/orders has four digits. *)
Lemma verificationNumber_range (random : Q) :
  Qle 0 random → Qlt random 1 → 1000 <= verificationNumber random <= 9999.
Proof.
  intros H0 H1. unfold verificationNumber.
  set (x := Qplus (inject_Z 1000) (Qmult random (inject_Z 9000))).
  assert (Qle (inject_Z 1000) x) as Hlo by (unfold x, inject_Z; lra).
  assert (Qlt x (inject_Z 10000)) as Hhi by (unfold x, inject_Z; lra).
  split.
  - rewrite <- (Qfloor_Z 1000). by apply Qfloor_resp_le.
  - assert (Qfloor x < 10000); [|lia].
    rewrite Zlt_Qlt. eapply Qle_lt_trans; [apply Qfloor_le | done].
Qed.

(** X2: sanitizeVerificationNumber answers null or a number from 10000 to
    99999, and reads the decimal rendering of every such number back.  The
    verification number that POST /api/orders draws has four digits, so
    its rendering is always answered null. *)
Theorem sanitizeVerificationNumber_spec :
  sanitizeVerificationNumber None = None
  ∧ (∀ input v, sanitizeVerificationNumber input = Some v → 10000 <= v <= 99999)
  ∧ (∀ v, 10000 <= v <= 99999 →
          sanitizeVerificationNumber (Some (toString_radix 10 v)) = Some v)
  ∧ (∀ random, Qle 0 random → Qlt random 1 →
               1000 <= verificationNumber random <= 9999
               ∧ sanitizeVerificationNumber
                   (Some (toString_radix 10 (verificationNumber random))) = None).
Proof.
  split; [done|]. split; [|split].
  - intros input v. unfold sanitizeVerificationNumber.
    destruct input as [[|c s]|]; try discriminate.
    destruct (parseInt10_Z _) as [parsed|]; [|discriminate].
    destruct (negb _); [discriminate|].
    destruct (Z.ltb_spec parsed 10000); destruct (Z.ltb_spec 99999 parsed); simpl;
      try discriminate.
    intros [= <-]. lia.
  - intros v Hv. destruct (toString_digits v ltac:(lia)) as (Hds & Hne & Hval).
    pose proof (length_toString 10 4 v ltac:(lia) ltac:(simpl; lia)) as Hlen.
    unfold sanitizeVerificationNumber.
    destruct (toString_radix 10 v) as [|c s] eqn:E; [done|].
    rewrite digits_only_id, parseInt10_digits, Hval, Hlen by done.
    replace (v <? 10000) with false by (symmetry; apply Z.ltb_ge; lia).
    replace (99999 <? v) with false by (symmetry; apply Z.ltb_ge; lia).
    done.
  - intros random H0 H1. pose proof (verificationNumber_range random H0 H1) as Hv.
    split; [done|]. set (v := verificationNumber random) in *.
    destruct (toString_digits v ltac:(lia)) as (Hds & Hne & Hval).
    unfold sanitizeVerificationNumber.
    destruct (toString_radix 10 v) as [|c s] eqn:E; [done|].
    rewrite digits_only_id, parseInt10_digits, Hval by done.
    replace (v <? 10000) with true by (symmetry; apply Z.ltb_lt; lia).
    by rewrite orb_true_r.
Qed.

(** A five-digit code is read back; the code drawn for the draw 1/2 is
    5500 and is refused. *)
Lemma sanitizeVerificationNumber_spec_witness :
  sanitizeVerificationNumber (Some (lit "54321")) = Some 54321
  ∧ verificationNumber (1 # 2) = 5500
  ∧ sanitizeVerificationNumber (Some (lit "5500")) = None.
Proof.
  destruct sanitizeVerificationNumber_spec as (_ & _ & Hread & Hdrawn).
  split; [exact (Hread 54321 ltac:(lia))|]. split; [reflexivity|].
  exact (proj2 (Hdrawn (1 # 2) ltac:(lra) ltac:(lra))).
Defined.

End Sanitizers.

(** ** SecurityManager.sanitizeText *)

Section SanitizeText.

Import JsNumber JsValue SecurityManager.

Lemma elem_of_replace_all_char (c d : Z) (r s : jsstring) :
  d ∈ replace_all_char c r s ↔ (d ∈ s ∧ d ≠ c) ∨ (c ∈ s ∧ d ∈ r).
Proof.
  unfold replace_all_char. rewrite list_elem_of_In, in_flat_map. split.
  - intros (x & Hx & Hd). apply list_elem_of_In in Hx.
    destruct (Z.eqb_spec x c) as [->|Hne].
    + right. split; [done | by apply list_elem_of_In].
    + left. apply list_elem_of_In, list_elem_of_singleton in Hd as ->. done.
  - intros [[Hd Hne] | [Hc Hd]].
    + exists d. rewrite <- list_elem_of_In. split; [done|].
      replace (d =? c) with false by (symmetry; by apply Z.eqb_neq).
      by left.
    + exists c. rewrite <- !list_elem_of_In, Z.eqb_refl. done.
Qed.

Lemma replace_all_char_absent (c : Z) (r s : jsstring) :
  c ∉ s → replace_all_char c r s = s.
Proof.
  unfold replace_all_char. induction s as [|x s IH]; [done|].
  rewrite not_elem_of_cons. intros [Hne Hs]. simpl.
  replace (x =? c) with false by (symmetry; apply Z.eqb_neq; congruence).
  simpl. by rewrite IH.
Qed.

Lemma length_replace_all_char (c : Z) (r s : jsstring) :
  r ≠ [] → (length s <= length (replace_all_char c r s))%nat.
Proof.
  intros Hr. unfold replace_all_char. induction s as [|x s IH]; simpl; [done|].
  rewrite length_app. destruct (x =? c); [destruct r; [done|] |]; simpl; lia.
Qed.

Ltac not_in_literal :=
  vm_compute; intros Hin;
  repeat (apply elem_of_cons in Hin as [Hin|Hin]; [discriminate|]);
  by apply elem_of_nil in Hin.

(** X3: the text sanitizeText returns holds none of the characters
    less-than, greater-than, double quote, apostrophe and slash; a string
    without these and without an ampersand is
    returned as it is; a value that is not a string gives the empty string;
    and the result is never shorter than the input. *)
Theorem sanitizeText_spec :
  (∀ v c, c ∈ sanitizeText v → c ≠ 60 ∧ c ≠ 62 ∧ c ≠ 34 ∧ c ≠ 39 ∧ c ≠ 47)
  ∧ (∀ s, (∀ c, c ∈ s → c ≠ 38 ∧ c ≠ 60 ∧ c ≠ 62 ∧ c ≠ 34 ∧ c ≠ 39 ∧ c ≠ 47) →
          sanitizeText (JStr s) = s)
  ∧ (∀ v, is_string v = false → sanitizeText v = [])
  ∧ (∀ s, (length s <= length (sanitizeText (JStr s)))%nat).
Proof.
  assert ((60 ∉ lit "&lt;") ∧ (60 ∉ lit "&gt;") ∧ (60 ∉ lit "&quot;") ∧ (60 ∉ lit "&#x27;")
          ∧ (60 ∉ lit "&#x2F;")) as (L1 & L2 & L3 & L4 & L5)
    by (repeat split; not_in_literal).
  assert ((62 ∉ lit "&gt;") ∧ (62 ∉ lit "&quot;") ∧ (62 ∉ lit "&#x27;") ∧ (62 ∉ lit "&#x2F;"))
    as (G2 & G3 & G4 & G5) by (repeat split; not_in_literal).
  assert ((34 ∉ lit "&quot;") ∧ (34 ∉ lit "&#x27;") ∧ (34 ∉ lit "&#x2F;")) as (Q3 & Q4 & Q5)
    by (repeat split; not_in_literal).
  assert ((39 ∉ lit "&#x27;") ∧ (39 ∉ lit "&#x2F;")) as (A4 & A5)
    by (repeat split; not_in_literal).
  assert ((47 ∉ lit "&#x2F;")) as S5 by not_in_literal.
  split; [|split; [|split]].
  - intros v c. destruct v as [| | | |s| |]; simpl; try (intros H; by apply elem_of_nil in H).
    rewrite !elem_of_replace_all_char. intros H.
    repeat split; intros ->; intuition congruence.
  - intros s Hs. simpl.
    rewrite (replace_all_char_absent 38) by (intros Hc; apply Hs in Hc; intuition congruence).
    rewrite (replace_all_char_absent 60) by (intros Hc; apply Hs in Hc; intuition congruence).
    rewrite (replace_all_char_absent 62) by (intros Hc; apply Hs in Hc; intuition congruence).
    rewrite (replace_all_char_absent 34) by (intros Hc; apply Hs in Hc; intuition congruence).
    rewrite (replace_all_char_absent 39) by (intros Hc; apply Hs in Hc; intuition congruence).
    rewrite (replace_all_char_absent 47) by (intros Hc; apply Hs in Hc; intuition congruence).
    done.
  - intros v Hv. by destruct v.
  - intros s. simpl.
    repeat (etransitivity; [|apply length_replace_all_char; discriminate]). done.
Qed.

(** A menu name without special characters is returned as it is. *)
Lemma sanitizeText_spec_witness :
  sanitizeText (JStr (lit "Classic Burger")) = lit "Classic Burger"
  ∧ sanitizeText (JNum (of_Z 5)) = [].
Proof.
  destruct sanitizeText_spec as (_ & Hclean & Hother & _).
  split; [|exact (Hother (JNum (of_Z 5)) eq_refl)].
  apply Hclean. intros c Hc. vm_compute in Hc.
  repeat (apply elem_of_cons in Hc as [->|Hc]; [repeat split; discriminate|]).
  by apply elem_of_nil in Hc.
Defined.

End SanitizeText.

(** ** SecurityManager: what validation does to the items, and the total *)

Section ValidatedItems.

Import JsNumber JsParse JsValue SecurityManager Scenarios Statements.

Lemma lookup_assign_same (k : jsstring) (x : jsval) (props : list (jsstring * jsval)) :
  lookup_prop k (assign_prop k x props) = x.
Proof.
  induction props as [|[k' v] props IH]; simpl.
  - by rewrite eqb_refl.
  - destruct (JsString.eqb k k') eqn:E; simpl; by rewrite E.
Qed.

Lemma lookup_assign_other (k k2 : jsstring) (x : jsval) (props : list (jsstring * jsval)) :
  k2 ≠ k → lookup_prop k2 (assign_prop k x props) = lookup_prop k2 props.
Proof.
  intros Hne. induction props as [|[k' v] props IH]; simpl.
  - apply eqb_neq in Hne. by rewrite Hne.
  - destruct (JsString.eqb k k') eqn:E; simpl.
    + apply eqb_eq in E as <-. apply eqb_neq in Hne. by rewrite Hne.
    + by rewrite IH.
Qed.

(** An element that passes is handed back with its name sanitized and its
    id, quantity and price untouched. *)
Lemma validate_item_sanitizes (item item' : jsval) :
  validate_item item = Normal (inl item') → sanitized item item'.
Proof.
  intros H. pose proof (validate_item_passes item item' H)
    as (qi & name & qq & qp & Hid & _ & _ & Hname & _).
  destruct item as [| | | | | |props]; try discriminate.
  unfold validate_item, get in H. cbn [bind] in H.
  unfold get in Hname. injection Hname as Hname. rewrite Hname in H.
  repeat match type of H with
         | (if ?c then _ else _) = _ => destruct c; [discriminate|]
         end.
  exists name. unfold get. rewrite Hname. split; [done|].
  simpl set in H. cbn [bind] in H.
  match type of H with
  | (if ?c then _ else _) = _ => destruct c
  end; injection H as <-;
    rewrite ?(lookup_assign_other (lit "emoji") (lit "name")),
            ?(lookup_assign_other _ (lit "id")),
            ?(lookup_assign_other _ (lit "quantity")),
            ?(lookup_assign_other _ (lit "price")) by (vm_compute; discriminate);
    rewrite lookup_assign_same; done.
Qed.

Lemma validate_loop_sanitizes (elems elems' : list jsval) :
  validate_loop elems = Normal (true, elems') → Forall2 sanitized elems elems'.
Proof.
  revert elems'. induction elems as [|item rest IH]; intros elems' H.
  - injection H as <-. constructor.
  - simpl in H.
    destruct (validate_item item) as [[item'|[]]|] eqn:Hitem; cbn [bind] in H;
      try discriminate.
    destruct (validate_loop rest) as [[ok rest']|] eqn:Hrest; cbn [bind] in H;
      try discriminate.
    injection H as -> <-. constructor; [by apply validate_item_sanitizes | by apply IH].
Qed.

Lemma calculatedTotal_sanitized (elems elems' : list jsval) (sum : num) :
  Forall2 sanitized elems elems' →
  calculatedTotal sum elems' = calculatedTotal sum elems.
Proof.
  intros H. revert sum. induction H as [|item item' elems elems' Hs _ IH]; intros sum;
    [done|].
  destruct Hs as (name & _ & _ & _ & Hq & Hp). simpl. rewrite Hq, Hp.
  destruct (get item "price"); [|done]. cbn [bind].
  destruct (get item "quantity"); [|done]. cbn [bind]. apply IH.
Qed.

(** X4: when validateOrderItems answers true, the array it leaves behind
    has the same elements with each name replaced by its sanitized text; id,
    quantity and price are unchanged, so validateTotalAmount gives the same
    answer on the array before and after. *)
Theorem validateOrderItems_sanitizes (items items' : jsval) :
  validateOrderItems items = Normal (true, items') →
  ∃ elems elems',
    items = JArr elems ∧ items' = JArr elems'
    ∧ Forall2 sanitized elems elems'
    ∧ ∀ totalAmount,
        validateTotalAmount items' totalAmount = validateTotalAmount items totalAmount.
Proof.
  intros H. unfold validateOrderItems in H.
  destruct items as [| | | | |elems|]; try discriminate.
  destruct ((length elems =? 0)%nat || (20 <? length elems)%nat); [discriminate|].
  destruct (validate_loop elems) as [[ok elems']|] eqn:Hloop; cbn [bind] in H;
    try discriminate.
  injection H as -> <-. apply validate_loop_sanitizes in Hloop.
  exists elems, elems'. repeat split; try done.
  intros totalAmount. unfold validateTotalAmount.
  by rewrite (calculatedTotal_sanitized elems elems').
Qed.

(** A burger whose name holds an ampersand and a slash. *)
Lemma validateOrderItems_sanitizes_witness :
  ∃ elems',
    validateOrderItems
      (JArr [object [("id", number 3); ("name", text "Fish & Chips / Large");
                     ("quantity", number 1); ("price", number 30)]%string])
    = Normal (true, JArr elems')
    ∧ Forall2 sanitized
        [object [("id", number 3); ("name", text "Fish & Chips / Large");
                 ("quantity", number 1); ("price", number 30)]%string] elems'
    ∧ map (fun item => get item "name") elems'
      = [Normal (text "Fish &amp; Chips &#x2F; Large")].
Proof.
  eexists. split; [reflexivity|]. split; [|reflexivity].
  destruct (validateOrderItems_sanitizes _ _
              (eq_refl : validateOrderItems
                 (JArr [object [("id", number 3); ("name", text "Fish & Chips / Large");
                        ("quantity", number 1); ("price", number 30)]%string]) = _))
    as (elems & elems' & Heq & Heq' & Hs & _).
  injection Heq as <-. injection Heq' as <-. exact Hs.
Defined.

Lemma Qred_inject_Z (z : Z) : Qred (inject_Z z) = inject_Z z.
Proof.
  unfold Qred, inject_Z.
  pose proof (Z.ggcd_gcd z 1) as Hg. pose proof (Z.ggcd_correct_divisors z 1) as Hd.
  destruct (Z.ggcd z 1) as [g [aa bb]]. simpl in *.
  rewrite Z.gcd_1_r in Hg. subst g. destruct Hd as [Ha Hb].
  rewrite Z.mul_1_l in Ha, Hb. by subst.
Qed.

Lemma add_of_Z (a b : Z) : add (of_Z a) (of_Z b) = of_Z (a + b).
Proof.
  unfold add, of_Z. f_equal. rewrite <- (Qred_inject_Z (a + b)).
  apply Qred_complete. by rewrite inject_Z_plus.
Qed.

Lemma mul_of_Z (a b : Z) : mul (of_Z a) (of_Z b) = of_Z (a * b).
Proof.
  unfold mul, of_Z. f_equal. rewrite <- (Qred_inject_Z (a * b)).
  apply Qred_complete. by rewrite inject_Z_mult.
Qed.

Lemma neg_of_Z (a : Z) : neg (of_Z a) = of_Z (- a).
Proof.
  unfold neg, of_Z. f_equal. rewrite <- (Qred_inject_Z (- a)).
  apply Qred_complete. by rewrite inject_Z_opp.
Qed.

Lemma abs_of_Z (a : Z) : abs (of_Z a) = of_Z (Z.abs a).
Proof.
  unfold abs, of_Z. f_equal. by rewrite <- (Qred_inject_Z (Z.abs a)).
Qed.

(** On whole numbers the running total is the sum of the lines. *)
Lemma calculatedTotal_whole (elems : list jsval) (lines : list (Z * Z)) (sum : Z) :
  Forall2 whole_item elems lines →
  calculatedTotal (of_Z sum) elems = Normal (of_Z (sum + lines_total lines)).
Proof.
  intros H. revert sum. induction H as [|item [p q] elems lines [Hp Hq] _ IH]; intros sum.
  - simpl. by rewrite Z.add_0_r.
  - simpl in Hp, Hq. cbn [calculatedTotal]. rewrite Hp, Hq. cbn [bind].
    unfold js_mul. cbn [to_number]. rewrite mul_of_Z, add_of_Z, IH.
    simpl. do 2 f_equal. lia.
Qed.

(** X5: on items whose prices and quantities are whole numbers in the
    ranges that validateOrderItems accepts (the menu's prices are whole
    numbers), at most 20 of them, and a whole-number total,
    validateTotalAmount answers true exactly when the total is the sum over
    the items of price times quantity.  (In this range every intermediate
    result is a whole number below 2^53, so the exact arithmetic of the
    model and the double arithmetic of the code coincide.) *)
Theorem validateTotalAmount_whole_numbers
    (elems : list jsval) (lines : list (Z * Z)) (totalAmount : Z) :
  Forall2 whole_item elems lines →
  Forall accepted_line lines → (length lines <= 20)%nat →
  Z.abs totalAmount < 2 ^ 53 →
  validateTotalAmount (JArr elems) (of_Z totalAmount)
  = Normal (totalAmount =? lines_total lines).
Proof.
  intros Hitems _ _ _. unfold validateTotalAmount.
  rewrite (calculatedTotal_whole elems lines 0 Hitems). cbn [bind]. f_equal.
  rewrite Z.add_0_l. unfold sub. rewrite neg_of_Z, add_of_Z, abs_of_Z.
  unfold lt, of_Z, Qle_bool. simpl.
  destruct (Z.eqb_spec totalAmount (lines_total lines)) as [->|Hne].
  - rewrite Z.add_opp_diag_r. reflexivity.
  - apply negb_false_iff, Z.leb_le. lia.
Qed.

(** The basket of the spec's example adds up to 560: the total 560 passes,
    the totals 559 and 561 do not. *)
Lemma validateTotalAmount_whole_numbers_witness :
  validateTotalAmount montana_items (of_Z 560) = Normal true
  ∧ validateTotalAmount montana_items (of_Z 559) = Normal false
  ∧ validateTotalAmount montana_items (of_Z 561) = Normal false.
Proof.
  assert (∀ total, Z.abs total < 2 ^ 53 →
            validateTotalAmount montana_items (of_Z total)
            = Normal (total =? lines_total [(280, 2)])) as H.
  { intros total Htotal.
    apply (validateTotalAmount_whole_numbers _ [(280, 2)] total); [| |simpl; lia|done].
    - repeat constructor.
    - repeat constructor; simpl; lia. }
  split; [|split]; rewrite H by (simpl; lia); reflexivity.
Defined.

End ValidatedItems.

(** ** SecurityManager: tokens and customer sessions *)

Section Tokens.

Import JsNumber JsParse JsValue Base64 SecurityManager SupabaseSecure Statements.

(** A byte is rendered by its two hexadecimal digits. *)
Lemma hex_of_byte (byte : Z) :
  is_byte byte →
  padStart 2 48 (toString_radix 16 byte)
  = [digit_char (byte / 16); digit_char (byte mod 16)].
Proof.
  intros Hb. apply eqb_eq.
  apply (byte_cases (fun b => JsString.eqb (padStart 2 48 (toString_radix 16 b))
                                [digit_char (b / 16); digit_char (b mod 16)]));
    [by vm_compute | done].
Qed.

Lemma generateSecureToken_cons (byte : Z) (array : list Z) :
  is_byte byte →
  generateSecureToken (byte :: array)
  = digit_char (byte / 16) :: digit_char (byte mod 16) :: generateSecureToken array.
Proof. intros Hb. unfold generateSecureToken. simpl flat_map. by rewrite hex_of_byte. Qed.

Lemma digit_char_hex (d : Z) : 0 <= d < 16 → hex_digit (digit_char d) = true.
Proof.
  intros Hd. unfold hex_digit, digit_char.
  rewrite orb_true_iff, !andb_true_iff, !Z.leb_le. destruct (Z.ltb_spec d 10); lia.
Qed.

Lemma digit_char_inj (d d' : Z) :
  0 <= d → 0 <= d' → digit_char d = digit_char d' → d = d'.
Proof.
  unfold digit_char. intros Hd Hd'.
  destruct (Z.ltb_spec d 10), (Z.ltb_spec d' 10); lia.
Qed.

(** X6: for an array of bytes, generateSecureToken gives two characters
    per byte (64 for the 32 bytes the code draws), all of them lowercase
    hexadecimal digits, and it loses nothing: two arrays of bytes with the
    same token are the same array. *)
Theorem generateSecureToken_spec (array : list Z) :
  Forall is_byte array →
  length (generateSecureToken array) = (2 * length array)%nat
  ∧ Forall (fun c => hex_digit c = true) (generateSecureToken array)
  ∧ ∀ array', Forall is_byte array' →
      generateSecureToken array' = generateSecureToken array → array' = array.
Proof.
  intros H. induction H as [|byte array Hb H (IHlen & IHhex & IHinj)].
  - repeat split; [constructor|]. intros array' H' Heq. destruct H' as [|b' a' Hb' H']; [done|].
    by rewrite generateSecureToken_cons in Heq.
  - rewrite generateSecureToken_cons by done. unfold is_byte in Hb. repeat split.
    + simpl. rewrite IHlen. lia.
    + apply Forall_cons_2; [|apply Forall_cons_2; [|done]];
        apply digit_char_hex; Z.to_euclidean_division_equations; lia.
    + intros array' H' Heq. destruct H' as [|b' a' Hb' H']; [done|].
      rewrite generateSecureToken_cons in Heq by done. unfold is_byte in Hb'.
      injection Heq as Hhi Hlo Hrest.
      apply digit_char_inj in Hhi; [|Z.to_euclidean_division_equations; lia..].
      apply digit_char_inj in Hlo; [|Z.to_euclidean_division_equations; lia..].
      f_equal; [Z.to_euclidean_division_equations; lia | by apply IHinj].
Qed.

Lemma generateSecureToken_spec_witness :
  Forall is_byte [0; 171; 255]
  ∧ generateSecureToken [0; 171; 255] = lit "00abff"
  ∧ length (generateSecureToken [0; 171; 255]) = 6%nat.
Proof.
  assert (Forall is_byte [0; 171; 255]) as H
    by (repeat constructor; unfold is_byte; lia).
  split; [exact H|]. split; [reflexivity|].
  exact (proj1 (generateSecureToken_spec [0; 171; 255] H)).
Defined.

Lemma digit_char_lower_alnum (d : Z) : 0 <= d < 36 → lower_alnum (digit_char d) = true.
Proof.
  intros Hd. unfold lower_alnum, digit_char.
  rewrite orb_true_iff, !andb_true_iff, !Z.leb_le. destruct (Z.ltb_spec d 10); lia.
Qed.

Lemma hex_digit_lower_alnum (c : Z) : hex_digit c = true → lower_alnum c = true.
Proof.
  unfold hex_digit, lower_alnum. rewrite !orb_true_iff, !andb_true_iff, !Z.leb_le. lia.
Qed.

Lemma to_digits_lower_alnum (fuel : nat) (n : Z) (acc : list Z) :
  0 <= n → Forall (fun c => lower_alnum c = true) acc →
  Forall (fun c => lower_alnum c = true) (to_digits fuel 36 n acc).
Proof.
  revert n acc. induction fuel as [|fuel IH]; intros n acc Hn Hacc; simpl; [done|].
  assert (lower_alnum (digit_char (n mod 36)) = true)
    by (apply digit_char_lower_alnum, Z.mod_pos_bound; lia).
  destruct (n / 36 =? 0).
  - by constructor.
  - apply IH; [apply Z.div_pos; lia | by constructor].
Qed.

Lemma toString_lower_alnum (n : Z) :
  0 <= n → Forall (fun c => lower_alnum c = true) (toString_radix 36 n).
Proof.
  intros Hn. unfold toString_radix. destruct (Z.ltb_spec n 0); [lia|].
  by apply to_digits_lower_alnum; [lia|].
Qed.

Lemma span_lower_alnum_all (run : list Z) :
  Forall (fun c => lower_alnum c = true) run → span_lower_alnum run = (run, []).
Proof. induction 1 as [|c run Hc _ IH]; simpl; [done|]. by rewrite Hc, IH. Qed.

Lemma span_lower_alnum_underscore (run rest : list Z) :
  Forall (fun c => lower_alnum c = true) run →
  span_lower_alnum (run ++ 95 :: rest) = (run, 95 :: rest).
Proof. induction 1 as [|c run Hc _ IH]; simpl; [done|]. by rewrite Hc, IH. Qed.

(** A number between two powers of the radix has one of the lengths in
    between. *)
Lemma digit_count (r : Z) (k j : nat) (n : Z) :
  2 <= r → r ^ Z.of_nat j <= n < r ^ Z.of_nat (j + k + 1) →
  ∃ i, (j <= i <= j + k)%nat ∧ r ^ Z.of_nat i <= n < r * r ^ Z.of_nat i.
Proof.
  intros Hr. revert j. induction k as [|k IH]; intros j Hn.
  - exists j. split; [lia|]. replace (j + 0 + 1)%nat with (S j) in Hn by lia.
    rewrite Nat2Z.inj_succ, Z.pow_succ_r in Hn by lia. lia.
  - destruct (Z_lt_le_dec n (r * r ^ Z.of_nat j)) as [Hlt|Hge].
    + exists j. split; lia.
    + destruct (IH (S j)) as (i & Hi & Hbound).
      * rewrite Nat2Z.inj_succ, Z.pow_succ_r by lia.
        replace (S j + k + 1)%nat with (j + S k + 1)%nat by lia. lia.
      * exists i. split; [lia | done].
Qed.

(** X7: a session generated between 1972 (36^7 ms) and the far future
    (36^24 ms), from at least eight random bytes, has the shape
    customer_<8 to 24 characters>_<16 characters>, and
    validateCustomerSession accepts it. *)
Theorem generated_session_is_valid (now : Z) (array : list Z) :
  36 ^ 7 <= now < 36 ^ 24 →
  Forall is_byte array → (8 <= length array)%nat →
  validateCustomerSession (JStr (generateCustomerSession now array)) = true
  ∧ (34 <= length (generateCustomerSession now array) <= 50)%nat.
Proof.
  intros Hnow Hbytes Hlen.
  destruct (generateSecureToken_spec array Hbytes) as (Htoklen & Hhex & _).
  destruct (digit_count 36 16 7 now) as (i & Hi & Hbound); [lia | simpl; lia |].
  pose proof (length_toString 36 i now ltac:(lia) Hbound) as Hstamp.
  pose proof (toString_lower_alnum now ltac:(lia)) as Hstampc.
  set (stamp := toString_radix 36 now) in *.
  set (random := take 16 (generateSecureToken array)).
  assert (length random = 16%nat) as Hrandom
    by (unfold random; rewrite length_take; lia).
  assert (Forall (fun c => lower_alnum c = true) random) as Hrandomc.
  { unfold random. apply Forall_take.
    eapply Forall_impl; [exact Hhex | apply hex_digit_lower_alnum]. }
  assert (length (generateCustomerSession now array) = (26 + length stamp)%nat) as Hl.
  { unfold generateCustomerSession. fold stamp random.
    rewrite !length_app, Hrandom. simpl. lia. }
  split; [|lia].
  unfold validateCustomerSession. rewrite Hl.
  replace (25 <=? 26 + length stamp)%nat with true by (symmetry; apply Nat.leb_le; lia).
  replace (26 + length stamp <=? 50)%nat with true by (symmetry; apply Nat.leb_le; lia).
  rewrite !andb_true_r.
  unfold session_pattern, generateCustomerSession. fold stamp random.
  change (drop 9 (lit "customer_" ++ stamp ++ lit "_" ++ random))
    with (stamp ++ 95 :: random).
  rewrite span_lower_alnum_underscore by done.
  rewrite span_lower_alnum_all by done.
  rewrite Z.eqb_refl, Hrandom.
  replace (8 <=? length stamp)%nat with true by (symmetry; apply Nat.leb_le; lia).
  reflexivity.
Qed.

(** The session of 3 November 2026, 00:00 UTC, from 32 zero bytes. *)
Lemma generated_session_is_valid_witness :
  generateCustomerSession 1793664000000 (replicate 32 0)
  = lit "customer_mvzx8g00_0000000000000000"
  ∧ validateCustomerSession (JStr (generateCustomerSession 1793664000000 (replicate 32 0)))
    = true.
Proof.
  split; [reflexivity|].
  apply (generated_session_is_valid 1793664000000 (replicate 32 0)).
  - lia.
  - apply Forall_replicate. unfold is_byte. lia.
  - simpl. lia.
Defined.

End Tokens.

(** ** SecurityManager: the rate limit is kept per client token *)

Section RateLimitTokens.

Import SecurityManager Scenarios.

Lemma check_other_token (now : Z) (clientId : option jsstring) (m : attempts_map)
    (tok : jsstring) :
  tok ≠ token clientId →
  (checkOrderCreationRateLimit now clientId m).2 !! tok = m !! tok.
Proof.
  intros Hne. unfold checkOrderCreationRateLimit. fold (token clientId).
  destruct (maxAttempts <=? _)%nat; simpl; [done|].
  by rewrite lookup_insert_ne.
Qed.

Lemma check_fresh_token (now : Z) (clientId : option jsstring) (m : attempts_map) :
  m !! token clientId = None →
  checkOrderCreationRateLimit now clientId m = (true, <[token clientId := [now]]> m).
Proof.
  intros Hnone. unfold checkOrderCreationRateLimit. fold (token clientId).
  by rewrite Hnone.
Qed.

(** X8: a call touches only the entry of its own token; and calls made
    with tokens that are pairwise different and not yet in the map are all
    answered true, whatever their times and however many they are.  The
    order-number page calls the limiter with a freshly drawn token every
    time, so there the limit never applies unless two draws coincide. *)
Theorem rate_limit_is_per_token :
  (∀ now clientId m tok,
     tok ≠ token clientId →
     (checkOrderCreationRateLimit now clientId m).2 !! tok = m !! tok)
  ∧ (∀ calls m,
       NoDup (map (fun call => token call.2) calls) →
       Forall (fun call => m !! token call.2 = None) calls →
       answers m calls = replicate (length calls) true).
Proof.
  split; [apply check_other_token|].
  induction calls as [|[now clientId] calls IH]; intros m Hdup Hfresh; [done|].
  simpl in Hdup. apply NoDup_cons in Hdup as [Hnotin Hdup].
  apply Forall_cons_1 in Hfresh as [Hnone Hfresh]. simpl in Hnone.
  simpl answers. rewrite check_fresh_token by done. simpl. f_equal.
  apply IH; [done|].
  apply Forall_forall. intros call Hcall.
  rewrite lookup_insert_ne.
  - by apply (proj1 (Forall_forall _ _) Hfresh).
  - intros Heq. apply Hnotin. rewrite Heq. apply list_elem_of_fmap. by exists call.
Qed.

(** Seven orders within one second, each under its own token. *)
Lemma rate_limit_is_per_token_witness :
  answers ∅ (map (fun i => (1000 + i, Some (lit "client" ++ [48 + i]))) (seqZ 0 7))
  = replicate 7 true
  ∧ answers ∅ (map (fun i => (1000 + i, Some (lit "client"))) (seqZ 0 7))
    = replicate 5 true ++ [false; false].
Proof.
  split; [|reflexivity].
  apply (proj2 rate_limit_is_per_token
           (map (fun i => (1000 + i, Some (lit "client" ++ [48 + i]))) (seqZ 0 7)) ∅).
  - apply (bool_decide_unpack _). by vm_compute.
  - apply Forall_forall. intros call _. apply lookup_empty.
Defined.

End RateLimitTokens.

(** ** SecurityManager: encryption of text beyond Latin-1 *)

Section EncryptionBeyondBytes.

Import JsValue Base64 SecurityManager.

(** A round only sees each code unit modulo 256. *)
Lemma encrypt_round_mod (key data : list Z) :
  key ≠ [] →
  encrypt_round key data = encrypt_round key (map (fun c => c mod 256) data).
Proof.
  intros Hkey. apply list_eq. intros i. unfold encrypt_round.
  rewrite !list_lookup_imap, list_lookup_fmap.
  destruct (data !! i) as [d|]; [|done]. simpl. f_equal.
  destruct (key_char_Some key i Hkey) as [k ->].
  by rewrite Zplus_mod_idemp_l.
Qed.

Lemma btoa_throws (data : list Z) : Exists (fun c => 255 < c) data → btoa data = Throws.
Proof.
  intros H. unfold btoa.
  destruct (forallb (fun c => c <=? 255) data) eqn:Hall; [|done].
  rewrite forallb_forall in Hall. apply Exists_exists in H as (c & Hin & Hc).
  apply list_elem_of_In, Hall, Z.leb_le in Hin. lia.
Qed.

(** X9: with [window.crypto.subtle], encryptData accepts any text and
    never throws, but what decryptData gives back is the text with every
    code unit reduced modulo 256: characters beyond Latin-1 do not survive.
    Without it, encryptData throws on such a text (the [catch] clause calls
    [btoa] on the same data again). *)
Theorem encryption_beyond_bytes :
  (∀ data key,
     ∃ encrypted,
       encryptData true data key = Normal encrypted
       ∧ decryptData true encrypted key = map (fun c => c mod 256) data)
  ∧ (∀ data key,
       Exists (fun c => 255 < c) data → encryptData false data key = Throws).
Proof.
  split.
  - intros data key. unfold encryptData, decryptData. cbn [fold_left].
    set (k0 := roundKey (simpleHash key) 0).
    set (k1 := roundKey (simpleHash key) 1).
    set (k2 := roundKey (simpleHash key) 2).
    destruct (atob_btoa (encrypt_round k2 (encrypt_round k1 (encrypt_round k0 data))))
      as (encoded & -> & Hdecode); [apply encrypt_round_bytes|].
    exists encoded. split; [done|]. rewrite Hdecode.
    rewrite (encrypt_round_mod k0 data) by apply simpleHash_nonempty.
    rewrite !decrypt_encrypt_round;
      try apply encrypt_round_bytes; try apply simpleHash_nonempty; [done|].
    apply Forall_fmap, Forall_forall. intros c _. apply Z.mod_pos_bound. lia.
  - intros data key H. unfold encryptData. by rewrite btoa_throws.
Qed.

(** The price tag [€5]: the euro sign (code unit 8364) comes back as the
    code unit 172. *)
Lemma encryption_beyond_bytes_witness :
  Exists (fun c => 255 < c) [8364; 53]
  ∧ encryptData false [8364; 53] (lit "session-key") = Throws
  ∧ ∃ encrypted,
      encryptData true [8364; 53] (lit "session-key") = Normal encrypted
      ∧ decryptData true encrypted (lit "session-key") = [172; 53].
Proof.
  assert (Exists (fun c => 255 < c) [8364; 53]) as H by (apply Exists_cons_hd; lia).
  split; [exact H|]. split.
  - exact (proj2 encryption_beyond_bytes [8364; 53] (lit "session-key") H).
  - exact (proj1 encryption_beyond_bytes [8364; 53] (lit "session-key")).
Defined.

End EncryptionBeyondBytes.

(** ** TrackingSystem: persistence and the identity of records *)

Section TrackingRecords.

Import TrackingSystem TrackingStatements.

Lemma statusUpdates_saveToStorage s : statusUpdates (saveToStorage s) = statusUpdates s.
Proof. unfold saveToStorage. by destruct (has_window s). Qed.

Lemma run_invariant (P : state → Prop) :
  (∀ s o, P s → P (step s o)) → ∀ ops s, P s → P (run s ops).
Proof.
  intros Hstep. induction ops as [|o ops IH]; intros s Hs; [done|].
  simpl. apply IH, Hstep, Hs.
Qed.

Lemma step_keyed s o : keyed s → keyed (step s o).
Proof.
  intros Hs.
  assert (∀ now n st, keyed (updateOrderStatus now n st s)) as Hupdate.
  { intros now n st. unfold updateOrderStatus.
    destruct (statusUpdates s !! n) as [existing|] eqn:He; [|done].
    intros n' d. simpl. rewrite statusUpdates_saveToStorage. simpl.
    destruct (decide (n' = n)) as [->|Hne].
    - rewrite lookup_insert_eq. intros [= <-]. simpl. by apply Hs.
    - rewrite lookup_insert_ne by done. apply Hs. }
  destruct o as [now0 n0 v0 | now0 n0 st0 | n0 cb0 | n0 cb0 | now0 n0 | n0 | cb0 | cb0 | ];
    simpl.
  - intros n d. unfold initializeOrder. rewrite statusUpdates_saveToStorage. simpl.
    destruct (decide (n = n0)) as [->|Hne].
    + rewrite lookup_insert_eq. by intros [= <-].
    + rewrite lookup_insert_ne by done. apply Hs.
  - apply Hupdate.
  - done.
  - unfold unsubscribe. by destruct (subscribers s !! n0).
  - unfold simulateStatusUpdate. destruct (getOrderTracking n0 s); [apply Hupdate | done].
  - intros n d. unfold setCurrentOrderBeingPrepared. simpl.
    rewrite statusUpdates_saveToStorage. apply Hs.
  - done.
  - done.
  - intros n d. unfold resetSystem. rewrite statusUpdates_saveToStorage. simpl.
    by rewrite lookup_empty.
Qed.

Lemma step_identity n s o :
  initializes n o = false → identity_of n (step s o) = identity_of n s.
Proof.
  intros Ho. unfold identity_of.
  assert (∀ now m st, (fun d => (orderNumber d, verificationNumber d, timestamp d))
                        <$> statusUpdates (updateOrderStatus now m st s) !! n
                      = (fun d => (orderNumber d, verificationNumber d, timestamp d))
                        <$> statusUpdates s !! n) as Hupdate.
  { intros now m st. unfold updateOrderStatus.
    destruct (statusUpdates s !! m) as [existing|] eqn:He; [|done].
    simpl. rewrite statusUpdates_saveToStorage. simpl.
    destruct (decide (n = m)) as [->|Hne].
    - by rewrite lookup_insert_eq, He.
    - by rewrite lookup_insert_ne. }
  destruct o as [now0 n0 v0 | now0 n0 st0 | n0 cb0 | n0 cb0 | now0 n0 | n0 | cb0 | cb0 | ];
    simpl in *.
  - unfold initializeOrder. rewrite statusUpdates_saveToStorage. simpl.
    rewrite lookup_insert_ne; [done|]. apply Z.eqb_neq in Ho. done.
  - apply Hupdate.
  - done.
  - unfold unsubscribe. by destruct (subscribers s !! n0).
  - unfold simulateStatusUpdate. destruct (getOrderTracking n0 s); [apply Hupdate | done].
  - unfold setCurrentOrderBeingPrepared. simpl. by rewrite statusUpdates_saveToStorage.
  - done.
  - done.
  - done.
Qed.

(** X11: records stay under their own order number, and, as long as the
    order is not initialized again and the system is not reset, an order
    stays tracked and keeps the order number, verification number and
    creation timestamp it was initialized with: status updates and
    simulations only touch the status and the time of the last update. *)
Theorem tracking_records_keep_identity (s : state) (ops : list op) :
  (keyed s → keyed (run s ops))
  ∧ (∀ n d,
       getOrderTracking n s = Some d →
       forallb (fun o => negb (initializes n o)) ops = true →
       ∃ d', getOrderTracking n (run s ops) = Some d'
             ∧ orderNumber d' = orderNumber d
             ∧ verificationNumber d' = verificationNumber d
             ∧ timestamp d' = timestamp d).
Proof.
  split.
  - apply run_invariant, step_keyed.
  - intros n d Hd Hops.
    assert (identity_of n (run s ops) = identity_of n s) as Hid.
    { clear Hd. revert s. induction ops as [|o ops IH]; intros s; [done|].
      simpl in Hops. apply andb_true_iff in Hops as [Ho Hops].
      apply negb_true_iff in Ho. simpl. rewrite IH by done. by apply step_identity. }
    unfold identity_of, getOrderTracking in *. rewrite Hd in Hid.
    destruct (statusUpdates (run s ops) !! n) as [d'|]; [|done].
    injection Hid as H1 H2 H3. by exists d'.
Qed.

(** Order 7 is initialized at time 0 with verification number 43210; after
    two updates its record still says so. *)
Lemma tracking_records_keep_identity_witness :
  let s := initializeOrder 0 7 43210 Scenarios.fresh_tracking in
  let ops := [UpdateOrderStatus 10 7 preparing; SimulateStatusUpdate 20 7] in
  keyed (run s ops)
  ∧ ∃ d', getOrderTracking 7 (run s ops) = Some d'
          ∧ orderNumber d' = 7 ∧ verificationNumber d' = 43210 ∧ timestamp d' = 0.
Proof.
  intros s ops. split.
  - apply (proj1 (tracking_records_keep_identity s ops)).
    intros n d. unfold s, initializeOrder. rewrite statusUpdates_saveToStorage. simpl.
    destruct (decide (n = 7)) as [->|Hne].
    + rewrite lookup_insert_eq. by intros [= <-].
    + rewrite lookup_insert_ne by done. by rewrite lookup_empty.
  - exact (proj2 (tracking_records_keep_identity s ops) 7 _ eq_refl eq_refl).
Defined.

End TrackingRecords.

(** ** TrackingSystem: simulated status changes *)

Section Simulation.

Import TrackingSystem TrackingStatements.

Lemma status_simulateStatusUpdate now n s d :
  getOrderTracking n s = Some d →
  ∃ d', getOrderTracking n (simulateStatusUpdate now n s) = Some d'
        ∧ status d' = match status d with waiting => preparing | _ => ready end.
Proof.
  intros Hd. unfold simulateStatusUpdate. rewrite Hd.
  unfold getOrderTracking in *. unfold updateOrderStatus. rewrite Hd. simpl.
  rewrite statusUpdates_saveToStorage. simpl. rewrite lookup_insert_eq.
  eexists. split; [done|]. simpl. by destruct (status d).
Qed.

(** X12: the simulation walks an order up to ready and never further.
    After one simulated update a waiting order is preparing and any other
    order is ready; after two or more, every order is ready.  So an order
    is never completed by the simulation, and a completed order is set back
    to ready. *)
Theorem simulation_reaches_ready (s : state) (n : Z) (d : TrackingData) (times : list Z) :
  getOrderTracking n s = Some d → times ≠ [] →
  ∃ d', getOrderTracking n (run s (map (fun now => SimulateStatusUpdate now n) times))
        = Some d'
        ∧ status d' = match status d, times with
                      | waiting, [_] => preparing
                      | _, _ => ready
                      end.
Proof.
  intros Hd Hne. destruct times as [|now times]; [done|]. clear Hne.
  simpl. destruct (status_simulateStatusUpdate now n s d Hd) as (d1 & Hd1 & Hs1).
  destruct times as [|now' times].
  - exists d1. split; [done|]. rewrite Hs1. by destruct (status d).
  - assert (∀ times s d, getOrderTracking n s = Some d → status d ≠ waiting →
              ∃ d', getOrderTracking n
                      (run s (map (fun now => SimulateStatusUpdate now n) times)) = Some d'
                    ∧ status d' ≠ waiting
                    ∧ (times ≠ [] → status d' = ready)) as Hrest.
    { clear. induction times as [|now times IH]; intros s d Hd Hs.
      - exists d. done.
      - simpl. destruct (status_simulateStatusUpdate now n s d Hd) as (d1 & Hd1 & Hs1).
        assert (status d1 = ready) as Hready by (rewrite Hs1; by destruct (status d)).
        destruct (IH _ d1 Hd1) as (d' & Hd' & Hw & Hr); [by rewrite Hready|].
        exists d'. split; [done|]. split; [done|]. intros _.
        destruct times as [|now' times]; [|by apply Hr].
        simpl in Hd'. rewrite Hd1 in Hd'. by injection Hd' as <-. }
    destruct (Hrest (now' :: times) _ d1 Hd1) as (d' & Hd' & _ & Hr).
    { rewrite Hs1. by destruct (status d). }
    exists d'. split; [done|]. rewrite Hr by done. by destruct (status d).
Qed.

(** Order 7, completed by the owner, is set back to ready by one simulated
    update. *)
Lemma simulation_reaches_ready_witness :
  let s := updateOrderStatus 5 7 completed
             (initializeOrder 0 7 43210 Scenarios.fresh_tracking) in
  (status <$> getOrderTracking 7 s) = Some completed
  ∧ ∃ d', getOrderTracking 7 (run s [SimulateStatusUpdate 9 7]) = Some d'
          ∧ status d' = ready.
Proof.
  intros s. split; [reflexivity|].
  exact (simulation_reaches_ready s 7 _ [9] eq_refl ltac:(discriminate)).
Defined.

End Simulation.

(** ** TrackingSystem: registrations of order subscribers *)

Section OrderSubscribers.

Import TrackingSystem TrackingStatements.



End OrderSubscribers.

(** ** POST /api/orders: the line items, and what a failure leaves behind *)

Section OrderLines.

Import JsNumber JsParse JsValue Database Http OrdersRoute Scenarios Statements.

Lemma split_name_size_code (baseName name : jsval) (sizeCode : jsstring) :
  split_name baseName = Normal (name, sizeCode) → sizeCode ∈ size_codes.
Proof.
  unfold split_name, size_codes. intros H.
  destruct baseName as [| | | |s|elems|]; try discriminate.
  - destruct (includes s (lit "Regular")); [injection H as _ <-; set_solver|].
    destruct (includes s (lit "Large")); injection H as _ <-; set_solver.
  - destruct (existsb _ elems); [discriminate|].
    destruct (existsb _ elems); [discriminate|]. injection H as _ <-. set_solver.
Qed.

Lemma parseInt_finite_whole (q : Z) :
  1 <= q < 10 ^ 21 → parseInt_finite (inject_Z q) = q.
Proof.
  intros [Hq1 Hq2]. unfold parseInt_finite.
  assert (Qabs (inject_Z q) = inject_Z q) as ->
    by (unfold Qabs, inject_Z; by rewrite Z.abs_eq by lia).
  destruct (Qeq_bool (inject_Z q) 0) eqn:E1.
  { apply Qeq_bool_eq in E1. unfold Qeq in E1. simpl in E1. lia. }
  destruct (Qle_bool (inject_Z (10 ^ 21)) (inject_Z q)) eqn:E2.
  { apply Qle_bool_imp_le in E2. rewrite <- Zle_Qle in E2. by apply Z.le_ngt in E2. }
  destruct (Qle_bool (1 # 1000000) (inject_Z q)) eqn:E3.
  - rewrite Qfloor_Z.
    destruct (Qle_bool 0 (inject_Z q)) eqn:E4; [done|].
    exfalso. apply not_true_iff_false in E4. apply E4, Qle_bool_iff.
    change 0%Q with (inject_Z 0). rewrite <- Zle_Qle. lia.
  - exfalso. apply not_true_iff_false in E3. apply E3, Qle_bool_iff.
    unfold Qle, inject_Z. simpl. lia.
Qed.

Lemma order_item_line (order : Order) (item : jsval) (row : OrderItem) :
  order_item order item = Normal row → line_of (order_number order) item row.
Proof.
  unfold order_item. intros H.
  destruct (get item "price") as [price|] eqn:Hp; [|done]. cbn [bind] in H.
  destruct (get item "quantity") as [item_quantity|] eqn:Hq; [|done]. cbn [bind] in H.
  destruct (get item "name") as [name|]; [|done]. cbn [bind] in H.
  destruct (get item "base_name") as [base_name|]; [|done]. cbn [bind] in H.
  destruct (get item "variant") as [variant|]; [|done]. cbn [bind] in H.
  destruct (get item "protein") as [item_protein|]; [|done]. cbn [bind] in H.
  destruct (split_name _) as [[baseName sizeCode]|] eqn:Hsplit; [|done]. cbn [bind] in H.
  destruct (get item "menu_item_id") as [item_menu_item_id|]; [|done]. cbn [bind] in H.
  destruct (get item "id") as [item_id|]; [|done]. cbn [bind] in H.
  injection H as <-. exists price. cbn [order_id unit_price size_code quantity
                                          item_total_amount].
  do 3 (split; [done|]). split; [by eapply split_name_size_code|].
  intros [p q] [Hwp Hwq] [Hrp Hrq]. simpl in *.
  rewrite Hp in Hwp. rewrite Hq in Hwq. injection Hwp as ->. injection Hwq as ->.
  change (parseFloat (JNum (of_Z p))) with (of_Z p).
  change (parseInt (JNum (of_Z q))) with (of_Z (parseInt_finite (inject_Z q))).
  rewrite parseInt_finite_whole.
  - split; [done|]. split; [done|]. apply mul_of_Z.
  - split; [lia|]. apply Z.le_lt_trans with 99; [lia | by vm_compute].
Qed.

Lemma map_items_lines (order : Order) (elems : list jsval) (rows : list OrderItem) :
  map_items order elems = Normal rows →
  Forall2 (line_of (order_number order)) elems rows.
Proof.
  revert rows. induction elems as [|item elems IH]; intros rows H; simpl in H.
  - injection H as <-. constructor.
  - destruct (order_item order item) as [row|] eqn:Hrow; [|done]. cbn [bind] in H.
    destruct (map_items order elems) as [rows'|]; [|done]. cbn [bind] in H.
    injection H as <-. constructor; [by apply order_item_line | by apply IH].
Qed.

Lemma insert_order_well_formed (g : generated) (v : Z) (total : num) (s : jsstring)
    (db : store) :
  well_formed db → well_formed (insert_order Performs g v total s db).2.
Proof.
  intros [Hdup Hlt]. unfold well_formed. simpl. split.
  - rewrite map_app. apply NoDup_app. split; [done|]. split; [|apply NoDup_singleton].
    intros n Hn. simpl. rewrite list_elem_of_singleton. intros ->.
    apply list_elem_of_fmap in Hn as (o & Heq & Ho).
    rewrite Forall_forall in Hlt. specialize (Hlt o Ho). lia.
  - apply Forall_app. split.
    + eapply Forall_impl; [exact Hlt|]. simpl. intros o Ho. lia.
    + apply Forall_singleton. simpl. lia.
Qed.

(** X16: a POST answered with status 200 has appended to the order_items
    table one line for each element of the array [items], in order, and
    nothing else.  Each line carries the number of the order just created,
    the unit price parseFloat(price) and a size code that is R, L or empty;
    for an item whose price and quantity are whole numbers in the ranges
    that validateOrderItems accepts (1..1000 and 1..99), the line carries
    that price, that quantity and their product as line total.  Order
    numbers stay unique. *)
Theorem POST_writes_one_line_per_item
    (env : environment) (request_json : completion jsval) (db : store) :
  let r := fst (POST_configured env request_json db) in
  let db' := snd (POST_configured env request_json db) in
  status_code r = 200 →
  ∃ body elems rows,
    request_json = Normal body
    ∧ get body "items" = Normal (JArr elems)
    ∧ order_items db' = order_items db ++ rows
    ∧ Forall2 (line_of (next_order_number db)) elems rows
    ∧ (well_formed db → well_formed db').
Proof.
  cbv zeta. unfold POST_configured.
  destruct request_json as [body|]; cbn [bind]; [|done].
  destruct (get body "items") as [items|] eqn:Hitems; cbn [bind]; [|done].
  destruct (get body "totalAmount") as [totalAmount|] eqn:Htotal; cbn [bind]; [|done].
  destruct (order_insert env) as [|m] eqn:Hins; [|done].
  pose proof (insert_order_well_formed (order_generated env) (verificationNumber (random env))
                (parseFloat totalAmount) (lit "pending") db) as Hwf.
  unfold insert_order in *.
  destruct (orderItems _ items) as [rows|] eqn:Hrows; [|done].
  destruct (items_insert env); [|done]. simpl. intros _.
  destruct items as [| | | | |elems|]; try discriminate.
  exists body, elems, rows. do 3 (split; [done|]).
  split; [by apply map_items_lines in Hrows|].
  intros Hw. exact (Hwf Hw).
Qed.

Lemma POST_writes_one_line_per_item_witness :
  ∃ rows,
    order_items (snd (POST_configured post_env (Normal montana_body) empty_store)) = rows
    ∧ map (fun row => (order_id row, size_code row, item_total_amount row)) rows
      = [(1, lit "R", of_Z 560)]
    ∧ ∃ body elems rows',
        Normal montana_body = Normal body
        ∧ get body "items" = Normal (JArr elems)
        ∧ rows = [] ++ rows'
        ∧ Forall2 (line_of 1) elems rows'
        ∧ (well_formed empty_store
           → well_formed (snd (POST_configured post_env (Normal montana_body) empty_store))).
Proof.
  eexists. split; [reflexivity|]. split; [reflexivity|].
  exact (POST_writes_one_line_per_item post_env (Normal montana_body) empty_store eq_refl).
Defined.

(** X17: the two inserts are not one transaction.  Once the order row is
    inserted, a failure of what follows (the items are not an array, an
    item makes the mapping throw, or the insert of the lines is refused) is
    answered with status 500, and the new pending order stays in the orders
    table without any line. *)
Theorem POST_failure_leaves_order_without_lines
    (env : environment) (body items totalAmount : jsval) (db : store) :
  order_insert env = Performs →
  get body "items" = Normal items →
  get body "totalAmount" = Normal totalAmount →
  (∀ order, orderItems order items = Throws) ∨ (∃ m, items_insert env = Fails m) →
  let r := fst (POST_configured env (Normal body) db) in
  let db' := snd (POST_configured env (Normal body) db) in
  status_code r = 500
  ∧ order_items db' = order_items db
  ∧ ∃ row, Database.orders db' = Database.orders db ++ [row]
           ∧ order_number row = next_order_number db
           ∧ status row = lit "pending".
Proof.
  intros Hins Hitems Htotal Hfail. cbv zeta. unfold POST_configured. cbn [bind].
  rewrite Hitems. cbn [bind]. rewrite Htotal. cbn [bind].
  unfold insert_order. rewrite Hins.
  destruct Hfail as [Hthrows | [m Hm]].
  - rewrite Hthrows. simpl. eauto 10.
  - destruct (orderItems _ items) as [rows|]; [rewrite Hm|]; simpl; eauto 10.
Qed.

(** A body without [items]: the answer is "Internal server error", and
    order number 1 is in the table. *)
Lemma POST_failure_leaves_order_without_lines_witness :
  let body := object [("totalAmount", number 560)]%string in
  fst (POST_configured post_env (Normal body) empty_store) = internal_server_error
  ∧ map order_number (Database.orders (snd (POST_configured post_env (Normal body) empty_store)))
    = [1]
  ∧ order_items (snd (POST_configured post_env (Normal body) empty_store)) = [].
Proof.
  intros body. split; [reflexivity|]. split; [reflexivity|].
  exact (proj1 (proj2 (POST_failure_leaves_order_without_lines post_env body JUndefined
                         (number 560) empty_store eq_refl eq_refl eq_refl
                         (or_introl (fun _ => eq_refl))))).
Defined.

End OrderLines.

(** ** Listing orders: GET /api/orders and the dashboard's loadOrders *)

Section Listing.

Import JsNumber JsValue Database Http Scenarios Statements.

Lemma insert_newest_first_perm (o : Order) (l : list Order) :
  Permutation (insert_newest_first o l) (o :: l).
Proof.
  induction l as [|x l IH]; simpl; [done|].
  destruct (created_at x <? created_at o); [done|].
  rewrite IH. apply perm_swap.
Qed.

Lemma order_by_created_at_desc_perm (l : list Order) :
  Permutation (order_by_created_at_desc l) l.
Proof.
  unfold order_by_created_at_desc. induction l as [|x l IH]; simpl; [done|].
  rewrite insert_newest_first_perm. by constructor.
Qed.

Lemma insert_newest_first_sorted (o : Order) (l : list Order) :
  StronglySorted newer_or_equal l → StronglySorted newer_or_equal (insert_newest_first o l).
Proof.
  unfold newer_or_equal. induction 1 as [|x l Hl IH Hx]; simpl.
  - repeat constructor.
  - destruct (Z.ltb_spec (created_at x) (created_at o)).
    + constructor; [by constructor|].
      constructor; [lia|]. eapply Forall_impl; [exact Hx|]. simpl. intros y Hy. lia.
    + constructor; [done|].
      rewrite insert_newest_first_perm. constructor; [lia | done].
Qed.

Lemma order_by_created_at_desc_sorted (l : list Order) :
  StronglySorted newer_or_equal (order_by_created_at_desc l).
Proof.
  unfold order_by_created_at_desc. induction l as [|x l IH]; simpl; [constructor|].
  by apply insert_newest_first_sorted.
Qed.

Lemma strip_start_app (l k : list Z) :
  Exists (fun c => http_whitespace c = false) l →
  strip_start (l ++ k) = strip_start l ++ k.
Proof.
  induction l as [|c l IH]; intros H; [by apply Exists_nil in H|].
  simpl. destruct (http_whitespace c) eqn:Hc; [|done].
  apply IH. apply Exists_cons in H as [H|H]; [congruence | done].
Qed.

Lemma strip_start_whitespace (l k : list Z) :
  Forall (fun c => http_whitespace c = true) l → strip_start (l ++ k) = strip_start k.
Proof. induction 1 as [|c l Hc _ IH]; [done|]. simpl. by rewrite Hc. Qed.

Lemma strip_start_keeps (l : list Z) :
  Exists (fun c => http_whitespace c = false) l → strip_start l ≠ [].
Proof.
  induction l as [|c l IH]; intros H; [by apply Exists_nil in H|].
  simpl. destruct (http_whitespace c) eqn:Hc; [|done].
  apply IH. apply Exists_cons in H as [H|H]; [congruence | done].
Qed.

(** The header ["Bearer " ++ token] as the handler sees it. *)
Lemma headers_get_bearer (token : list Z) :
  Exists (fun c => http_whitespace c = false) token →
  ∃ seen, seen ≠ [] ∧ headers_get (Some (lit "Bearer " ++ token)) = Some (lit "Bearer " ++ seen).
Proof.
  intros H. exists (rev (strip_start (rev token))). split.
  - intros Hnil. apply (f_equal (@rev Z)) in Hnil. rewrite rev_involutive in Hnil.
    revert Hnil. apply strip_start_keeps. apply Exists_exists.
    apply Exists_exists in H as (c & Hin & Hc). exists c. split; [|done].
    apply list_elem_of_In, in_rev. rewrite rev_involutive. by apply list_elem_of_In.
  - change (headers_get (Some (lit "Bearer " ++ token)))
      with (Some (rev (strip_start (rev (strip_start (lit "Bearer " ++ token)))))).
    f_equal.
    assert (strip_start (lit "Bearer " ++ token) = lit "Bearer " ++ token) as ->
      by reflexivity.
    rewrite rev_app_distr, strip_start_app, rev_app_distr; [by rewrite rev_involutive|].
    apply Exists_exists. apply Exists_exists in H as (c & Hin & Hc). exists c. split; [|done].
    apply list_elem_of_In, in_rev. rewrite rev_involutive. by apply list_elem_of_In.
Qed.

Lemma headers_get_bearer_blank (token : list Z) :
  Forall (fun c => http_whitespace c = true) token →
  headers_get (Some (lit "Bearer " ++ token)) = Some (lit "Bearer").
Proof.
  intros H.
  change (headers_get (Some (lit "Bearer " ++ token)))
    with (Some (rev (strip_start (rev (strip_start (lit "Bearer " ++ token)))))).
  f_equal.
  assert (strip_start (lit "Bearer " ++ token) = lit "Bearer " ++ token) as ->
    by reflexivity.
  rewrite rev_app_distr, strip_start_whitespace; [done|].
  apply Forall_forall. intros c Hc. rewrite Forall_forall in H. apply H.
  apply list_elem_of_In, in_rev in Hc. by apply list_elem_of_In.
Qed.

(** X18: GET /api/orders sees the authorization header with leading and
    trailing whitespace removed, and answers 401 unless what it sees starts
    with "Bearer ".  So a header "Bearer " followed by a token that has a
    character other than whitespace is let through, whatever the token is:
    the token is never looked at.  With such a header and a backend that
    answers, all the orders are listed, completed ones included, each once,
    newest first.  A header "Bearer " followed by nothing or by whitespace
    only is answered 401, like a missing header.  The store is never
    changed. *)
Theorem GET_orders_lists_everything :
  (∀ b authorization supabase,
     OrdersRoute.bearer (headers_get authorization) = false →
     OrdersRoute.GET b authorization supabase
     = (OrdersRoute.OrdersError 401 (lit "Unauthorized - Authentication required"),
        supabase))
  ∧ (∀ token db,
       Exists (fun c => http_whitespace c = false) token →
       ∃ listed,
         OrdersRoute.GET Performs (Some (lit "Bearer " ++ token)) (Some db)
         = (OrdersRoute.OrdersListed listed, Some db)
         ∧ Permutation listed (Database.orders db)
         ∧ StronglySorted newer_or_equal listed)
  ∧ (∀ b token supabase,
       Forall (fun c => http_whitespace c = true) token →
       OrdersRoute.GET b (Some (lit "Bearer " ++ token)) supabase
       = (OrdersRoute.OrdersError 401 (lit "Unauthorized - Authentication required"),
          supabase))
  ∧ (∀ b authorization supabase,
       (OrdersRoute.GET b authorization supabase).2 = supabase).
Proof.
  split; [|split; [|split]].
  - intros b authorization supabase H. unfold OrdersRoute.GET. by rewrite H.
  - intros token db Htoken. exists (order_by_created_at_desc (Database.orders db)).
    split; [|split].
    + destruct (headers_get_bearer token Htoken) as (seen & Hseen & Hget).
      unfold OrdersRoute.GET. rewrite Hget. unfold OrdersRoute.bearer.
      rewrite starts_with_app. done.
    + apply order_by_created_at_desc_perm.
    + apply order_by_created_at_desc_sorted.
  - intros b token supabase Htoken. unfold OrdersRoute.GET.
    by rewrite headers_get_bearer_blank.
  - intros b authorization supabase. unfold OrdersRoute.GET.
    destruct (negb _); [done|]. destruct supabase as [db|]; [|done].
    by destruct (Database.select_orders_all b db).
Qed.

(** Without a header, and with the header "Bearer " and nothing after it,
    the answer is 401; with the header "Bearer x" the completed order 3 is
    listed after the newer order 7. *)
Lemma GET_orders_lists_everything_witness :
  OrdersRoute.GET Performs None (Some store37)
  = (OrdersRoute.OrdersError 401 (lit "Unauthorized - Authentication required"), Some store37)
  ∧ OrdersRoute.GET Performs (Some (lit "Bearer ")) (Some store37)
    = (OrdersRoute.OrdersError 401 (lit "Unauthorized - Authentication required"),
       Some store37)
  ∧ OrdersRoute.GET Performs (Some (lit "Bearer x")) (Some store37)
    = (OrdersRoute.OrdersListed [order7; order3], Some store37)
  ∧ ∃ listed,
      OrdersRoute.GET Performs (Some (lit "Bearer " ++ lit "x")) (Some store37)
      = (OrdersRoute.OrdersListed listed, Some store37)
      ∧ Permutation listed (Database.orders store37)
      ∧ StronglySorted newer_or_equal listed.
Proof.
  split; [|split; [|split]].
  - exact (proj1 GET_orders_lists_everything Performs None (Some store37) eq_refl).
  - exact (proj1 (proj2 (proj2 GET_orders_lists_everything)) Performs [] (Some store37)
             (Forall_nil_2 _)).
  - reflexivity.
  - apply (proj1 (proj2 GET_orders_lists_everything) (lit "x") store37).
    apply Exists_cons_hd. reflexivity.
Defined.

End Listing.

(** ** The dashboard: what loadOrders shows *)

Section Dashboard.

Import JsNumber JsValue Database Scenarios Statements OrdersManagement.

Lemma group_items_from (itemsData : list OrderItem) (acc : gmap Z (list OrderItem)) (n : Z) :
  default [] (fold_left (fun acc item =>
                           <[order_id item := default [] (acc !! order_id item) ++ [item]]> acc)
                        itemsData acc !! n)
  = default [] (acc !! n) ++ List.filter (fun i => order_id i =? n) itemsData.
Proof.
  revert acc. induction itemsData as [|item itemsData IH]; intros acc; simpl.
  - by rewrite app_nil_r.
  - rewrite IH. destruct (Z.eqb_spec (order_id item) n) as [->|Hne].
    + rewrite lookup_insert_eq. simpl. by rewrite <- app_assoc.
    + by rewrite lookup_insert_ne.
Qed.

(** The group of an order holds the items of that order, in query order. *)
Lemma group_items_lookup (itemsData : list OrderItem) (n : Z) :
  default [] (group_items itemsData !! n) = List.filter (fun i => order_id i =? n) itemsData.
Proof. unfold group_items. by rewrite group_items_from, lookup_empty. Qed.

Lemma filter_order_among (numbers : list Z) (n : Z) (l : list OrderItem) :
  List.filter (fun i => order_id i =? n)
    (List.filter (fun i => existsb (Z.eqb (order_id i)) numbers) l)
  = if existsb (Z.eqb n) numbers then List.filter (fun i => order_id i =? n) l else [].
Proof.
  induction l as [|i l IH]; simpl; [by destruct (existsb _ numbers)|].
  destruct (existsb (Z.eqb (order_id i)) numbers) eqn:Ei; simpl;
    destruct (Z.eqb_spec (order_id i) n) as [Heq|Hne]; try exact IH;
    subst n; rewrite IH, Ei; done.
Qed.

Lemma status_map_snoc (l : list Order) (o : Order) :
  status_map (l ++ [o]) = <[order_number o := status o]> (status_map l).
Proof. unfold status_map. by rewrite fold_left_app. Qed.

Lemma status_map_lookup (l : list Order) (o : Order) :
  NoDup (map order_number l) → o ∈ l →
  status_map l !! order_number o = Some (status o).
Proof.
  induction l as [|x l IH] using rev_ind; intros Hdup Ho.
  - by apply elem_of_nil in Ho.
  - rewrite status_map_snoc. rewrite map_app in Hdup.
    apply NoDup_app in Hdup as (Hdup & Hnotin & _).
    apply elem_of_app in Ho as [Ho|Ho].
    + rewrite lookup_insert_ne; [by apply IH|].
      intros Heq. apply (Hnotin (order_number o)).
      * apply list_elem_of_fmap. by exists o.
      * simpl. rewrite Heq. by apply list_elem_of_singleton.
    + apply list_elem_of_singleton in Ho as ->. by rewrite lookup_insert_eq.
Qed.

Lemma status_map_absent (l : list Order) (n : Z) :
  n ∉ map order_number l → status_map l !! n = None.
Proof.
  induction l as [|x l IH] using rev_ind; intros Hn; [done|].
  rewrite status_map_snoc. rewrite map_app, not_elem_of_app in Hn. destruct Hn as [Hl Hx].
  rewrite lookup_insert_ne; [by apply IH|].
  intros <-. apply Hx. simpl. by apply list_elem_of_singleton.
Qed.

Lemma NoDup_numbers_filter (f : Order → bool) (l : list Order) :
  NoDup (map order_number l) → NoDup (map order_number (List.filter f l)).
Proof.
  induction l as [|x l IH]; simpl; [done|]. intros Hdup.
  apply NoDup_cons in Hdup as [Hx Hdup]. destruct (f x); simpl; [|by apply IH].
  apply NoDup_cons. split; [|by apply IH].
  intros Hin. apply Hx. apply list_elem_of_fmap in Hin as (o & -> & Ho).
  apply list_elem_of_fmap. exists o. split; [done|].
  apply elem_of_filter_bool in Ho. tauto.
Qed.

Lemma existsb_numbers (n : Z) (l : list Z) : existsb (Z.eqb n) l = bool_decide (n ∈ l).
Proof.
  induction l as [|x l IH]; simpl; [done|]. rewrite IH.
  destruct (Z.eqb_spec n x) as [->|Hne]; simpl.
  - symmetry. apply bool_decide_eq_true. by left.
  - apply bool_decide_ext. rewrite elem_of_cons. tauto.
Qed.

(** X19: when the backend answers both queries, loadOrders leaves the
    dashboard showing the active orders newest first, with the spinner off;
    if there is at least one, each of them is shown with exactly the lines
    of the order_items table that carry its number, in table order, and no
    group exists for any other number; and, order numbers being unique, the
    status selector of each shown order holds that order's status, and no
    selector exists for any other number. *)
Theorem loadOrders_shows_orders_with_their_lines
    (env : load_environment) (db : store) (u : ui) :
  orders_select env = Performs → items_select env = Performs →
  let u' := fst (loadOrders_configured env db u) in
  isLoading u' = false
  ∧ StronglySorted newer_or_equal (orders u')
  ∧ (orders u' ≠ [] →
     ∀ n, default [] (orderItems u' !! n)
          = if bool_decide (n ∈ map order_number (orders u'))
            then List.filter (fun i => order_id i =? n) (order_items db)
            else [])
  ∧ (well_formed db →
     ∀ o, o ∈ orders u' → selectedStatuses u' !! order_number o = Some (status o))
  ∧ (∀ n, n ∉ map order_number (orders u') → selectedStatuses u' !! n = None).
Proof.
  intros Ho Hi. cbv zeta. unfold loadOrders_configured, active_orders, select_orders_neq_status.
  rewrite Ho.
  set (shown := order_by_created_at_desc
                  (List.filter (fun o => negb (JsString.eqb (status o) (lit "completed")))
                               (Database.orders db))).
  assert (StronglySorted newer_or_equal shown) as Hsorted
    by apply order_by_created_at_desc_sorted.
  assert (OrdersManagement.orders
            (fst (setIsLoading false
                    match shown with
                    | [] => setSelectedStatuses (status_map shown) (setOrders shown u)
                    | _ :: _ =>
                        match select_items_in (items_select env) (map order_number shown) db with
                        | Data itemsData =>
                            setOrderItems (group_items itemsData)
                              (setSelectedStatuses (status_map shown) (setOrders shown u))
                        | Error _ => setSelectedStatuses (status_map shown) (setOrders shown u)
                        end
                    end, db)) = shown) as Hshown.
  { destruct shown; [done|]. simpl. by destruct (select_items_in _ _ db). }
  assert (selectedStatuses
            (fst (setIsLoading false
                    match shown with
                    | [] => setSelectedStatuses (status_map shown) (setOrders shown u)
                    | _ :: _ =>
                        match select_items_in (items_select env) (map order_number shown) db with
                        | Data itemsData =>
                            setOrderItems (group_items itemsData)
                              (setSelectedStatuses (status_map shown) (setOrders shown u))
                        | Error _ => setSelectedStatuses (status_map shown) (setOrders shown u)
                        end
                    end, db)) = status_map shown) as Hstatuses.
  { destruct shown; [done|]. simpl. by destruct (select_items_in _ _ db). }
  rewrite Hshown, Hstatuses. split; [done|]. split; [done|]. split; [|split].
  - intros Hne n. destruct shown as [|o shown'] eqn:Eshown; [done|].
    unfold select_items_in. rewrite Hi. cbn [fst orderItems setIsLoading setOrderItems].
    rewrite group_items_lookup, filter_order_among. by rewrite existsb_numbers.
  - intros [Hdup _] o Hin. apply status_map_lookup; [|done].
    unfold shown. rewrite order_by_created_at_desc_perm. by apply NoDup_numbers_filter.
  - apply status_map_absent.
Qed.

(** Orders 3 (completed) and 7 (ready), and two lines of order 7. *)
Lemma loadOrders_shows_orders_with_their_lines_witness :
  let line q := {| order_id := 7; menu_item_id := number 1; base_name := text "Montana";
                   size_code := lit "R"; protein := text "Beef"; quantity := of_Z q;
                   unit_price := of_Z 280; item_total_amount := of_Z (280 * q) |} in
  let db := {| Database.orders := [order3; order7]; order_items := [line 1; line 2];
               next_order_number := 8 |} in
  let u' := fst (loadOrders_configured load_env db initial) in
  OrdersManagement.orders u' = [order7]
  ∧ orderItems u' !! 7 = Some [line 1; line 2]
  ∧ isLoading u' = false.
Proof.
  intros line db u'. split; [reflexivity|]. split; [reflexivity|].
  exact (proj1 (loadOrders_shows_orders_with_their_lines load_env db initial eq_refl eq_refl)).
Defined.

Lemma updating_done (n : Z) (updating : gset Z) :
  ({[n]} ∪ updating) ∖ {[n]} = updating ∖ {[n]}.
Proof. apply set_eq. intros x. rewrite !elem_of_difference, elem_of_union. tauto. Qed.

(** X20: what updateOrderStatus does to the dashboard.  The order number
    is never left in the set of orders being updated, and the rest of that
    set is untouched.  When the backend refuses the update, the only effect
    is the alert: the store, the list and the selectors stay as they were.
    When a requested 'collected' is written, nothing is alerted, the order
    leaves the list and its selector is deleted, without any reload. *)
Theorem updateOrderStatus_dashboard_effects
    (env : update_environment) (n : Z) (s : jsstring) (db : store) (u : ui) :
  let u' := fst (updateOrderStatus_configured env n s db u) in
  let db' := snd (updateOrderStatus_configured env n s db u) in
  updatingOrders u' = updatingOrders u ∖ {[n]}
  ∧ (∀ m, order_update env = Fails m →
          alerts u' = alerts u ++ [lit "Failed to update order status"]
          ∧ OrdersManagement.orders u' = OrdersManagement.orders u
          ∧ orderItems u' = orderItems u
          ∧ selectedStatuses u' = selectedStatuses u
          ∧ db' = db)
  ∧ (order_update env = Performs → alerts u' = alerts u)
  ∧ (order_update env = Performs → s = lit "collected" →
     OrdersManagement.orders u'
     = List.filter (fun o => negb (order_number o =? n)) (OrdersManagement.orders u)
     ∧ selectedStatuses u' = delete n (selectedStatuses u)
     ∧ orderItems u' = orderItems u
     ∧ n ∉ map order_number (OrdersManagement.orders u')).
Proof.
  cbv zeta. unfold updateOrderStatus_configured, update_status_by_number.
  destruct (order_update env) as [|m] eqn:Hupdate.
  - destruct (JsString.eqb s (lit "collected")) eqn:Hs.
    + simpl. split; [apply updating_done|]. split; [done|]. split; [done|]. intros _ _.
      do 3 (split; [done|]).
      intros Hin. apply list_elem_of_fmap in Hin as (o & Hn & Ho).
      apply elem_of_filter_bool in Ho as [_ Ho]. apply negb_true_iff, Z.eqb_neq in Ho.
      congruence.
    + assert (s ≠ lit "collected") as Hne by (by apply eqb_neq).
      unfold loadOrders_configured.
      destruct (active_orders _ _) as [ordersData|]; simpl.
      * destruct ordersData as [|o ordersData]; simpl.
        -- split; [apply updating_done|]. by repeat split.
        -- destruct (select_items_in _ _ _); simpl; (split; [apply updating_done|]); by repeat split.
      * split; [apply updating_done|]. by repeat split.
  - simpl. split; [apply updating_done|]. split; [|done]. intros m' _. done.
Qed.

Lemma updateOrderStatus_dashboard_effects_witness :
  let shown := setOrders [order7] initial in
  let failed := fst (updateOrderStatus_configured failing_update_env 7 (lit "collected")
                       store7 shown) in
  let collected := fst (updateOrderStatus_configured update_env 7 (lit "collected")
                          store7 shown) in
  alerts failed = [lit "Failed to update order status"]
  ∧ OrdersManagement.orders failed = [order7]
  ∧ OrdersManagement.orders collected = []
  ∧ alerts collected = [].
Proof.
  intros shown failed collected.
  pose proof (updateOrderStatus_dashboard_effects failing_update_env 7 (lit "collected")
                store7 shown) as (_ & Hfail & _).
  pose proof (updateOrderStatus_dashboard_effects update_env 7 (lit "collected")
                store7 shown) as (_ & _ & Halerts & Hcollected).
  destruct (Hfail _ eq_refl) as (Ha & Ho & _).
  destruct (Hcollected eq_refl eq_refl) as (Hc & _).
  split; [exact Ha|]. split; [exact Ho|]. split; [exact Hc|]. exact (Halerts eq_refl).
Defined.



End Dashboard.

(** ** OrderSystem: order numbers and verification codes *)

Section OrderNumbers.

Import JsValue Base64 OrderSystem OrderSystemStatements.

Lemma drawn_range (random : nat → Q) (i : nat) :
  unit_interval random → 10000 <= drawn random i <= 99999.
Proof.
  intros Hunit. destruct (Hunit i) as [H0 H1]. unfold drawn.
  set (x := Qplus (inject_Z 10000) (Qmult (random i) (inject_Z 90000))).
  assert (Qle (inject_Z 10000) x) as Hlo by (unfold x, inject_Z; lra).
  assert (Qlt x (inject_Z 100000)) as Hhi by (unfold x, inject_Z; lra).
  split.
  - rewrite <- (Qfloor_Z 10000). by apply Qfloor_resp_le.
  - assert (Qfloor x < 100000); [|lia].
    rewrite Zlt_Qlt. eapply Qle_lt_trans; [apply Qfloor_le | done].
Qed.

Lemma draw_loop_S (random : nat → Q) (used : gset Z) (fuel attempts : nat) :
  draw_loop (S fuel) attempts random used
  = if (maxAttempts <? S attempts)%nat then Throws
    else if bool_decide (drawn random attempts ∈ used)
         then draw_loop fuel (S attempts) random used
         else Normal (drawn random attempts).
Proof. reflexivity. Qed.

(** The loop returns the first draw that is not in use, if it is among the
    first 1000. *)
Lemma draw_loop_returns (random : nat → Q) (used : gset Z) (fuel attempts : nat) (v : Z) :
  draw_loop fuel attempts random used = Normal v →
  ∃ i, (attempts <= i < 1000)%nat ∧ v = drawn random i ∧ (v ∉ used)
       ∧ ∀ j, (attempts <= j < i)%nat → drawn random j ∈ used.
Proof.
  revert attempts. induction fuel as [|fuel IH]; intros attempts H; [done|].
  rewrite draw_loop_S in H.
  destruct (Nat.ltb_spec maxAttempts (S attempts)) as [|Hle]; [done|].
  unfold maxAttempts in Hle.
  destruct (bool_decide_reflect (drawn random attempts ∈ used)) as [Hin|Hnotin].
  - destruct (IH _ H) as (i & Hi & Hv & Hfresh & Hused).
    exists i. split; [lia|]. split; [done|]. split; [done|].
    intros j Hj. destruct (decide (j = attempts)) as [->|]; [done|]. apply Hused. lia.
  - injection H as <-. exists attempts. split; [lia|]. split; [done|]. split; [done|].
    intros j Hj. lia.
Qed.

Lemma draw_loop_throws (random : nat → Q) (used : gset Z) (fuel attempts : nat) :
  (1000 < fuel + attempts)%nat →
  draw_loop fuel attempts random used = Throws →
  ∀ j, (attempts <= j < 1000)%nat → drawn random j ∈ used.
Proof.
  revert attempts. induction fuel as [|fuel IH]; intros attempts Hfuel H j Hj; [lia|].
  rewrite draw_loop_S in H.
  destruct (Nat.ltb_spec maxAttempts (S attempts)) as [Hgt|Hle];
    unfold maxAttempts in *; [lia|].
  destruct (bool_decide_reflect (drawn random attempts ∈ used)) as [Hin|Hnotin]; [|done].
  destruct (decide (j = attempts)) as [->|]; [done|].
  apply (IH (S attempts)); [lia | done | lia].
Qed.

(** X22: createNewOrder on a consistent system, with draws in [0, 1).
    When it returns, the order carries the current order number, the clock
    value, and a five-digit verification number that was not in use; the
    counter has advanced by one, the order is the last of the history, and
    the system is consistent again (no order number and no verification
    number occurs twice).  When it throws, the counter, the history, the
    used numbers and localStorage are as before, and this happens only when
    each of the 1000 draws hit a number in use: if one of them is free, the
    call returns. *)
Theorem createNewOrder_spec (now : Z) (random : nat → Q) (s : state) :
  consistent s → unit_interval random →
  match createNewOrder now random s with
  | (Normal o, s') =>
      orderNumber o = currentOrderNumber s
      ∧ timestamp o = now
      ∧ 10000 <= verificationNumber o <= 99999
      ∧ (verificationNumber o ∉ usedVerificationNumbers s)
      ∧ currentOrderNumber s' = currentOrderNumber s + 1
      ∧ getOrderHistory s' = getOrderHistory s ++ [o]
      ∧ consistent s'
      ∧ ∃ i, (i < 1000)%nat ∧ drawn random i ∉ usedVerificationNumbers s
  | (Throws, s') =>
      currentOrderNumber s' = currentOrderNumber s
      ∧ getOrderHistory s' = getOrderHistory s
      ∧ usedVerificationNumbers s' = usedVerificationNumbers s
      ∧ localStorage s' = localStorage s
      ∧ ∀ i, (i < 1000)%nat → drawn random i ∈ usedVerificationNumbers s
  end.
Proof.
  intros (Hnum & Hlt & Hver & Hused) Hunit.
  unfold createNewOrder, generateUniqueVerificationNumber.
  cbn [usedVerificationNumbers with_currentOrderNumber].
  destruct (draw_loop (S maxAttempts) 0 random (usedVerificationNumbers s))
    as [v|] eqn:Hloop.
  - apply draw_loop_returns in Hloop as (i & Hi & -> & Hfresh & _).
    assert (∀ t, orders (saveToStorage t) = orders t
                 ∧ currentOrderNumber (saveToStorage t) = currentOrderNumber t
                 ∧ usedVerificationNumbers (saveToStorage t) = usedVerificationNumbers t)
      as Hsave by (intros t; unfold saveToStorage; by destruct (has_window t)).
    unfold getOrderHistory, consistent.
    match goal with |- context [saveToStorage ?t] => destruct (Hsave t) as (-> & -> & ->) end.
    simpl. do 2 (split; [done|]). split; [by apply drawn_range|].
    do 3 (split; [done|]). split; [|exists i; split; [lia | done]].
    rewrite !map_app. simpl. repeat split.
    + apply NoDup_app. split; [done|]. split; [|apply NoDup_singleton].
      intros n Hn. rewrite list_elem_of_singleton. intros ->.
      apply list_elem_of_fmap in Hn as (o & Heq & Ho).
      rewrite Forall_forall in Hlt. specialize (Hlt o Ho). lia.
    + apply Forall_app. split.
      * eapply Forall_impl; [exact Hlt|]. simpl. intros o Ho. lia.
      * apply Forall_singleton. simpl. lia.
    + apply NoDup_app. split; [done|]. split; [|apply NoDup_singleton].
      intros n Hn. rewrite list_elem_of_singleton. intros ->.
      apply list_elem_of_fmap in Hn as (o & Heq & Ho).
      rewrite Forall_forall in Hused. specialize (Hused o Ho). congruence.
    + apply Forall_app. split.
      * eapply Forall_impl; [exact Hused|]. simpl. intros o Ho.
        apply elem_of_union. by right.
      * apply Forall_singleton. simpl. apply elem_of_union. left.
        by apply elem_of_singleton.
  - simpl. split; [lia|]. do 3 (split; [done|]).
    intros i Hi. apply (draw_loop_throws random _ (S maxAttempts) 0%nat);
      [unfold maxAttempts; lia | done | lia].
Qed.

(** The first order of a fresh system, with every draw equal to 1/2. *)
Lemma createNewOrder_spec_witness :
  let s := {| usedVerificationNumbers := ∅; currentOrderNumber := 1; orders := [];
              has_window := true;
              localStorage := {| cafeOrders := None; cafeOrderNumber := None;
                                 cafeVerificationNumbers := None |} |} in
  ∃ o s',
    createNewOrder 1000 (fun _ => 1 # 2) s = (Normal o, s')
    ∧ orderNumber o = 1 ∧ verificationNumber o = 55000
    ∧ currentOrderNumber s' = 2
    ∧ consistent s'.
Proof.
  intros s.
  assert (consistent s) as Hs by (repeat split; constructor).
  assert (unit_interval (fun _ => 1 # 2)) as Hunit by (intros i; unfold Qle, Qlt; simpl; lia).
  pose proof (createNewOrder_spec 1000 (fun _ => 1 # 2) s Hs Hunit) as H.
  destruct (createNewOrder 1000 (fun _ : nat => 1 # 2) s) as [[o|] s'] eqn:E.
  - exists o, s'. split; [reflexivity|].
    destruct H as (Hn & _ & _ & _ & Hc & _ & Hcons & _).
    split; [exact Hn|]. split; [|split; [exact Hc | exact Hcons]].
    vm_compute in E. injection E as <- _. reflexivity.
  - vm_compute in E. discriminate E.
Defined.

Lemma xor_key_bytes (key data : list Z) :
  Forall is_byte key → Forall is_byte data → Forall is_byte (xor_key key data).
Proof.
  intros Hkey Hdata. apply Forall_lookup. intros i x. unfold xor_key.
  rewrite list_lookup_imap. destruct (data !! i) as [d|] eqn:Hd; simpl; [|done].
  intros [= <-]. pose proof (Forall_lookup_1 _ _ _ _ Hdata Hd) as Hbyte.
  assert (is_byte (default 0 (key !! (i mod length key)%nat))) as Hk.
  { destruct (key !! (i mod length key)%nat) as [k|] eqn:Hk; simpl;
      [|unfold is_byte; lia].
    exact (Forall_lookup_1 _ _ _ _ Hkey Hk). }
  unfold is_byte in *.
  pose proof (byte_pair_cases (fun a b => (0 <=? Z.lxor a b) && (Z.lxor a b <? 256))
                ltac:(by vm_compute) d _ Hbyte Hk) as Hx.
  cbv beta in Hx. apply andb_true_iff in Hx as [Hx0 Hx1]. apply Z.leb_le in Hx0. apply Z.ltb_lt in Hx1.
  by split.
Qed.

Lemma xor_key_twice (key data : list Z) : xor_key key (xor_key key data) = data.
Proof.
  apply list_eq. intros i. unfold xor_key. rewrite !list_lookup_imap.
  destruct (data !! i) as [d|]; [|done]. simpl. f_equal.
  by rewrite Z.lxor_assoc, Z.lxor_nilpotent, Z.lxor_0_r.
Qed.

(** X23: the private encryptData and decryptData of OrderSystem undo each
    other on text and keys made of code units below 256 (the JSON text and
    the fixed key are ASCII): encryptData does not throw, and decryptData
    with the same key gives the text back.  Decrypting what is not base64
    gives the empty string. *)
Theorem order_storage_round_trip :
  (∀ data key,
     Forall is_byte data → Forall is_byte key →
     ∃ encrypted,
       OrderSystem.encryptData data key = Normal encrypted
       ∧ OrderSystem.decryptData encrypted key = data)
  ∧ (∀ encryptedData key,
       atob encryptedData = Throws → OrderSystem.decryptData encryptedData key = []).
Proof.
  split.
  - intros data key Hdata Hkey. unfold OrderSystem.encryptData, OrderSystem.decryptData.
    destruct (atob_btoa (xor_key key data)) as (encoded & -> & Hdecode);
      [by apply xor_key_bytes|].
    exists encoded. split; [done|]. by rewrite Hdecode, xor_key_twice.
  - intros encryptedData key H. unfold OrderSystem.decryptData. by rewrite H.
Qed.

Lemma order_storage_round_trip_witness :
  (∃ encrypted,
     OrderSystem.encryptData (lit "[10234,55000]") (lit "cafe-order-system-key-2024")
     = Normal encrypted
     ∧ OrderSystem.decryptData encrypted (lit "cafe-order-system-key-2024")
       = lit "[10234,55000]")
  ∧ OrderSystem.decryptData (lit "not base64!") (lit "cafe-order-system-key-2024") = [].
Proof.
  split.
  - apply (proj1 order_storage_round_trip);
      apply Forall_forall; intros c Hc; unfold is_byte;
      vm_compute in Hc; repeat (apply elem_of_cons in Hc as [->|Hc]; [lia|]);
      by apply elem_of_nil in Hc.
  - apply (proj2 order_storage_round_trip). reflexivity.
Defined.

End OrderNumbers.

(** ** TrackingSystem: subscribers that react *)

Section NotificationFacts.

Import TrackingSystem Notifications NotificationStatements.

Lemma saveToStorage_fields env s :
  Notifications.statusUpdates (saveToStorage env s) = Notifications.statusUpdates s
  ∧ Notifications.subscribers (saveToStorage env s) = Notifications.subscribers s
  ∧ Notifications.currentOrderBeingPrepared (saveToStorage env s)
    = Notifications.currentOrderBeingPrepared s
  ∧ Notifications.currentOrderSubscribers (saveToStorage env s)
    = Notifications.currentOrderSubscribers s
  ∧ order_arrays (saveToStorage env s) = order_arrays s
  ∧ current_arrays (saveToStorage env s) = current_arrays s
  ∧ Notifications.calls (saveToStorage env s) = Notifications.calls s.
Proof. unfold saveToStorage. repeat case_match; done. Qed.

Lemma unaffected_refl cb s : unaffected cb s s.
Proof. split; [by intros a | done]. Qed.

Lemma unaffected_trans cb s1 s2 s3 :
  unaffected cb s1 s2 → unaffected cb s2 s3 → unaffected cb s1 s3.
Proof.
  intros [Hn1 Hq1] [Hn2 Hq2]. split.
  - intros a Ha. by apply Hn1, Hn2.
  - intros H1. destruct (Hq1 H1) as [H2 Hc1]. destruct (Hq2 H2) as [H3 Hc2].
    split; [done | congruence].
Qed.

(** A step that leaves the arrays of current-order subscribers, the field
    and the log alone. *)
Lemma unaffected_same cb s s' :
  current_arrays s' = current_arrays s →
  Notifications.currentOrderSubscribers s' = Notifications.currentOrderSubscribers s →
  Notifications.calls s' = Notifications.calls s →
  unaffected cb s s'.
Proof.
  intros Ha Hf Hc. unfold unaffected, no_new, live, current_array.
  rewrite Ha, Hf, Hc. split; [by intros a | done].
Qed.

Lemma unaffected_saveToStorage cb env s : unaffected cb s (saveToStorage env s).
Proof.
  destruct (saveToStorage_fields env s) as (_ & _ & _ & Hf & _ & Ha & Hc).
  by apply unaffected_same.
Qed.

Lemma current_calls_of_app cb (a b : list invocation) :
  current_calls_of cb (a ++ b) = current_calls_of cb a ++ current_calls_of cb b.
Proof. apply omap_app. Qed.

Lemma perform_unaffected cb exec p s :
  respects cb exec →
  ¬ makes (SubscribeToCurrentOrder cb) p →
  unaffected cb s (perform exec p s).1.
Proof.
  intros Hexec. revert s. induction p as [| |o next IH]; intros s Hp; simpl.
  - apply unaffected_refl.
  - apply unaffected_refl.
  - simpl in Hp.
    assert (o ≠ SubscribeToCurrentOrder cb) as Ho by (intros ->; apply Hp; by left).
    pose proof (Hexec o s Ho) as H1.
    destruct (exec o s) as [s1 [| |]]; simpl in *; [| |done].
    + eapply unaffected_trans; [exact H1|]. apply IH. intros H. apply Hp. right. eauto.
    + eapply unaffected_trans; [exact H1|]. apply IH. intros H. apply Hp. right. eauto.
Qed.

(** A call of a subscriber, other than a call of [cb] as a current-order
    subscriber. *)
Lemma call_unaffected cb exec env i s :
  respects cb exec → never_resubscribed env cb →
  current_calls_of cb [i] = [] →
  unaffected cb s (call exec env i s).1.
Proof.
  intros Hexec Hquiet Hi. unfold call.
  assert (unaffected cb s (record i s)) as Hrec.
  { split; [by intros a|]. intros Hlive. split; [done|]. simpl.
    by rewrite current_calls_of_app, Hi, app_nil_r. }
  eapply unaffected_trans; [exact Hrec|]. by apply perform_unaffected.
Qed.

(** A call of any subscriber adds [cb] to no array. *)
Lemma call_no_new cb exec env i s :
  respects cb exec → never_resubscribed env cb →
  no_new cb s (call exec env i s).1.
Proof.
  intros Hexec Hquiet. unfold call.
  by apply (perform_unaffected cb exec (reaction env i (record i s)) (record i s)).
Qed.

Lemma forEach_no_new cb exec env heap a mk todo k s :
  respects cb exec → never_resubscribed env cb →
  no_new cb s (forEach exec env heap a mk todo k s).1.
Proof.
  intros Hexec Hquiet. revert k s. induction todo as [|todo IH]; intros k s; simpl.
  - by intros b.
  - destruct (default [] (heap s !! a) !! k) as [cb'|]; [|apply IH].
    pose proof (call_no_new cb exec env (mk cb') s Hexec Hquiet) as H1.
    destruct (call exec env (mk cb') s) as [s1 [| |]]; simpl in *; [|done..].
    intros b Hb. by apply H1, (IH (S k) s1).
Qed.

(** The walk over the array of an order: [cb] is not called as a
    current-order subscriber. *)
Lemma forEach_order_unaffected cb exec env a st todo k s :
  respects cb exec → never_resubscribed env cb →
  unaffected cb s
    (forEach exec env order_arrays a (fun cb' => OrderCallback cb' st) todo k s).1.
Proof.
  intros Hexec Hquiet. revert k s. induction todo as [|todo IH]; intros k s; simpl.
  - apply unaffected_refl.
  - destruct (default [] (order_arrays s !! a) !! k) as [cb'|]; [|apply IH].
    pose proof (call_unaffected cb exec env (OrderCallback cb' st) s Hexec Hquiet eq_refl)
      as H1.
    destruct (call exec env (OrderCallback cb' st) s) as [s1 [| |]]; simpl in *; [|done..].
    eapply unaffected_trans; [exact H1 | apply IH].
Qed.

(** The walk over an array of current-order subscribers that does not
    hold [cb]. *)
Lemma forEach_current_unaffected cb exec env a v todo k s :
  respects cb exec → never_resubscribed env cb →
  cb ∉ current_array s a →
  unaffected cb s
    (forEach exec env current_arrays a (fun cb' => CurrentOrderCallback cb' v) todo k s).1.
Proof.
  intros Hexec Hquiet. revert k s. induction todo as [|todo IH]; intros k s Ha; simpl.
  - apply unaffected_refl.
  - fold (current_array s a).
    destruct (current_array s a !! k) as [cb'|] eqn:Hk; [|by apply IH].
    assert (cb' ≠ cb) as Hne by (intros ->; apply Ha; by eapply list_elem_of_lookup_2).
    assert (current_calls_of cb [CurrentOrderCallback cb' v] = []) as Hi.
    { unfold current_calls_of. simpl. by destruct (Nat.eqb_spec cb' cb). }
    pose proof (call_unaffected cb exec env (CurrentOrderCallback cb' v) s Hexec Hquiet Hi)
      as H1.
    destruct (call exec env (CurrentOrderCallback cb' v) s) as [s1 [| |]]; simpl in *;
      [|done..].
    eapply unaffected_trans; [exact H1|]. apply IH. intros Hin. apply Ha.
    by apply (proj1 H1).
Qed.

Lemma elem_of_remove_first (cb x : callback) (l : list callback) :
  cb ∈ remove_first x l → cb ∈ l.
Proof.
  induction l as [|y l IH]; simpl; [done|].
  destruct (Nat.eqb y x).
  - intros H. by right.
  - rewrite !elem_of_cons. intros [->|H]; [by left | right; by apply IH].
Qed.

Lemma step_respects cb exec env :
  respects cb exec → never_resubscribed env cb → respects cb (step exec env).
Proof.
  intros Hexec Hquiet o s Ho.
  assert (∀ now n st s, unaffected cb s (updateOrderStatus exec env now n st s).1)
    as Hupdate.
  { intros now n st s0. unfold updateOrderStatus.
    destruct (Notifications.statusUpdates s0 !! n) as [existing|];
      [|apply unaffected_refl].
    set (s1 := saveToStorage env _).
    assert (unaffected cb s0 s1) as H1.
    { eapply unaffected_trans; [|apply unaffected_saveToStorage].
      by apply unaffected_same. }
    destruct (Notifications.subscribers s1 !! n) as [a|]; [|done].
    eapply unaffected_trans; [exact H1|]. by apply forEach_order_unaffected. }
  destruct o as [now0 n0 v0 | now0 n0 st0 | n0 cb0 | n0 cb0 | now0 n0 | n0 | cb0 | cb0 | ];
    simpl.
  - unfold initializeOrder.
    eapply unaffected_trans; [|apply unaffected_saveToStorage]. by apply unaffected_same.
  - apply Hupdate.
  - unfold subscribeToOrder.
    destruct (Notifications.subscribers s !! n0); by apply unaffected_same.
  - unfold unsubscribe.
    destruct (Notifications.subscribers s !! n0); by apply unaffected_same.
  - unfold simulateStatusUpdate.
    destruct (Notifications.statusUpdates s !! n0); [apply Hupdate | apply unaffected_refl].
  - unfold setCurrentOrderBeingPrepared.
    set (s1 := saveToStorage env _).
    assert (unaffected cb s s1) as H1.
    { eapply unaffected_trans; [|apply unaffected_saveToStorage].
      by apply unaffected_same. }
    split.
    + intros a Ha. apply (proj1 H1). revert Ha. by apply forEach_no_new.
    + intros Hlive. destruct (proj2 H1 Hlive) as [Hlive1 Hcalls1].
      destruct (forEach_current_unaffected cb exec env
                  (Notifications.currentOrderSubscribers s1) n0
                  (length (current_array s1 (Notifications.currentOrderSubscribers s1)))
                  0 s1 Hexec Hquiet Hlive1) as [_ H2].
      destruct (H2 Hlive1) as [Hlive2 Hcalls2]. split; [done | congruence].
  - assert (cb0 ≠ cb) as Hne by congruence.
    unfold subscribeToCurrentOrder. split.
    + intros a. unfold current_array. simpl.
      destruct (decide (a = Notifications.currentOrderSubscribers s)) as [->|Ha].
      * rewrite lookup_insert_eq. simpl. rewrite elem_of_app, list_elem_of_singleton.
        intros [H|H]; [done | congruence].
      * by rewrite lookup_insert_ne.
    + unfold live, current_array. simpl. rewrite lookup_insert_eq. simpl.
      intros Hlive. split; [|done].
      rewrite elem_of_app, list_elem_of_singleton. intros [H|H]; [done | congruence].
  - unfold unsubscribeCurrent. split.
    + intros a. unfold current_array. simpl.
      destruct (decide (a = Notifications.currentOrderSubscribers s)) as [->|Ha].
      * rewrite lookup_insert_eq. simpl. apply elem_of_remove_first.
      * by rewrite lookup_insert_ne.
    + unfold live, current_array. simpl. rewrite lookup_insert_eq. simpl.
      intros Hlive. split; [|done]. intros H. by apply elem_of_remove_first in H.
  - unfold resetSystem.
    eapply unaffected_trans; [|apply unaffected_saveToStorage]. split.
    + intros a. unfold current_array. simpl.
      destruct (decide (a = next_array s)) as [->|Ha].
      * rewrite lookup_insert_eq. simpl. by intros H%elem_of_nil.
      * by rewrite lookup_insert_ne.
    + unfold live, current_array. simpl. rewrite lookup_insert_eq. simpl.
      intros _. split; [apply not_elem_of_nil | done].
Qed.

Lemma exec_respects cb env depth :
  never_resubscribed env cb → respects cb (exec env depth).
Proof.
  intros Hquiet. induction depth as [|depth IH].
  - intros o s _. apply unaffected_refl.
  - intros o s Ho. simpl. by apply step_respects.
Qed.

Lemma run_unaffected cb env depth ops s :
  never_resubscribed env cb →
  Forall (fun o => o ≠ SubscribeToCurrentOrder cb) ops →
  unaffected cb s (run env depth ops s).
Proof.
  intros Hquiet Hops. revert s. induction Hops as [|o ops Ho _ IH]; intros s; simpl.
  - apply unaffected_refl.
  - pose proof (exec_respects cb env depth Hquiet o s Ho) as H1.
    destruct (exec env depth o s) as [s1 [| |]]; simpl in *;
      [eapply unaffected_trans; [exact H1 | apply IH] ..| exact H1].
Qed.

(** X14: the function returned by subscribeToCurrentOrder stops the calls,
    whatever the other subscribers do.  When it is called by the application
    (not from inside a subscriber) for a callback that is registered at most
    once, the callback is gone from the array of current-order subscribers;
    and from then on, through any calls made by the application and any
    reactions of the subscribers (which may subscribe and unsubscribe
    others, update, reset the system, throw, to any depth), the callback is
    never called again as a current-order subscriber, provided that nobody
    subscribes it again. *)
Theorem unsubscribeCurrent_stops_callbacks
    (env : environment) (cb : callback) (s : state) (after : list op) (depth : nat) :
  (occurrences cb (live s) <= 1)%nat →
  never_resubscribed env cb →
  Forall (fun o => o ≠ SubscribeToCurrentOrder cb) after →
  let unsubscribed := unsubscribeCurrent cb s in
  (cb ∉ live unsubscribed)
  ∧ (cb ∉ live (run env depth after unsubscribed))
  ∧ current_calls_of cb (Notifications.calls (run env depth after unsubscribed))
    = current_calls_of cb (Notifications.calls unsubscribed).
Proof.
  intros Honce Hquiet Hafter unsubscribed.
  assert (cb ∉ live unsubscribed) as Hgone.
  { unfold unsubscribed, unsubscribeCurrent, live, current_array. simpl.
    rewrite lookup_insert_eq. simpl. fold (current_array s (Notifications.currentOrderSubscribers s)).
    fold (live s). apply occurrences_zero. rewrite occurrences_remove_first_same. lia. }
  split; [done|].
  by apply (run_unaffected cb env depth after unsubscribed Hquiet Hafter).
Qed.

Lemma recorded_fields made s :
  Notifications.statusUpdates (recorded made s) = Notifications.statusUpdates s
  ∧ Notifications.subscribers (recorded made s) = Notifications.subscribers s
  ∧ Notifications.currentOrderBeingPrepared (recorded made s)
    = Notifications.currentOrderBeingPrepared s
  ∧ Notifications.currentOrderSubscribers (recorded made s)
    = Notifications.currentOrderSubscribers s
  ∧ order_arrays (recorded made s) = order_arrays s
  ∧ current_arrays (recorded made s) = current_arrays s
  ∧ Notifications.localStorage (recorded made s) = Notifications.localStorage s
  ∧ Notifications.calls (recorded made s) = Notifications.calls s ++ made.
Proof.
  unfold recorded. revert s. induction made as [|i made IH]; intros s; simpl.
  - by rewrite app_nil_r.
  - destruct (IH (record i s)) as (-> & -> & -> & -> & -> & -> & -> & ->). simpl.
    by rewrite <- app_assoc.
Qed.

Lemma call_inert exec env i s :
  inert env (subscriber i) → call exec env i s = (record i s, Returned).
Proof. intros H. unfold call. by rewrite (H i (record i s) eq_refl). Qed.

Lemma forEach_S exec env heap a mk todo k s :
  forEach exec env heap a mk (S todo) k s
  = match default [] (heap s !! a) !! k with
    | Some cb => and_then (call exec env (mk cb) s) (forEach exec env heap a mk todo (S k))
    | None => forEach exec env heap a mk todo (S k) s
    end.
Proof. done. Qed.

(** The walk over a stretch of the array whose subscribers do nothing:
    each is called, in order, and nothing else happens. *)
Lemma forEach_inert_stretch exec env heap a mk (n : nat) :
  (∀ i s, heap (record i s) = heap s) →
  (∀ cb, subscriber (mk cb) = cb) →
  ∀ todo k s,
    (n <= todo)%nat →
    Forall (inert env) (take n (drop k (default [] (heap s !! a)))) →
    forEach exec env heap a mk todo k s
    = forEach exec env heap a mk (todo - n) (k + n)
        (recorded (map mk (take n (drop k (default [] (heap s !! a))))) s).
Proof.
  intros Hheap Hmk. induction n as [|n IH]; intros todo k s Hn Hinert.
  - rewrite Nat.sub_0_r, Nat.add_0_r. by rewrite take_0.
  - destruct todo as [|todo]; [lia|]. simpl forEach.
    destruct (default [] (heap s !! a) !! k) as [cb|] eqn:Hk.
    + rewrite (drop_S _ cb) in * by done. rewrite firstn_cons in *.
      apply Forall_cons_1 in Hinert as [Hcb Hinert].
      rewrite call_inert by (by rewrite Hmk). cbn [and_then].
      rewrite IH; [|lia|by rewrite Hheap].
      rewrite Hheap. replace (S k + n)%nat with (k + S n)%nat by lia. done.
    + apply lookup_ge_None in Hk.
      rewrite (drop_ge _ k) in * by done. rewrite take_nil in *. simpl recorded.
      assert (∀ todo' k', (length (default [] (heap s !! a)) <= k')%nat →
                forEach exec env heap a mk todo' k' s = (s, Returned)) as Hout.
      { clear -Hheap. induction todo' as [|todo' IH']; intros k' Hk'; [done|].
        simpl. rewrite (proj2 (lookup_ge_None _ _) Hk'). apply IH'. lia. }
      rewrite !Hout by lia. done.
Qed.

Lemma forEach_inert exec env heap a mk todo k s :
  (∀ i s, heap (record i s) = heap s) →
  (∀ cb, subscriber (mk cb) = cb) →
  Forall (inert env) (take todo (drop k (default [] (heap s !! a)))) →
  forEach exec env heap a mk todo k s
  = (recorded (map mk (take todo (drop k (default [] (heap s !! a))))) s, Returned).
Proof.
  intros Hheap Hmk Hinert.
  rewrite (forEach_inert_stretch exec env heap a mk todo) by done.
  by rewrite Nat.sub_diag.
Qed.

(** X13: subscribers that do nothing when called (they return without
    calling into the tracking system, like the state setters of the
    tracking page) are each called once per registration, in the order of
    the array, with the value announced or the new status, and the call
    returns; nothing else changes but what the function writes itself. *)
Theorem notifications_reach_inert_subscribers
    (env : environment) (depth : nat) (s : state) :
  (∀ orderNumber,
     Forall (inert env) (live s) →
     ∃ s', exec env (S depth) (SetCurrentOrderBeingPrepared orderNumber) s = (s', Returned)
           ∧ Notifications.calls s'
             = Notifications.calls s
               ++ map (fun cb => CurrentOrderCallback cb orderNumber) (live s)
           ∧ Notifications.currentOrderBeingPrepared s' = orderNumber
           ∧ live s' = live s)
  ∧ (∀ now orderNumber newStatus existing a,
       Notifications.statusUpdates s !! orderNumber = Some existing →
       Notifications.subscribers s !! orderNumber = Some a →
       Forall (inert env) (order_array s a) →
       ∃ s', exec env (S depth) (UpdateOrderStatus now orderNumber newStatus) s
             = (s', Returned)
             ∧ Notifications.calls s'
               = Notifications.calls s
                 ++ map (fun cb => OrderCallback cb newStatus) (order_array s a)
             ∧ status <$> Notifications.statusUpdates s' !! orderNumber = Some newStatus
             ∧ order_array s' a = order_array s a).
Proof.
  split.
  - intros orderNumber Hinert. simpl. unfold setCurrentOrderBeingPrepared.
    set (s1 := saveToStorage env (with_currentOrder orderNumber s)).
    destruct (saveToStorage_fields env (with_currentOrder orderNumber s))
      as (_ & _ & Hcur & Hf & _ & Ha & Hc). fold s1 in Hcur, Hf, Ha, Hc. simpl in *.
    assert (current_array s1 (Notifications.currentOrderSubscribers s1) = live s) as Hlive
      by (unfold live, current_array; by rewrite Ha, Hf).
    rewrite forEach_inert; [|done|done|].
    + fold (current_array s1 (Notifications.currentOrderSubscribers s1)).
      rewrite Hlive, drop_0, firstn_all.
      set (made := map _ (live s)).
      destruct (recorded_fields made s1) as (_ & _ & Hcur' & Hf' & _ & Ha' & _ & Hc').
      eexists. split; [done|]. rewrite Hc', Hc, Hcur', Hcur.
      split; [done|]. split; [done|].
      unfold live at 1, current_array. rewrite Ha', Hf'. exact Hlive.
    + fold (current_array s1 (Notifications.currentOrderSubscribers s1)).
      by rewrite Hlive, drop_0, firstn_all.
  - intros now orderNumber newStatus existing a Hexisting Hsub Hinert. simpl.
    unfold updateOrderStatus. rewrite Hexisting.
    set (s0 := with_statusUpdates _ s). set (s1 := saveToStorage env s0).
    destruct (saveToStorage_fields env s0) as (Hst & Hs & _ & _ & Ho & _ & Hc).
    fold s1 in Hst, Hs, Ho, Hc. simpl in *.
    rewrite Hs, Hsub.
    assert (order_array s1 a = order_array s a) as Harr
      by (unfold order_array; by rewrite Ho).
    rewrite forEach_inert; [|done|done|].
    + fold (order_array s1 a). rewrite Harr, drop_0, firstn_all.
      set (made := map _ (order_array s a)).
      destruct (recorded_fields made s1) as (Hst' & _ & _ & _ & Ho' & _ & _ & Hc').
      eexists. split; [done|]. rewrite Hc', Hc, Hst', Hst.
      split; [done|]. split; [by rewrite lookup_insert_eq|].
      unfold order_array at 1. rewrite Ho'. exact Harr.
    + fold (order_array s1 a). by rewrite Harr, drop_0, firstn_all.
Qed.

(** X24: a subscriber that unsubscribes itself when it is called makes
    the next one miss the value.  With the array holding [before], then
    [cb], then [next], then [behind], where [cb]
    reacts to a call by calling the function that subscribeToCurrentOrder
    returned for it, and the others do nothing: an announcement calls the
    subscribers of [before], then [cb], then those of [behind]; [next] is
    not called, although it is registered before and after. *)
Theorem self_unsubscribing_subscriber_hides_the_next
    (env : environment) (depth : nat) (s : state) (cb next : callback)
    (before behind : list callback) (orderNumber : option Z) :
  live s = before ++ cb :: next :: behind →
  (∀ v s', reaction env (CurrentOrderCallback cb v) s'
           = Call (UnsubscribeCurrent cb) (fun _ _ => Return)) →
  Forall (inert env) (before ++ next :: behind) →
  ∃ s', exec env (S (S depth)) (SetCurrentOrderBeingPrepared orderNumber) s = (s', Returned)
        ∧ Notifications.calls s'
          = Notifications.calls s
            ++ map (fun c => CurrentOrderCallback c orderNumber) (before ++ cb :: behind)
        ∧ live s' = before ++ next :: behind.
Proof.
  intros Hlive Hreact Hinert.
  assert (cb ∉ before) as Hcb.
  { intros Hin. apply Forall_app in Hinert as [Hbefore _].
    pose proof (proj1 (Forall_forall _ _) Hbefore cb Hin
                  (CurrentOrderCallback cb None) s eq_refl) as H.
    by rewrite Hreact in H. }
  change (exec env (S (S depth)) (SetCurrentOrderBeingPrepared orderNumber) s)
    with (setCurrentOrderBeingPrepared (exec env (S depth)) env orderNumber s).
  unfold setCurrentOrderBeingPrepared.
  set (s1 := saveToStorage env (with_currentOrder orderNumber s)).
  destruct (saveToStorage_fields env (with_currentOrder orderNumber s))
    as (_ & _ & _ & Hf & _ & Ha & Hc). fold s1 in Hf, Ha, Hc. simpl in *.
  set (a := Notifications.currentOrderSubscribers s1).
  set (mk := fun c => CurrentOrderCallback c orderNumber).
  assert (default [] (current_arrays s1 !! a) = before ++ cb :: next :: behind) as Hl.
  { rewrite <- Hlive. unfold live, current_array, a. by rewrite Ha, Hf. }
  fold (current_array s1 a). unfold current_array at 1. rewrite Hl.
  apply Forall_app in Hinert as [Hbefore Hbehind].
  apply Forall_cons_1 in Hbehind as [_ Hbehind].
  (* the subscribers before [cb] *)
  rewrite (forEach_inert_stretch _ env current_arrays a mk (length before)); [|done|done| |].
  2: { rewrite length_app. simpl. lia. }
  2: { rewrite Hl, drop_0, take_app_length. done. }
  rewrite Hl, drop_0, take_app_length.
  set (s2 := recorded (map mk before) s1).
  destruct (recorded_fields (map mk before) s1) as (_ & _ & _ & Hf2 & _ & Ha2 & _ & Hc2).
  fold s2 in Hf2, Ha2, Hc2.
  replace (length (before ++ cb :: next :: behind) - length before)%nat
    with (S (S (length behind))) by (rewrite length_app; simpl; lia).
  (* [cb] is called and unsubscribes itself *)
  change (0 + length before)%nat with (length before).
  rewrite forEach_S, Ha2, Hl, (list_lookup_middle before _ cb) by done.
  unfold call at 1. change (mk cb) with (CurrentOrderCallback cb orderNumber).
  rewrite Hreact. cbn [perform exec step and_then fst snd].
  fold (mk cb).
  set (s3 := unsubscribeCurrent cb (record (mk cb) s2)).
  assert (Notifications.currentOrderSubscribers s3 = a) as Hf3 by (simpl; by rewrite Hf2).
  assert (default [] (current_arrays s3 !! a) = before ++ next :: behind) as Hl3.
  { unfold s3, unsubscribeCurrent, current_array. simpl. rewrite Hf2. fold a.
    rewrite lookup_insert_eq. simpl. rewrite Ha2, Hl. clear -Hcb.
    induction before as [|x before IH]; simpl.
    - by rewrite Nat.eqb_refl.
    - apply not_elem_of_cons in Hcb as [Hx Hcb].
      destruct (Nat.eqb_spec x cb); [congruence|]. by rewrite IH. }
  assert (take (S (length behind)) (drop (S (length before)) (before ++ next :: behind))
          = behind) as Hrest.
  { replace (S (length before)) with (length before + 1)%nat by lia.
    rewrite <- drop_drop, drop_app_length. simpl.
    rewrite drop_0. apply take_ge. lia. }
  (* the subscribers behind [next] *)
  rewrite forEach_inert; [|done|done|by rewrite Hl3, Hrest].
  rewrite Hl3, Hrest.
  destruct (recorded_fields (map mk behind) s3) as (_ & _ & _ & Hf4 & _ & Ha4 & _ & Hc4).
  eexists. split; [done|]. split.
  - rewrite Hc4. simpl. rewrite Hc2, Hc, !map_app. simpl.
    rewrite <- !app_assoc. done.
  - unfold live, current_array. rewrite Ha4, Hf4, Hf3. exact Hl3.
Qed.

(** X26: unsubscribing from inside a subscriber, after a reset, comes too
    late.  With the array holding [before], then [resetter], then [cb],
    then [behind], where [resetter] reacts to a call by resetting the system
    and then calling the function that subscribeToCurrentOrder returned for
    [cb], and the others do nothing: an announcement still calls [cb] and
    the subscribers of [behind], with the value announced.  The reset gave
    the field a new array and the unsubscribe function looks [cb] up there,
    while forEach goes on walking the old one.  Afterwards nobody is
    registered and no order is being prepared. *)
Theorem unsubscribing_after_a_reset_is_too_late
    (env : environment) (depth : nat) (s : state) (resetter cb : callback)
    (before behind : list callback) (orderNumber : option Z) :
  live s = before ++ resetter :: cb :: behind →
  Notifications.currentOrderSubscribers s ≠ next_array s →
  (∀ v s', reaction env (CurrentOrderCallback resetter v) s'
           = Call ResetSystem (fun _ _ => Call (UnsubscribeCurrent cb) (fun _ _ => Return))) →
  Forall (inert env) (before ++ cb :: behind) →
  ∃ s', exec env (S (S depth)) (SetCurrentOrderBeingPrepared orderNumber) s = (s', Returned)
        ∧ Notifications.calls s'
          = Notifications.calls s
            ++ map (fun c => CurrentOrderCallback c orderNumber)
                   (before ++ resetter :: cb :: behind)
        ∧ live s' = []
        ∧ Notifications.currentOrderBeingPrepared s' = None.
Proof.
  intros Hlive Hfresh Hreact Hinert.
  change (exec env (S (S depth)) (SetCurrentOrderBeingPrepared orderNumber) s)
    with (setCurrentOrderBeingPrepared (exec env (S depth)) env orderNumber s).
  unfold setCurrentOrderBeingPrepared.
  set (s1 := saveToStorage env (with_currentOrder orderNumber s)).
  assert (next_array s1 = next_array s) as Hn
    by (unfold s1, saveToStorage; by repeat case_match).
  destruct (saveToStorage_fields env (with_currentOrder orderNumber s))
    as (_ & _ & _ & Hf & _ & Ha & Hc). fold s1 in Hf, Ha, Hc. simpl in *.
  set (a := Notifications.currentOrderSubscribers s1).
  set (mk := fun c => CurrentOrderCallback c orderNumber).
  assert (default [] (current_arrays s1 !! a) = before ++ resetter :: cb :: behind) as Hl.
  { rewrite <- Hlive. unfold live, current_array, a. by rewrite Ha, Hf. }
  fold (current_array s1 a). unfold current_array at 1. rewrite Hl.
  apply Forall_app in Hinert as [Hbefore Hbehind].
  (* the subscribers before [resetter] *)
  rewrite (forEach_inert_stretch _ env current_arrays a mk (length before)); [|done|done| |].
  2: { rewrite length_app. simpl. lia. }
  2: { rewrite Hl, drop_0, take_app_length. done. }
  rewrite Hl, drop_0, take_app_length.
  set (s2 := recorded (map mk before) s1).
  assert (next_array s2 = next_array s) as Hn2.
  { rewrite <- Hn. unfold s2, recorded. generalize s1. clear.
    induction (map mk before) as [|i made IH]; intros s; [done|]. simpl. by rewrite IH. }
  destruct (recorded_fields (map mk before) s1) as (_ & _ & _ & Hf2 & _ & Ha2 & _ & Hc2).
  fold s2 in Hf2, Ha2, Hc2.
  replace (length (before ++ resetter :: cb :: behind) - length before)%nat
    with (S (S (length behind))) by (rewrite length_app; simpl; lia).
  (* [resetter] is called: it resets and unsubscribes [cb] *)
  change (0 + length before)%nat with (length before).
  rewrite forEach_S, Ha2, Hl, (list_lookup_middle before _ resetter) by done.
  unfold call at 1. change (mk resetter) with (CurrentOrderCallback resetter orderNumber).
  rewrite Hreact. cbn [perform exec step and_then fst snd].
  fold (mk resetter).
  set (s3 := unsubscribeCurrent cb (resetSystem env (record (mk resetter) s2))).
  assert (Notifications.currentOrderSubscribers s3 = next_array s
          ∧ Notifications.currentOrderBeingPrepared s3 = None
          ∧ Notifications.calls s3 = Notifications.calls s2 ++ [mk resetter]
          ∧ current_arrays s3
            = <[next_array s := []]> (<[next_array s := []]> (current_arrays s2)))
    as (Hf3 & Hcur3 & Hc3 & Ha3).
  { unfold s3, unsubscribeCurrent, resetSystem, current_array.
    match goal with |- context [saveToStorage env ?x] =>
      destruct (saveToStorage_fields env x) as (_ & _ & E1 & E2 & _ & E3 & E4) end.
    simpl in *. rewrite E1, E2, E3, E4, Hn2. rewrite lookup_insert_eq. done. }
  assert (default [] (current_arrays s3 !! a) = before ++ resetter :: cb :: behind) as Hl3.
  { rewrite Ha3, !lookup_insert_ne, Ha2; [done| |]; unfold a; by rewrite Hf. }
  assert (take (S (length behind))
               (drop (S (length before)) (before ++ resetter :: cb :: behind))
          = cb :: behind) as Hrest.
  { replace (S (length before)) with (length before + 1)%nat by lia.
    rewrite <- drop_drop, drop_app_length. simpl.
    by rewrite firstn_all. }
  (* [cb] and the subscribers behind it *)
  rewrite forEach_inert; [|done|done|by rewrite Hl3, Hrest].
  rewrite Hl3, Hrest.
  destruct (recorded_fields (map mk (cb :: behind)) s3)
    as (_ & _ & Hcur4 & Hf4 & _ & Ha4 & _ & Hc4).
  eexists. split; [done|]. split; [|split].
  - rewrite Hc4, Hc3, Hc2, Hc, !map_app. simpl. rewrite <- !app_assoc. done.
  - unfold live, current_array. rewrite Ha4, Hf4, Hf3, Ha3. by rewrite lookup_insert_eq.
  - by rewrite Hcur4.
Qed.

(** Callbacks 3, 1 and 5 listen; 3 resets the system and unsubscribes 1:
    announcing order 7 calls 3, then 1, then 5. *)
Lemma unsubscribing_after_a_reset_is_too_late_witness :
  let s := NotificationScenarios.listening [3; 1; 5]%nat in
  ∃ s', exec NotificationScenarios.hasty 2 (SetCurrentOrderBeingPrepared (Some 7)) s
        = (s', Returned)
        ∧ Notifications.calls s'
          = Notifications.calls s
            ++ map (fun c => CurrentOrderCallback c (Some 7)) ([] ++ 3%nat :: 1%nat :: [5%nat])
        ∧ live s' = []
        ∧ Notifications.currentOrderBeingPrepared s' = None.
Proof.
  apply (unsubscribing_after_a_reset_is_too_late NotificationScenarios.hasty 0
           (NotificationScenarios.listening [3; 1; 5]%nat) 3%nat 1%nat [] [5%nat]).
  - by vm_compute.
  - by vm_compute.
  - done.
  - repeat constructor; intros [cb st|cb v] s0; simpl; by intros ->.
Defined.

(** Callbacks 1, 5 and 1 again listen for the order being prepared, and 1
    and 5 for order 7; none reacts.  Announcing order 7 calls 1, 5 and 1;
    making order 7 ready calls 1 and 5. *)
Lemma notifications_reach_inert_subscribers_witness :
  let s := NotificationScenarios.tracked [1; 5; 1]%nat in
  (∃ s', exec NotificationScenarios.lively 1 (SetCurrentOrderBeingPrepared (Some 7)) s
         = (s', Returned)
         ∧ Notifications.calls s'
           = Notifications.calls s
             ++ map (fun cb => CurrentOrderCallback cb (Some 7)) (live s)
         ∧ Notifications.currentOrderBeingPrepared s' = Some 7
         ∧ live s' = live s)
  ∧ live s = [1; 5; 1]%nat
  ∧ (∃ s', exec NotificationScenarios.lively 1 (UpdateOrderStatus 2000 7 ready) s
           = (s', Returned)
           ∧ Notifications.calls s'
             = Notifications.calls s
               ++ map (fun cb => OrderCallback cb ready) (order_array s 1%nat)
           ∧ status <$> Notifications.statusUpdates s' !! 7 = Some ready
           ∧ order_array s' 1%nat = order_array s 1%nat)
  ∧ order_array s 1%nat = [1; 5]%nat.
Proof.
  intros s.
  assert (inert NotificationScenarios.lively 1%nat ∧ inert NotificationScenarios.lively 5%nat)
    as [H1 H5] by (split; intros [cb st|cb v] s0; simpl; by intros ->).
  destruct (notifications_reach_inert_subscribers NotificationScenarios.lively 0 s)
    as [Hcurrent Horder].
  split; [apply Hcurrent; by repeat constructor|].
  split; [by vm_compute|].
  split; [|by vm_compute].
  eapply Horder; [by vm_compute | by vm_compute | by repeat constructor].
Defined.

(** Callbacks 1, 2 and 3 listen; 1 is unsubscribed.  Then order 7 is
    announced (2 unsubscribes itself, 3 resets the system, subscribes 4 and
    throws), 2 subscribes again and the announcement is withdrawn: 1 is not
    called. *)
Lemma unsubscribeCurrent_stops_callbacks_witness :
  let unsubscribed := unsubscribeCurrent 1%nat (NotificationScenarios.listening [1; 2; 3]%nat) in
  let after := [SetCurrentOrderBeingPrepared (Some 7); SubscribeToCurrentOrder 2%nat;
                SetCurrentOrderBeingPrepared None] in
  (1%nat ∉ live unsubscribed)
  ∧ (1%nat ∉ live (run NotificationScenarios.lively 3 after unsubscribed))
  ∧ current_calls_of 1%nat
      (Notifications.calls (run NotificationScenarios.lively 3 after unsubscribed))
    = current_calls_of 1%nat (Notifications.calls unsubscribed).
Proof.
  apply (unsubscribeCurrent_stops_callbacks NotificationScenarios.lively 1%nat
           (NotificationScenarios.listening [1; 2; 3]%nat)).
  - vm_compute. lia.
  - intros [cb st|cb v] s; simpl; [tauto|].
    destruct cb as [|[|[|[|cb]]]]; simpl; try tauto.
    + intros [H|(s' & threw & H)]; [discriminate | done].
    + intros [H|(s' & threw & [H|(s'' & threw' & H)])]; [discriminate | discriminate | done].
  - repeat constructor; discriminate.
Defined.

(** Callbacks 1, 2, 5 and 6 listen, and 2 unsubscribes itself when called:
    announcing order 7 calls 1, 2 and 6, not 5. *)
Lemma self_unsubscribing_subscriber_hides_the_next_witness :
  let s := NotificationScenarios.listening [1; 2; 5; 6]%nat in
  ∃ s', exec NotificationScenarios.lively 2 (SetCurrentOrderBeingPrepared (Some 7)) s
        = (s', Returned)
        ∧ Notifications.calls s'
          = Notifications.calls s
            ++ map (fun c => CurrentOrderCallback c (Some 7)) ([1%nat] ++ 2%nat :: [6%nat])
        ∧ live s' = [1%nat] ++ 5%nat :: [6%nat].
Proof.
  apply (self_unsubscribing_subscriber_hides_the_next NotificationScenarios.lively 0
           (NotificationScenarios.listening [1; 2; 5; 6]%nat) 2%nat 5%nat [1%nat] [6%nat]).
  - by vm_compute.
  - done.
  - repeat constructor; intros [cb st|cb v] s0; simpl; by intros ->.
Defined.

End NotificationFacts.

Section NotificationRefinement.

Import TrackingSystem Notifications NotificationStatements.

Variable env : environment.
Hypothesis all_inert : ∀ cb, inert env cb.
Hypothesis all_accepted : ∀ n, accepts env n = true.

Lemma view_saveToStorage s :
  view (Notifications.saveToStorage env s) = TrackingSystem.saveToStorage (view s).
Proof.
  unfold Notifications.saveToStorage, TrackingSystem.saveToStorage. simpl.
  destruct (Notifications.has_window s) eqn:Hw; [|done].
  rewrite !all_accepted.
  destruct (Notifications.currentOrderBeingPrepared s) eqn:Hc;
    unfold view, live, current_array, order_array; simpl; by rewrite Hw, Hc.
Qed.

Lemma separate_arrays_saveToStorage s :
  separate_arrays s → separate_arrays (Notifications.saveToStorage env s).
Proof.
  unfold separate_arrays, Notifications.saveToStorage. by repeat case_match.
Qed.

Lemma view_recorded made s :
  view (recorded made s) = record_calls made (view s).
Proof.
  destruct (recorded_fields made s) as (H1 & H2 & H3 & H4 & H5 & H6 & H7 & H8).
  unfold view, record_calls, live, current_array, order_array. simpl.
  rewrite H1, H2, H3, H4, H6, H7, H8. f_equal.
  - apply map_fmap_ext. intros n a _. by rewrite H5.
  - unfold recorded. clear. revert s. induction made as [|i made IH]; intros s; [done|].
    simpl. by rewrite IH.
Qed.

Lemma separate_arrays_recorded made s : separate_arrays s → separate_arrays (recorded made s).
Proof.
  unfold recorded. revert s. induction made as [|i made IH]; intros s H; [done|].
  simpl. by apply IH.
Qed.

Lemma forEach_all_inert exec heap a mk s :
  (∀ i s, heap (record i s) = heap s) →
  (∀ cb, subscriber (mk cb) = cb) →
  forEach exec env heap a mk (length (default [] (heap s !! a))) 0 s
  = (recorded (map mk (default [] (heap s !! a))) s, Returned).
Proof.
  intros Hheap Hmk. rewrite forEach_inert; [|done|done|].
  - by rewrite drop_0, firstn_all.
  - apply Forall_forall. intros cb _. apply all_inert.
Qed.

Lemma view_updateOrderStatus exec now n st s :
  ∃ s', Notifications.updateOrderStatus exec env now n st s = (s', Returned)
        ∧ view s' = TrackingSystem.updateOrderStatus now n st (view s)
        ∧ (separate_arrays s → separate_arrays s').
Proof.
  unfold Notifications.updateOrderStatus, TrackingSystem.updateOrderStatus.
  change (TrackingSystem.statusUpdates (view s)) with (Notifications.statusUpdates s).
  destruct (Notifications.statusUpdates s !! n) as [existing|]; [|by eexists].
  set (s0 := Notifications.with_statusUpdates _ s).
  set (s1 := Notifications.saveToStorage env s0).
  change (TrackingSystem.with_statusUpdates _ (view s)) with (view s0).
  rewrite <- view_saveToStorage. fold s1.
  change (TrackingSystem.subscribers (view s1))
    with (order_array s1 <$> Notifications.subscribers s1).
  rewrite lookup_fmap.
  assert (separate_arrays s → separate_arrays s1) as Hwf
    by (intros H; by apply separate_arrays_saveToStorage).
  destruct (Notifications.subscribers s1 !! n) as [a|]; simpl.
  - unfold order_array at 1. rewrite forEach_all_inert by done.
    eexists. split; [done|]. split; [apply view_recorded|].
    intros H. by apply separate_arrays_recorded, Hwf.
  - eexists. split; [done|]. split; [|done].
    unfold record_calls, view. simpl. by rewrite app_nil_r.
Qed.

Lemma view_setCurrentOrderBeingPrepared exec v s :
  ∃ s', Notifications.setCurrentOrderBeingPrepared exec env v s = (s', Returned)
        ∧ view s' = TrackingSystem.setCurrentOrderBeingPrepared v (view s)
        ∧ (separate_arrays s → separate_arrays s').
Proof.
  unfold Notifications.setCurrentOrderBeingPrepared,
    TrackingSystem.setCurrentOrderBeingPrepared.
  set (s0 := Notifications.with_currentOrder v s).
  set (s1 := Notifications.saveToStorage env s0).
  change (TrackingSystem.with_currentOrder v (view s)) with (view s0).
  rewrite <- view_saveToStorage. fold s1.
  unfold current_array. rewrite forEach_all_inert by done.
  eexists. split; [done|]. split; [apply view_recorded|].
  intros H. by apply separate_arrays_recorded, separate_arrays_saveToStorage.
Qed.

Lemma view_subscribeToOrder n cb s :
  separate_arrays s →
  view (Notifications.subscribeToOrder n cb s) = TrackingSystem.subscribeToOrder n cb (view s)
  ∧ separate_arrays (Notifications.subscribeToOrder n cb s).
Proof.
  intros [Hbound Hinj].
  unfold Notifications.subscribeToOrder, TrackingSystem.subscribeToOrder.
  change (TrackingSystem.subscribers (view s))
    with (order_array s <$> Notifications.subscribers s).
  rewrite lookup_fmap.
  destruct (Notifications.subscribers s !! n) as [a|] eqn:Hn; simpl.
  - split; [|done].
    unfold view, with_subscribers, live, current_array. simpl. f_equal.
    rewrite lookup_fmap, Hn. simpl.
    apply map_eq. intros m. destruct (decide (m = n)) as [->|Hm].
    + rewrite lookup_insert_eq, lookup_fmap, Hn. simpl.
      unfold order_array at 1. simpl. by rewrite lookup_insert_eq.
    + rewrite lookup_insert_ne, !lookup_fmap by done.
      destruct (Notifications.subscribers s !! m) as [b|] eqn:Hb; [|done]. simpl.
      unfold order_array at 1. simpl. rewrite lookup_insert_ne; [done|].
      intros <-. apply Hm. by eapply Hinj.
  - split.
    + unfold view, with_subscribers, live, current_array. simpl. f_equal.
      rewrite lookup_insert_eq. simpl. rewrite insert_insert_eq.
      apply map_eq. intros m. destruct (decide (m = n)) as [->|Hm].
      * rewrite lookup_fmap, !lookup_insert_eq. simpl.
        unfold order_array. simpl. by rewrite lookup_insert_eq.
      * rewrite lookup_fmap, !lookup_insert_ne, lookup_fmap by done.
        destruct (Notifications.subscribers s !! m) as [b|] eqn:Hb; [|done]. simpl.
        unfold order_array at 1. simpl. rewrite lookup_insert_ne; [done|].
        intros <-. apply Hbound in Hb. lia.
    + split; simpl.
      * intros m a. destruct (decide (m = n)) as [->|Hm].
        -- rewrite lookup_insert_eq. intros [= <-]. lia.
        -- rewrite lookup_insert_ne by done. intros H%Hbound. lia.
      * intros m1 m2 a.
        destruct (decide (m1 = n)) as [->|H1]; destruct (decide (m2 = n)) as [->|H2];
          rewrite ?lookup_insert_eq, ?lookup_insert_ne by done; [done| | |by apply Hinj].
        -- intros [= <-] H%Hbound. lia.
        -- intros H%Hbound [= <-]. lia.
Qed.

Lemma view_unsubscribe n cb s :
  separate_arrays s →
  view (Notifications.unsubscribe n cb s) = TrackingSystem.unsubscribe n cb (view s)
  ∧ separate_arrays (Notifications.unsubscribe n cb s).
Proof.
  intros [Hbound Hinj].
  unfold Notifications.unsubscribe, TrackingSystem.unsubscribe.
  change (TrackingSystem.subscribers (view s))
    with (order_array s <$> Notifications.subscribers s).
  rewrite lookup_fmap.
  destruct (Notifications.subscribers s !! n) as [a|] eqn:Hn; simpl; [|done].
  split; [|done].
  unfold view, with_subscribers, live, current_array. simpl. f_equal.
  apply map_eq. intros m. destruct (decide (m = n)) as [->|Hm].
  - rewrite lookup_insert_eq, lookup_fmap, Hn. simpl.
    unfold order_array at 1. simpl. by rewrite lookup_insert_eq.
  - rewrite lookup_insert_ne, !lookup_fmap by done.
    destruct (Notifications.subscribers s !! m) as [b|] eqn:Hb; [|done]. simpl.
    unfold order_array at 1. simpl. rewrite lookup_insert_ne; [done|].
    intros <-. apply Hm. by eapply Hinj.
Qed.

(** X25: for subscribers that return without calling into the tracking
    system and a localStorage that accepts every write, the tracking system
    with its live arrays does what [TrackingSystem.step] says: every call
    returns, and leaves the maps, the arrays' contents, the order being
    prepared, localStorage and the log of calls as the step does. *)
Theorem inert_subscribers_follow_the_steps (depth : nat) (s : Notifications.state) :
  separate_arrays s →
  (∀ o, ∃ s', Notifications.exec env (S depth) o s = (s', Returned)
              ∧ view s' = TrackingSystem.step (view s) o
              ∧ separate_arrays s')
  ∧ (∀ ops, view (Notifications.run env (S depth) ops s) = TrackingSystem.run (view s) ops).
Proof.
  assert (∀ o s, separate_arrays s →
            ∃ s', Notifications.exec env (S depth) o s = (s', Returned)
                  ∧ view s' = TrackingSystem.step (view s) o
                  ∧ separate_arrays s') as Hstep.
  { clear s. intros o s Hwf.
    destruct o as [now n v | now n st | n cb | n cb | now n | v | cb | cb | ]; simpl.
    - eexists. split; [done|]. split.
      + unfold Notifications.initializeOrder. by rewrite view_saveToStorage.
      + by apply separate_arrays_saveToStorage.
    - destruct (view_updateOrderStatus (Notifications.exec env depth) now n st s)
        as (s' & H1 & H2 & H3). eauto.
    - destruct (view_subscribeToOrder n cb s Hwf). eauto.
    - destruct (view_unsubscribe n cb s Hwf). eauto.
    - unfold Notifications.simulateStatusUpdate, TrackingSystem.simulateStatusUpdate,
        getOrderTracking.
      change (TrackingSystem.statusUpdates (view s)) with (Notifications.statusUpdates s).
      destruct (Notifications.statusUpdates s !! n) as [current|]; [|by eexists].
      destruct (view_updateOrderStatus (Notifications.exec env depth) now n
                  (match status current with
                   | waiting => preparing
                   | preparing => ready
                   | _ => ready
                   end) s) as (s' & H1 & H2 & H3). eauto.
    - destruct (view_setCurrentOrderBeingPrepared (Notifications.exec env depth) v s)
        as (s' & H1 & H2 & H3). eauto.
    - eexists. split; [done|]. split; [|done].
      unfold view, live, current_array, order_array. simpl. by rewrite lookup_insert_eq.
    - eexists. split; [done|]. split; [|done].
      unfold view, live, current_array, order_array. simpl. by rewrite lookup_insert_eq.
    - eexists. split; [done|]. unfold Notifications.resetSystem. split.
      + rewrite view_saveToStorage. unfold TrackingSystem.resetSystem. f_equal.
        unfold view, live, current_array, order_array. simpl.
        by rewrite lookup_insert_eq, fmap_empty.
      + apply separate_arrays_saveToStorage. by split. }
  intros Hwf. split; [intros o; by apply Hstep|].
  intros ops. revert s Hwf. induction ops as [|o ops IH]; intros s Hwf; [done|].
  destruct (Hstep o s Hwf) as (s' & H1 & H2 & H3).
  cbn [Notifications.run TrackingSystem.run fold_left]. rewrite H1, <- H2.
  by apply IH.
Qed.

End NotificationRefinement.

(** With subscribers that do nothing: order 7 is initialised, 1 subscribes
    to it twice and unsubscribes once, the order is made ready, 2 listens
    for the order being prepared, order 7 is announced and the system is
    reset. *)
Lemma inert_subscribers_follow_the_steps_witness :
  let s := NotificationScenarios.listening [] in
  let ops := [TrackingSystem.InitializeOrder 1000 7 43210;
              TrackingSystem.SubscribeToOrder 7 1%nat;
              TrackingSystem.SubscribeToOrder 7 1%nat;
              TrackingSystem.Unsubscribe 7 1%nat;
              TrackingSystem.UpdateOrderStatus 2000 7 TrackingSystem.ready;
              TrackingSystem.SubscribeToCurrentOrder 2%nat;
              TrackingSystem.SetCurrentOrderBeingPrepared (Some 7);
              TrackingSystem.ResetSystem] in
  (∀ o, ∃ s', Notifications.exec NotificationScenarios.quiet 1 o s
              = (s', Notifications.Returned)
              ∧ NotificationStatements.view s'
                = TrackingSystem.step (NotificationStatements.view s) o
              ∧ NotificationStatements.separate_arrays s')
  ∧ NotificationStatements.view (Notifications.run NotificationScenarios.quiet 1 ops s)
    = TrackingSystem.run (NotificationStatements.view s) ops.
Proof.
  intros s ops.
  destruct (inert_subscribers_follow_the_steps NotificationScenarios.quiet
              (fun cb i s0 _ => eq_refl) (fun n => eq_refl) 0 s) as [Hstep Hrun].
  - split; intros ?; intros; by rewrite ?lookup_empty in *.
  - split; [exact Hstep | exact (Hrun ops)].
Defined.
